(** * get_plane.py: launcher and plane estimation

    A shallow embedding of [nerfstudio/scripts/get_plane.py]:

    - [launch] (lines 87-121), the single-process launcher, with Python's
      [try / except KeyboardInterrupt / finally] written out over an
      exception-and-trace monad;
    - the checkpoint resolution of [plane_estimation] (lines 130-139), with
      Python's [find], slicing, [int], [sorted] and the [09d] format;
    - the per-camera back-projection loop of [plane_estimation]
      (lines 169-197) over 1-D tensors represented as lists;
    - the plane fit (lines 199-207) and the reporting tail (lines 209-245);
    - [_find_free_port] (lines 79-85) and [main] (lines 246-287), the
      caller of [launch].

    Tensor arithmetic is generic in a scalar interface.  Two instances are
    given: IEEE binary32 (the arithmetic torch performs, through
    [SpecFloat]), used to run the code on concrete inputs, and the
    rationals [Qc], used for the algebraic statements, which therefore
    speak of exact arithmetic and say nothing about rounding.

    What the collaborators of the script answer is an input of the model:
    the cameras, ray indices, normalisation matrix, scale factor and
    vertices of the data manager, the depth outputs of the surface
    detection, the listing of the checkpoint directory.  Printing,
    plotting, [torch.load] and the profiler flush are recorded as events
    and taken to return normally.  Device placement is not modelled.  The
    regressor ([sklearn.linear_model.LinearRegression]) is a parameter of
    the fit; a model of it in exact arithmetic is given for concrete
    runs. *)

From Stdlib Require Import ZArith List String Ascii Bool Lia.
From Stdlib Require Import QArith Qcanon Floats.SpecFloat.
From Stdlib Require Import DecimalString DecimalN Permutation.
Import ListNotations.

Close Scope Qc_scope.
Close Scope Q_scope.

Set Implicit Arguments.

(* ================================================================= *)
(** * Exceptions, events and the effect monad *)

(** The Python exceptions the script can meet.  [OtherException] stands for
    any exception class that is not listed (it is not a subclass of
    [KeyboardInterrupt]). *)
Inductive exn : Type :=
| KeyboardInterrupt
| ValueError (msg : string)
| AssertionError (msg : string)
| IndexError (msg : string)
| RuntimeError (msg : string)
| OtherException (name : string).

Inductive outcome (A : Type) : Type :=
| Return (a : A)
| Raise (e : exn).

Arguments Return {A} a.
Arguments Raise {A} e.

(** Observable actions, in the order they happen.  [Msg] is the type of the
    things printed, [Cfg] the configuration handed to the entry point,
    [Log] the value of [config.logging]. *)
Inductive event (Cfg Log Msg : Type) : Type :=
| CallEntryPoint (c : Cfg)            (* main_func(config=config) *)
| ConsoleTraceback (e : exn)          (* CONSOLE.print(traceback.format_exc()) *)
| ConsolePrint (m : Msg)              (* CONSOLE.print(...) *)
| StdoutPrint (m : Msg)               (* print(...) *)
| FlushProfiler (l : Log)             (* profiler.flush_profiler(config.logging) *)
| SocketCreate                        (* socket.socket(AF_INET, SOCK_STREAM) *)
| SocketBind (port : Z)               (* sock.bind(("", 0)) *)
| SocketClose                         (* sock.close() *)
| TorchLoad (path : string)           (* torch.load(path, map_location="cpu") *)
| PlotShow.                           (* plt.show() *)

Arguments CallEntryPoint {Cfg Log Msg} c.
Arguments ConsoleTraceback {Cfg Log Msg} e.
Arguments ConsolePrint {Cfg Log Msg} m.
Arguments StdoutPrint {Cfg Log Msg} m.
Arguments FlushProfiler {Cfg Log Msg} l.
Arguments SocketCreate {Cfg Log Msg}.
Arguments SocketBind {Cfg Log Msg} port.
Arguments SocketClose {Cfg Log Msg}.
Arguments TorchLoad {Cfg Log Msg} path.
Arguments PlotShow {Cfg Log Msg}.

Section Effects.
Variables Cfg Log Msg : Type.

Definition trace : Type := list (event Cfg Log Msg).

(** A computation reads the trace so far and gives an outcome and the
    trace extended with what it did. *)
Definition M (A : Type) : Type := trace -> outcome A * trace.

Definition ret {A} (a : A) : M A := fun tr => (Return a, tr).

Definition raise {A} (e : exn) : M A := fun tr => (Raise e, tr).

Definition bind {A B} (m : M A) (k : A -> M B) : M B :=
  fun tr =>
    match m tr with
    | (Return a, tr') => k a tr'
    | (Raise e, tr') => (Raise e, tr')
    end.

Definition emit (ev : event Cfg Log Msg) : M unit :=
  fun tr => (Return tt, tr ++ [ev]).

(** [assert cond, msg] *)
Definition py_assert (cond : bool) (msg : string) : M unit :=
  if cond then ret tt else raise (AssertionError msg).

(** [try: body / except <handles>: handler / finally: final].

    The handler runs when the body raises an exception the clause
    matches; any other exception stays pending.  The [finally] suite runs
    on every path; when it raises, its exception replaces the pending
    outcome. *)
Definition try_except_finally {A}
    (body : M A) (handles : exn -> bool) (handler : exn -> M A)
    (final : M unit) : M A :=
  fun tr =>
    let '(r1, tr1) := body tr in
    let '(r2, tr2) :=
      match r1 with
      | Return a => (Return a, tr1)
      | Raise e => if handles e then handler e tr1 else (Raise e, tr1)
      end in
    match final tr2 with
    | (Return _, tr3) => (r2, tr3)
    | (Raise e', tr3) => (Raise e', tr3)
    end.

Definition is_KeyboardInterrupt (e : exn) : bool :=
  match e with KeyboardInterrupt => true | _ => false end.

(** How often the entry point was entered in a trace. *)
Definition is_call (ev : event Cfg Log Msg) : bool :=
  match ev with CallEntryPoint _ => true | _ => false end.

Definition entry_calls (tr : trace) : nat :=
  List.length (filter is_call tr).

Definition is_flush (ev : event Cfg Log Msg) : bool :=
  match ev with FlushProfiler _ => true | _ => false end.

Definition is_traceback (ev : event Cfg Log Msg) : bool :=
  match ev with ConsoleTraceback _ => true | _ => false end.

(* --------------------------------------------------------------- *)
(** ** [_find_free_port] (lines 79-85)

    The port the operating system hands out is an input of the model. *)
Definition _find_free_port (os_port : Z) : M Z :=
  bind (emit SocketCreate) (fun _ =>
  bind (emit (SocketBind 0)) (fun _ =>
  let port := os_port in
  bind (emit SocketClose) (fun _ =>
  ret port))).

(* --------------------------------------------------------------- *)
(** ** [launch] (lines 87-121) *)

Inductive device_type : Type := cpu | cuda | mps.

(** [config.logging] *)
Variable logging : Cfg -> Log.

(** The entry point is any computation: it may print, return a value of
    type [V] or raise any exception.  Calling it is recorded in the
    trace. *)
Definition call_entry_point {V} (main_func : Cfg -> M V) (config : Cfg) : M V :=
  bind (emit (CallEntryPoint config)) (fun _ => main_func config).

Definition launch {V}
    (main_func : Cfg -> M V)
    (num_devices_per_machine : Z)
    (num_machines : Z)
    (machine_rank : Z)
    (dist_url : string)
    (config : option Cfg)
    (timeout : Z)
    (device : device_type) : M unit :=
  match config with
  | None => raise (AssertionError "")
  | Some config =>
      let world_size := (num_machines * num_devices_per_machine)%Z in
      if (world_size =? 0)%Z then
        raise (ValueError "world_size cannot be 0")
      else if (world_size =? 1)%Z then
        try_except_finally
          (bind (call_entry_point main_func config) (fun _ => ret tt))
          is_KeyboardInterrupt
          (fun e => emit (ConsoleTraceback e))
          (emit (FlushProfiler (logging config)))
      else
        ret tt
  end.

End Effects.

Arguments ret {Cfg Log Msg A} a _.
Arguments raise {Cfg Log Msg A} e _.
Arguments bind {Cfg Log Msg A B} m k _.
Arguments emit {Cfg Log Msg} ev _.
Arguments py_assert {Cfg Log Msg} cond msg _.

(* ================================================================= *)
(** * Scalars and tensors *)

(** The arithmetic of tensor elements.  [s_of_Z] is the promotion of an
    integer (a pixel index) to the floating dtype. *)
Class Scalar (K : Type) : Type := {
  s_zero : K;
  s_one : K;
  s_add : K -> K -> K;
  s_sub : K -> K -> K;
  s_mul : K -> K -> K;
  s_div : K -> K -> K;
  s_of_Z : Z -> K
}.

(** IEEE 754 binary32, the dtype of torch's default float tensors:
    24 bits of precision, exponents up to 128.  Division by zero is not an
    error: it gives an infinity or a NaN. *)
Definition binary32 : Type := spec_float.

#[export] Instance binary32_scalar : Scalar binary32 := {|
  s_zero := S754_zero false;
  s_one := SFone 24 128;
  s_add := SFadd 24 128;
  s_sub := SFsub 24 128;
  s_mul := SFmul 24 128;
  s_div := SFdiv 24 128;
  s_of_Z := fun z => binary_normalize 24 128 z 0 false
|}.

(** Exact rational arithmetic. *)
#[export] Instance Qc_scalar : Scalar Qc := {|
  s_zero := 0%Qc;
  s_one := 1%Qc;
  s_add := Qcplus;
  s_sub := Qcminus;
  s_mul := Qcmult;
  s_div := Qcdiv;
  s_of_Z := fun z => Q2Qc (inject_Z z)
|}.

(** Pure computations that may raise. *)
Definition obind {A B} (m : outcome A) (k : A -> outcome B) : outcome B :=
  match m with
  | Return a => k a
  | Raise e => Raise e
  end.

Section Tensors.
Context {K : Type} {SK : Scalar K}.

(** A row of a matrix with four columns, and a 3-D point. *)
Record vec4 : Type := mkVec4 { v0 : K; v1 : K; v2 : K; v3 : K }.

Definition point : Type := (K * K * K)%type.

(** A camera-to-world or normalisation matrix: shape [3, 4] or [4, 4]. *)
Inductive affine : Type :=
| Mat3x4 (r0 r1 r2 : vec4)
| Mat4x4 (r0 r1 r2 r3 : vec4).

Definition identity4 : affine :=
  Mat4x4 (mkVec4 s_one s_zero s_zero s_zero)
         (mkVec4 s_zero s_one s_zero s_zero)
         (mkVec4 s_zero s_zero s_one s_zero)
         (mkVec4 s_zero s_zero s_zero s_one).

Definition identity3x4 : affine :=
  Mat3x4 (mkVec4 s_one s_zero s_zero s_zero)
         (mkVec4 s_zero s_one s_zero s_zero)
         (mkVec4 s_zero s_zero s_one s_zero).

(** One entry of a matrix product: the products are accumulated from
    zero, left to right. *)
Definition dot4 (r p : vec4) : K :=
  s_add (s_add (s_add (s_add s_zero (s_mul (v0 r) (v0 p)))
                      (s_mul (v1 r) (v1 p)))
               (s_mul (v2 r) (v2 p)))
        (s_mul (v3 r) (v3 p)).

(** [(m @ p.T).T[..., :3]] for one homogeneous point [p]: the first three
    entries of the product; a fourth row of [m] is computed by torch and
    sliced away. *)
Definition apply_affine (m : affine) (p : vec4) : point :=
  match m with
  | Mat3x4 r0 r1 r2 => (dot4 r0 p, dot4 r1 p, dot4 r2 p)
  | Mat4x4 r0 r1 r2 _ => (dot4 r0 p, dot4 r1 p, dot4 r2 p)
  end.

Definition zip_with {A B C} (f : A -> B -> C) (a : list A) (b : list B) : list C :=
  map (fun ab => f (fst ab) (snd ab)) (combine a b).

(** Element-wise binary operation on 1-D tensors with torch's
    broadcasting: equal lengths, or one side of length one. *)
Definition broadcast2 (op : K -> K -> K) (a b : list K) : outcome (list K) :=
  if Nat.eqb (List.length a) (List.length b) then Return (zip_with op a b)
  else match a, b with
       | [x], _ => Return (map (op x) b)
       | _, [y] => Return (map (fun x => op x y) a)
       | _, _ => Raise (RuntimeError "The size of tensor a must match the size of tensor b")
       end.

(** [torch.stack([X, Y, Z, torch.ones_like(X)], dim=-1)]: the four
    tensors must have one shape. *)
Definition stack4 (X Y Z : list K) : outcome (list vec4) :=
  if (Nat.eqb (List.length X) (List.length Y) && Nat.eqb (List.length X) (List.length Z))%bool
  then Return (map (fun xyz => mkVec4 (fst (fst xyz)) (snd (fst xyz)) (snd xyz) s_one)
                   (combine (combine X Y) Z))
  else Raise (RuntimeError "stack expects each tensor to be equal size").

(** ** Data held by the data manager *)

Record Camera : Type := mkCamera {
  fx : K;
  fy : K;
  cx : K;
  cy : K;
  camera_to_worlds : affine
}.

(** [ray_indices[i]]: entry 1 holds the pixel rows, entry 2 the pixel
    columns (entry 0 is not read). *)
Record RayIndex : Type := mkRayIndex {
  ray_cam : list Z;
  ray_row : list Z;
  ray_col : list Z
}.

(** ** The body of the camera loop (lines 172-192) *)
Definition back_project_camera
    (cam : Camera) (depth : list K) (rays : RayIndex)
    (transform_matrix : affine) (scale_factor : K) : outcome (list point) :=
  let y := ray_row rays in
  let x := ray_col rays in
  (* X = (x - cx) * depth / fx *)
  obind (broadcast2 s_mul (map (fun xi => s_sub (s_of_Z xi) (cx cam)) x) depth) (fun xd =>
  let X := map (fun v => s_div v (fx cam)) xd in
  (* Y = (y - cy) * depth / fy *)
  obind (broadcast2 s_mul (map (fun yi => s_sub (s_of_Z yi) (cy cam)) y) depth) (fun yd =>
  let Y := map (fun v => s_div v (fy cam)) yd in
  let Z := depth in
  obind (stack4 X Y Z) (fun camera_xyz =>
  let world_coordinates := map (apply_affine (camera_to_worlds cam)) camera_xyz in
  let world_coordinates_homogeneous :=
    map (fun p : point => mkVec4 (fst (fst p)) (snd (fst p)) (snd p) s_one) world_coordinates in
  let transformed_world_coordinates :=
    map (apply_affine transform_matrix) world_coordinates_homogeneous in
  let scaled_transformed_world_coordinates :=
    map (fun p : point =>
           (s_mul (fst (fst p)) scale_factor,
            s_mul (snd (fst p)) scale_factor,
            s_mul (snd p) scale_factor))
        transformed_world_coordinates in
  Return scaled_transformed_world_coordinates))).

(** What the loop body computes for one sample: pixel column [col], pixel
    row [row], depth [d]. *)
Definition back_project_sample
    (cam : Camera) (transform_matrix : affine) (scale_factor : K)
    (col row : Z) (d : K) : point :=
  let X := s_div (s_mul (s_sub (s_of_Z col) (cx cam)) d) (fx cam) in
  let Y := s_div (s_mul (s_sub (s_of_Z row) (cy cam)) d) (fy cam) in
  let w := apply_affine (camera_to_worlds cam) (mkVec4 X Y d s_one) in
  let t := apply_affine transform_matrix
                        (mkVec4 (fst (fst w)) (snd (fst w)) (snd w) s_one) in
  (s_mul (fst (fst t)) scale_factor,
   s_mul (snd (fst t)) scale_factor,
   s_mul (snd t) scale_factor).

Definition back_project_samples
    (cam : Camera) (transform_matrix : affine) (scale_factor : K)
    (cols rows : list Z) (depth : list K) : list point :=
  map (fun crd => back_project_sample cam transform_matrix scale_factor
                    (fst (fst crd)) (snd (fst crd)) (snd crd))
      (combine (combine cols rows) depth).

(** ** The camera loop (lines 169-193)

    [for i in range(num_image)]: the cameras and the depth outputs have
    [num_image] entries; [ray_indices[i]] raises [IndexError] when the
    index list is shorter. *)
Definition py_index {A} (l : list A) (i : nat) : outcome A :=
  match nth_error l i with
  | Some a => Return a
  | None => Raise (IndexError "list index out of range")
  end.

Fixpoint camera_loop
    (expanded_cameras : list Camera) (output : list (list K))
    (ray_indices : list RayIndex) (transform_matrix : affine) (scale_factor : K)
    (range : list nat) (world_xyz : list (list point)) : outcome (list (list point)) :=
  match range with
  | [] => Return world_xyz
  | i :: rest =>
      obind (py_index expanded_cameras i) (fun cam =>
      obind (py_index output i) (fun depth =>
      obind (py_index ray_indices i) (fun rays =>
      obind (back_project_camera cam depth rays transform_matrix scale_factor) (fun pts =>
      camera_loop expanded_cameras output ray_indices transform_matrix scale_factor
                  rest (world_xyz ++ [pts])))))
  end.

(** [np.concatenate(arrays, axis=0)] *)
Definition np_concatenate {A} (arrays : list (list A)) : outcome (list A) :=
  match arrays with
  | [] => Raise (ValueError "need at least one array to concatenate")
  | _ => Return (List.concat arrays)
  end.

(** Lines 164-197: the aggregate point cloud. *)
Definition world_points
    (expanded_cameras : list Camera) (output : list (list K))
    (ray_indices : list RayIndex) (transform_matrix : affine) (scale_factor : K)
    : outcome (list point) :=
  let num_image := List.length expanded_cameras in
  if Nat.eqb num_image (List.length output) then
    obind (camera_loop expanded_cameras output ray_indices transform_matrix
                       scale_factor (seq 0 num_image) [])
          np_concatenate
  else Raise (AssertionError "false length").

End Tensors.

Arguments vec4 K : clear implicits.
Arguments point K : clear implicits.
Arguments affine K : clear implicits.
Arguments Camera K : clear implicits.

(* ================================================================= *)
(** * Python strings and integers used by the checkpoint lookup *)

Open Scope string_scope.

(** [s.find(c)] for a one-character needle: the index of its first
    occurrence, or -1. *)
Fixpoint py_find_from (c : ascii) (s : string) (i : Z) : Z :=
  match s with
  | EmptyString => (-1)%Z
  | String a r => if Ascii.eqb a c then i else py_find_from c r (i + 1)%Z
  end.

Definition py_find (c : ascii) (s : string) : Z := py_find_from c s 0.

(** A slice bound as Python normalises it: a negative bound counts from the
    end, and the result is clipped to [0, len]. *)
Definition py_clip (len : nat) (i : Z) : nat :=
  let i' := if (i <? 0)%Z then (i + Z.of_nat len)%Z else i in
  Nat.min (Z.to_nat i') len.

(** [s[i:j]] *)
Definition py_slice (s : string) (i j : Z) : string :=
  let len := String.length s in
  let lo := py_clip len i in
  let hi := py_clip len j in
  substring lo (hi - lo) s.

(** A character of a [string] is a code point below 256.  Among these the
    decimal digits are ["0"] to ["9"]. *)
Definition is_digit (c : ascii) : bool :=
  ((48 <=? nat_of_ascii c) && (nat_of_ascii c <=? 57))%nat.

(** White space, which [int] strips on both sides: the ASCII white space
    of C, and the two other code points below 256 that are Unicode white
    space (U+0085 and U+00A0), which [int] reads as a blank. *)
Definition is_space (c : ascii) : bool :=
  let n := nat_of_ascii c in
  ((n =? 32) || ((9 <=? n) && (n <=? 13)) || (n =? 133) || (n =? 160))%nat.

Fixpoint lstrip (s : string) : string :=
  match s with
  | String c r => if is_space c then lstrip r else s
  | EmptyString => EmptyString
  end.

Fixpoint rstrip (s : string) : string :=
  match s with
  | EmptyString => EmptyString
  | String c r =>
      match rstrip r with
      | EmptyString => if is_space c then EmptyString else String c EmptyString
      | r' => String c r'
      end
  end.

(** The digits of an integer literal, grouping underscores removed: an
    underscore is accepted only between two digits.  [after_digit] tells
    whether the previous character was a digit. *)
Fixpoint int_digits (s : string) (after_digit : bool) : option string :=
  match s with
  | EmptyString => if after_digit then Some EmptyString else None
  | String c r =>
      if is_digit c then option_map (String c) (int_digits r true)
      else if Ascii.eqb c "_" then
             if after_digit then int_digits r false else None
      else None
  end.

Definition parse_unsigned (s : string) : option Z :=
  match int_digits s false with
  | Some ds =>
      match NilEmpty.uint_of_string ds with
      | Some u => Some (Z.of_N (N.of_uint u))
      | None => None
      end
  | None => None
  end.

(** [repr(s)]: the string between quotes, with the quote, the backslash
    and the characters that do not print escaped.  The quote is ['] unless
    the string holds a ['] and no double quote. *)
Definition quote1 : ascii := "'"%char.
Definition quote2 : ascii := ascii_of_nat 34.
Definition backslash : ascii := ascii_of_nat 92.

Fixpoint contains (c : ascii) (s : string) : bool :=
  match s with
  | EmptyString => false
  | String a r => Ascii.eqb a c || contains c r
  end.

Definition hex_digit (n : nat) : ascii :=
  if (n <? 10)%nat then ascii_of_nat (48 + n) else ascii_of_nat (87 + n).

(** [str.isprintable] on one code point below 256. *)
Definition is_printable (c : ascii) : bool :=
  let n := nat_of_ascii c in
  (((32 <=? n) && (n <=? 126)) || ((161 <=? n) && negb (n =? 173)))%nat.

Definition repr_char (quote c : ascii) : string :=
  let n := nat_of_ascii c in
  if (Ascii.eqb c quote || Ascii.eqb c backslash)%bool
  then String backslash (String c EmptyString)
  else if (n =? 9)%nat then String backslash "t"
  else if (n =? 10)%nat then String backslash "n"
  else if (n =? 13)%nat then String backslash "r"
  else if is_printable c then String c EmptyString
  else String backslash
         (String "x" (String (hex_digit (n / 16)) (String (hex_digit (n mod 16)) EmptyString))).

Fixpoint repr_body (quote : ascii) (s : string) : string :=
  match s with
  | EmptyString => EmptyString
  | String c r => repr_char quote c ++ repr_body quote r
  end.

Definition py_repr (s : string) : string :=
  let quote := if (contains quote1 s && negb (contains quote2 s))%bool
               then quote2 else quote1 in
  String quote (repr_body quote s ++ String quote EmptyString).

(** [int(s)] in base ten: white space stripped, an optional sign, digits.
    The error names the argument as it was given ([%.200R]: the first 200
    characters of its [repr]).  A name of a directory entry stays below the
    limit on the number of digits of recent versions (4300). *)
Definition py_int (s : string) : outcome Z :=
  let t := rstrip (lstrip s) in
  let r :=
    match t with
    | String "+" u => parse_unsigned u
    | String "-" u => option_map Z.opp (parse_unsigned u)
    | _ => parse_unsigned t
    end in
  match r with
  | Some z => Return z
  | None => Raise (ValueError ("invalid literal for int() with base 10: "
                               ++ substring 0 200 (py_repr s)))
  end.

Fixpoint zeros (n : nat) : string :=
  match n with
  | O => EmptyString
  | S k => String "0" (zeros k)
  end.

Definition decimal (n : N) : string := NilEmpty.string_of_uint (N.to_uint n).

Definition zfill (width : nat) (s : string) : string :=
  zeros (width - String.length s) ++ s.

(** [f"{z:09d}"]: zero-padded to nine characters, the sign included. *)
Definition format_09d (z : Z) : string :=
  if (z <? 0)%Z then String "-" (zfill 8 (decimal (Z.to_N (- z))))
  else zfill 9 (decimal (Z.to_N z)).

(** [sorted] on integers. *)
Fixpoint insert_sorted (z : Z) (l : list Z) : list Z :=
  match l with
  | [] => [z]
  | h :: t => if (z <=? h)%Z then z :: l else h :: insert_sorted z t
  end.

Fixpoint sorted (l : list Z) : list Z :=
  match l with
  | [] => []
  | h :: t => insert_sorted h (sorted t)
  end.

(** [l[-1]] *)
Definition py_last {A} (l : list A) : outcome A :=
  match rev l with
  | [] => Raise (IndexError "list index out of range")
  | a :: _ => Return a
  end.

(** The generator of line 137, forced in listing order: the first name
    whose step does not parse raises. *)
Fixpoint map_outcome {A B} (f : A -> outcome B) (l : list A) : outcome (list B) :=
  match l with
  | [] => Return []
  | a :: t => obind (f a) (fun b => obind (map_outcome f t) (fun bs => Return (b :: bs)))
  end.

(** [int(x[x.find("-") + 1 : x.find(".")])] *)
Definition step_of_name (x : string) : outcome Z :=
  py_int (py_slice x (py_find "-" x + 1) (py_find "." x)).

(** Line 137. *)
Definition latest_step (listdir : list string) : outcome Z :=
  obind (map_outcome step_of_name listdir) (fun steps => py_last (sorted steps)).

Definition checkpoint_name (step : Z) : string :=
  "step-" ++ format_09d step ++ ".ckpt".

(** Lines 133-139.  [listdir] is the content of [load_dir]; the path
    [load_dir / name] exists exactly when [name] is one of its entries.
    The result and the assertion message carry the file name, without the
    directory in front. *)
Definition resolve_load_path (listdir : list string) (load_step : option Z) : outcome string :=
  obind (match load_step with
         | Some s => Return s
         | None => latest_step listdir
         end) (fun load_step =>
  let load_path := checkpoint_name load_step in
  if existsb (String.eqb load_path) listdir then Return load_path
  else Raise (AssertionError ("Checkpoint " ++ load_path ++ " does not exist"))).

(* ================================================================= *)
(** * The plane fit (lines 195-207) *)

Section PlaneFit.
Context {K : Type} {SK : Scalar K}.

(** [c] is the Python integer [-1]; the other coefficients are floats. *)
Record PlaneEquation : Type := mkPlane {
  plane_a : K;
  plane_b : K;
  plane_c : Z;
  plane_d : K
}.

(** [LinearRegression().fit(X, y)] seen from the script: from the
    features [X] (two columns) and the targets [y] it gives [coef_] (two
    entries) and [intercept_], or raises. *)
Definition regressor : Type :=
  list (K * K) -> list K -> outcome (K * K * K).

(** [world_xyz_np[:, :2]] and [world_xyz_np[:, 2]] *)
Definition columns_xy (world_xyz_np : list (point K)) : list (K * K) :=
  map (fun p : point K => fst p) world_xyz_np.

Definition column_z (world_xyz_np : list (point K)) : list K :=
  map (fun p : point K => snd p) world_xyz_np.

Definition plane_fit (fit : regressor) (world_xyz_np : list (point K))
    : outcome PlaneEquation :=
  obind (fit (columns_xy world_xyz_np) (column_z world_xyz_np)) (fun reg =>
  let '(coef_, intercept_) := reg in
  let '(a, b) := coef_ in
  let d := intercept_ in
  let c := (-1)%Z in
  Return (mkPlane a b c d)).

End PlaneFit.

Arguments PlaneEquation K : clear implicits.
Arguments regressor K : clear implicits.

(** ** Ordinary least squares in exact arithmetic

    The behaviour of scikit-learn's [LinearRegression] with its default
    arguments, as its documentation gives it: the data are centred, the
    coefficients are the minimum-norm least-squares solution for the centred
    data (what [scipy.linalg.lstsq] returns, also when the design is rank
    deficient), and the intercept is [mean(y) - mean(X) . coef_].  An input
    without samples is refused with [ValueError] (the messages are those of
    scikit-learn 1.x).  The arithmetic is exact: the coordinates are
    rationals, so every input is finite (the library refuses NaN and
    infinities) and nothing is rounded. *)

Definition qsum (l : list Qc) : Qc := fold_right Qcplus 0%Qc l.

Definition qlen {A} (l : list A) : Qc := Q2Qc (inject_Z (Z.of_nat (List.length l))).

Definition qmean (l : list Qc) : Qc := (qsum l / qlen l)%Qc.

Definition linear_regression_fit : regressor Qc :=
  fun X y =>
    if Nat.eqb (List.length X) 0 then
      Raise (ValueError "Found array with 0 sample(s) (shape=(0, 2)) while a minimum of 1 is required by LinearRegression.")
    else if negb (Nat.eqb (List.length X) (List.length y)) then
      Raise (ValueError ("Found input variables with inconsistent numbers of samples: ["
                         ++ decimal (N.of_nat (List.length X)) ++ ", "
                         ++ decimal (N.of_nat (List.length y)) ++ "]"))
    else
      let mx := qmean (map fst X) in
      let my := qmean (map snd X) in
      let mz := qmean y in
      let xc := map (fun p => (fst p - mx)%Qc) X in
      let yc := map (fun p => (snd p - my)%Qc) X in
      let zc := map (fun z => (z - mz)%Qc) y in
      let sxx := qsum (zip_with Qcmult xc xc) in
      let sxy := qsum (zip_with Qcmult xc yc) in
      let syy := qsum (zip_with Qcmult yc yc) in
      let sxz := qsum (zip_with Qcmult xc zc) in
      let syz := qsum (zip_with Qcmult yc zc) in
      let det := (sxx * syy - sxy * sxy)%Qc in
      let coef_ :=
        if Qc_eq_dec det 0 then
          if Qc_eq_dec (sxx + syy) 0 then (0, 0)%Qc
          else (sxz / (sxx + syy), syz / (sxx + syy))%Qc
        else ((sxz * syy - syz * sxy) / det, (syz * sxx - sxz * sxy) / det)%Qc in
      let intercept_ := (mz - (fst coef_ * mx + snd coef_ * my))%Qc in
      Return (coef_, intercept_).

(** The sum of squared residuals of [z = a x + b y + d] over the samples,
    and what it means to be a least-squares solution. *)
Definition residual (a b d : Qc) (s : Qc * Qc * Qc) : Qc :=
  (snd s - (a * fst (fst s) + b * snd (fst s) + d))%Qc.

Definition sse (samples : list (Qc * Qc * Qc)) (a b d : Qc) : Qc :=
  qsum (map (fun s => (residual a b d s * residual a b d s)%Qc) samples).

Definition least_squares (samples : list (Qc * Qc * Qc)) (a b d : Qc) : Prop :=
  forall a' b' d', (sse samples a b d <= sse samples a' b' d')%Qc.

(** The design matrix with columns [x], [y], [1] has full column rank: no
    non-trivial combination of its columns vanishes on every sample (the
    [(x, y)] are not all on one line). *)
Definition full_rank (X : list (Qc * Qc)) : Prop :=
  forall al be ga : Qc,
    (forall p, In p X -> (al * fst p + be * snd p + ga)%Qc = 0%Qc) ->
    al = 0%Qc /\ be = 0%Qc /\ ga = 0%Qc.

(** What the script relies on from the regressor: on a design of full rank
    it returns, and what it returns is a least-squares solution. *)
Definition ols_contract (fit : regressor Qc) : Prop :=
  forall X y,
    List.length X = List.length y -> full_rank X ->
    exists a b d, fit X y = Return ((a, b), d) /\ least_squares (combine X y) a b d.

(** The same without the condition on the rank, as the library's solver
    ([scipy.linalg.lstsq]) accepts a design that is rank deficient: on every
    design with at least one sample the regressor returns, and what it
    returns is a least-squares solution. *)
Definition lstsq_contract (fit : regressor Qc) : Prop :=
  forall X y,
    X <> [] -> List.length X = List.length y ->
    exists a b d, fit X y = Return ((a, b), d) /\ least_squares (combine X y) a b d.

(* ================================================================= *)
(** * The estimation job: [plane_estimation] (lines 123-245) *)

Section EstimationJob.
Context {K : Type} {SK : Scalar K}.
Variable Log : Type.

(** What the data manager of the pipeline holds once it is set up. *)
Record DataManager : Type := mkDataManager {
  expanded_cameras : list (Camera K);
  ray_indices : list RayIndex;
  transform_matrix : affine K;
  scale_factor : K;
  vertices : list (point K)
}.

(** The configuration, with what the collaborators (pipeline set-up, file
    system, surface detection) answer for it.  [load_dir] carries the
    listing of the directory; [load_checkpoint] carries whether the file
    exists. *)
Record TrainerConfig : Type := mkTrainerConfig {
  logging : Log;
  load_dir : option (list string);
  load_step : option Z;
  load_checkpoint : option (string * bool);
  datamanager : DataManager;
  surface_detection : list (list K)
}.

Inductive message : Type :=
| Text (s : string)
| VerticesMsg (v : list (point K))
| PlaneMsg (a b : K) (c : Z) (d : K).

(** ["Vertices of bbox\n"] *)
Definition vertices_banner : string :=
  "Vertices of bbox" ++ String (ascii_of_nat 10) EmptyString.

(** What a Python call can hand back: [None], or a plane with the vertex
    set. *)
Inductive py_value : Type :=
| PyNone
| PyPlaneAndVertices (plane : PlaneEquation K) (v : list (point K)).

Definition Job : Type -> Type := M TrainerConfig Log message.

Definition lift {A} (o : outcome A) : Job A :=
  match o with
  | Return a => ret a
  | Raise e => raise e
  end.

Variable fit : regressor K.

(** Lines 130-161.  [TorchLoad p] records the call [torch.load(p)]; the
    call and the reading of the loaded state after it (lines 141-147 and
    152-158) are collaborators of the script and are taken to return. *)
Definition load_checkpoint_state (config : TrainerConfig) : Job unit :=
  match load_dir config with
  | Some listdir =>
      bind (match load_step config with
            | None => emit (StdoutPrint (Text "Loading latest Nerfstudio checkpoint from load_dir..."))
            | Some _ => ret tt
            end) (fun _ =>
      bind (lift (resolve_load_path listdir (load_step config))) (fun load_path =>
      bind (emit (TorchLoad load_path)) (fun _ =>
      emit (ConsolePrint (Text ("Done loading Nerfstudio checkpoint from " ++ load_path))))))
  | None =>
      match load_checkpoint config with
      | Some (path, path_exists) =>
          bind (py_assert path_exists ("Checkpoint " ++ path ++ " does not exist")) (fun _ =>
          bind (emit (TorchLoad path)) (fun _ =>
          emit (ConsolePrint (Text ("Done loading Nerfstudio checkpoint from " ++ path)))))
      | None =>
          emit (ConsolePrint (Text "No Nerfstudio checkpoint to load, so training from scratch."))
      end
  end.

(** Lines 123-245.  The set-up of the pipeline (lines 124-127), the surface
    detection (line 163) and the plotting (lines 214-241, recorded as the
    one event [PlotShow]) are collaborators of the script and are taken to
    return what the configuration holds for them. *)
Definition plane_estimation (config : TrainerConfig) : Job py_value :=
  bind (load_checkpoint_state config) (fun _ =>
  let dm := datamanager config in
  let output := surface_detection config in
  bind (lift (world_points (expanded_cameras dm) output (ray_indices dm)
                           (transform_matrix dm) (scale_factor dm))) (fun world_xyz_np =>
  bind (lift (plane_fit fit world_xyz_np)) (fun plane =>
  let vertices := vertices dm in
  bind (emit (StdoutPrint (Text "Vertices of bbox
"))) (fun _ =>
  bind (emit (StdoutPrint (VerticesMsg vertices))) (fun _ =>
  bind (emit PlotShow) (fun _ =>
  bind (emit (ConsolePrint (PlaneMsg (plane_a plane) (plane_b plane)
                                     (plane_c plane) (plane_d plane)))) (fun _ =>
  ret PyNone))))))).

End EstimationJob.

Arguments DataManager K : clear implicits.
Arguments TrainerConfig K Log : clear implicits.
Arguments message K : clear implicits.
Arguments py_value K : clear implicits.

(* ================================================================= *)
(** * The command-line entry: [main] (lines 246-287) *)

(** [DEFAULT_TIMEOUT = timedelta(minutes=30)], in seconds. *)
Definition DEFAULT_TIMEOUT : Z := 1800.

(** [config.machine] *)
Record MachineConfig : Type := mkMachineConfig {
  num_devices : Z;
  num_machines : Z;
  machine_rank : Z;
  dist_url : string;
  machine_device_type : device_type
}.

(** The configuration as [main] reads and updates it: the aliases [data]
    and [prompt], the path [load_config] with what [yaml.load] gives for the
    text of that file (a configuration, or an exception), the machine
    settings, and the two fields the aliases are copied to,
    [pipeline.datamanager.data] and [pipeline.model.prompt]. *)
#[warnings="-register-all"] Inductive ExperimentConfig : Type :=
| mkExperimentConfig
    (data : option string)
    (prompt : option string)
    (load_config : option (string * outcome ExperimentConfig))
    (machine : MachineConfig)
    (datamanager_data : option string)
    (model_prompt : option string).

Definition data (c : ExperimentConfig) : option string :=
  match c with mkExperimentConfig d _ _ _ _ _ => d end.

Definition prompt (c : ExperimentConfig) : option string :=
  match c with mkExperimentConfig _ p _ _ _ _ => p end.

Definition load_config (c : ExperimentConfig) : option (string * outcome ExperimentConfig) :=
  match c with mkExperimentConfig _ _ l _ _ _ => l end.

Definition machine (c : ExperimentConfig) : MachineConfig :=
  match c with mkExperimentConfig _ _ _ m _ _ => m end.

Definition datamanager_data (c : ExperimentConfig) : option string :=
  match c with mkExperimentConfig _ _ _ _ d _ => d end.

Definition model_prompt (c : ExperimentConfig) : option string :=
  match c with mkExperimentConfig _ _ _ _ _ p => p end.

(** [config.pipeline.datamanager.data = config.data] *)
Definition set_datamanager_data (c : ExperimentConfig) : ExperimentConfig :=
  match c with
  | mkExperimentConfig d p l m _ mp => mkExperimentConfig d p l m d mp
  end.

(** [config.pipeline.model.prompt = config.prompt] *)
Definition set_model_prompt (c : ExperimentConfig) : ExperimentConfig :=
  match c with
  | mkExperimentConfig d p l m dd _ => mkExperimentConfig d p l m dd p
  end.

(** Truth value of an optional path (a path is always true) and of an
    optional string (the empty string is false). *)
Definition path_truthy (p : option string) : bool :=
  match p with Some _ => true | None => false end.

Definition str_truthy (s : option string) : bool :=
  match s with Some (String _ _) => true | _ => false end.

Section Main.
Context {K : Type} {SK : Scalar K}.
Variable Log : Type.
Variable fit : regressor K.

(** What [plane_estimation] finds once the pipeline is set up for a
    configuration: the answers of the collaborators, an input of the
    model. *)
Variable job_of : ExperimentConfig -> TrainerConfig K Log.

(** [CONSOLE.log] is recorded like [CONSOLE.print]. *)
Definition console_log (s : string) : Job (K:=K) Log unit :=
  emit (ConsolePrint (Text s)).

Definition main (config : ExperimentConfig) : Job (K:=K) Log unit :=
  bind (if path_truthy (data config) then
          bind (console_log "Using --data alias for --data.pipeline.datamanager.data")
               (fun _ => ret (set_datamanager_data config))
        else ret config) (fun config =>
  bind (if str_truthy (prompt config) then
          bind (console_log "Using --prompt alias for --data.pipeline.model.prompt")
               (fun _ => ret (set_model_prompt config))
        else ret config) (fun config =>
  bind (match load_config config with
        | Some (path, loaded) =>
            bind (console_log ("Loading pre-set config from: " ++ path))
                 (fun _ => lift loaded)
        | None => ret config
        end) (fun config =>
  launch (@logging K Log) (plane_estimation fit)
         (num_devices (machine config))
         (num_machines (machine config))
         (machine_rank (machine config))
         (dist_url (machine config))
         (Some (job_of config))
         DEFAULT_TIMEOUT
         (machine_device_type (machine config))))).

End Main.

(* ================================================================= *)
(** * Vocabulary of the statements, and inputs for concrete runs *)

(** ** Launcher *)

(** An entry point that fails with an ordinary error, one that is
    interrupted, and one that returns. *)
Definition failing_entry : unit -> M unit unit unit unit :=
  fun _ => raise (RuntimeError "boom").

Definition interrupted_entry : unit -> M unit unit unit unit :=
  fun _ => raise KeyboardInterrupt.

Definition quiet_entry : unit -> M unit unit unit unit :=
  fun _ => ret tt.

(** [launch(main_func, ndpm, num_machines=nm, config=config)] with the
    defaults of the other arguments, run from the empty trace. *)
Definition launch_unit (main_func : unit -> M unit unit unit unit) (ndpm nm : Z)
    : outcome unit * trace unit unit unit :=
  launch (fun c : unit => c) main_func ndpm nm 0 "auto" (Some tt) 1800 cuda [].

(** ** Back-projection in binary32 *)

Definition f32 (z : Z) : binary32 := s_of_Z z.

(** The camera with [fx = fy = 1], [cx = cy = 0] and identity pose. *)
Definition unit_camera32 : Camera binary32 :=
  mkCamera s_one s_one s_zero s_zero identity4.

(** The same camera with [fx = 0]. *)
Definition zero_fx_camera32 : Camera binary32 :=
  mkCamera s_zero s_one s_zero s_zero identity4.

(** One sample: column 2, row 3 (depth 5 in the runs below). *)
Definition one_ray : RayIndex := mkRayIndex [0%Z] [3%Z] [2%Z].

(** ** Back-projection in exact arithmetic *)

Definition qz (z : Z) : Qc := Q2Qc (inject_Z z).

Definition scale_point (s : Qc) (p : point Qc) : point Qc :=
  (s * fst (fst p), s * snd (fst p), s * snd p)%Qc.

(** The unit camera in exact arithmetic. *)
Definition unit_camera : Camera Qc := mkCamera 1%Qc 1%Qc 0%Qc 0%Qc identity4.

(** Two cameras with four samples each. *)
Definition four_rays_a : RayIndex :=
  mkRayIndex [0; 0; 0; 0]%Z [0; 0; 1; 1]%Z [0; 1; 0; 1]%Z.

Definition four_rays_b : RayIndex :=
  mkRayIndex [1; 1; 1; 1]%Z [2; 2; 3; 3]%Z [2; 3; 2; 3]%Z.

Definition four_depths_a : list Qc := [qz 1; qz 2; qz 3; qz 4].
Definition four_depths_b : list Qc := [qz 5; qz 6; qz 7; qz 8].

Definition scale_point32 (s : binary32) (p : point binary32) : point binary32 :=
  (s_mul s (fst (fst p)), s_mul s (snd (fst p)), s_mul s (snd p)).

(** ** Finite numbers of binary32 *)

(** A zero, or a finite number in the canonical form of the format. *)
Definition finite32 (x : binary32) : bool :=
  match x with
  | S754_zero _ => true
  | S754_finite _ m e => bounded 24 128 m e
  | _ => false
  end.

(** A sum of products that is zero comes out as +0. *)
Definition positive_zero (x : binary32) : binary32 :=
  match x with
  | S754_zero _ => S754_zero false
  | _ => x
  end.

Definition neither_inf_nor_nan (x : binary32) : bool :=
  match x with
  | S754_zero _ | S754_finite _ _ _ => true
  | _ => false
  end.

(** What rounding gives: a finite number of the format, or an infinity. *)
Definition rounded32 (x : binary32) : bool :=
  match x with
  | S754_infinity _ => true
  | _ => finite32 x
  end.

Definition canonical32 (m e : Z) : Prop :=
  (0 < m)%Z /\ fexp 24 128 (Zdigits2 m + e) = e.

(** A sample (column, row, depth) whose depth is a finite number and whose
    two products with the depth are neither infinite nor NaN: nothing
    overflows. *)
Definition finite_sample32 (crd : Z * Z * binary32) : bool :=
  (finite32 (snd crd)
   && neither_inf_nor_nan (s_mul (f32 (fst (fst crd))) (snd crd))
   && neither_inf_nor_nan (s_mul (f32 (snd (fst crd))) (snd crd)))%bool.

(** [(col * depth, row * depth, depth)] in binary32. *)
Definition unit_sample32 (crd : Z * Z * binary32) : point binary32 :=
  (positive_zero (s_mul (f32 (fst (fst crd))) (snd crd)),
   positive_zero (s_mul (f32 (snd (fst crd))) (snd crd)),
   positive_zero (snd crd)).

(** ** Checkpoint names *)

Fixpoint all_digits (s : string) : bool :=
  match s with
  | EmptyString => true
  | String c r => is_digit c && all_digits r
  end.

(** The largest element of a non-empty list. *)
Fixpoint list_max (l : list Z) : Z :=
  match l with
  | [] => 0%Z
  | h :: t => match t with [] => h | _ => Z.max h (list_max t) end
  end.

Fixpoint last_opt (l : list Z) : option Z :=
  match l with
  | [] => None
  | h :: t => match t with [] => Some h | _ => last_opt t end
  end.

Fixpoint ascending (l : list Z) : Prop :=
  match l with
  | [] => True
  | h :: t => match t with [] => True | k :: _ => (h <= k)%Z end /\ ascending t
  end.

(** ** Sums over samples *)

Definition sigma {A} (F : A -> Qc) (l : list A) : Qc := qsum (map F l).

Definition feat_x (s : Qc * Qc * Qc) : Qc := fst (fst s).
Definition feat_y (s : Qc * Qc * Qc) : Qc := snd (fst s).
Definition target_z (s : Qc * Qc * Qc) : Qc := snd s.

(** ** Small clouds *)

Definition qpoint (x y z : Z) : point Qc := (qz x, qz y, qz z).

(** Three points of the plane [z = 2x + 3y + 5], not on one line. *)
Definition exact_cloud : list (point Qc) :=
  [qpoint 0 0 5; qpoint 1 0 7; qpoint 0 1 8].

(** Two points, and three points on one line. *)
Definition two_points : list (point Qc) := [qpoint 0 0 5; qpoint 1 1 10].

Definition collinear_cloud : list (point Qc) :=
  [qpoint 0 0 5; qpoint 1 1 10; qpoint 2 2 15].

(** The coefficients of an outcome, as plain rationals. *)
Definition coefficients (o : outcome (PlaneEquation Qc)) : option (Q * Q * Z * Q) :=
  match o with
  | Return p => Some (this (plane_a p), this (plane_b p), plane_c p, this (plane_d p))
  | Raise _ => None
  end.

(** ** The estimation job *)

(** The four reports that end a successful run. *)
Definition final_reports {K Log} (config : TrainerConfig K Log) (plane : PlaneEquation K)
    : trace (TrainerConfig K Log) Log (message K) :=
  [StdoutPrint (Text vertices_banner);
   StdoutPrint (VerticesMsg (vertices (datamanager config)));
   PlotShow;
   ConsolePrint (PlaneMsg (plane_a plane) (plane_b plane) (plane_c plane) (plane_d plane))].

(** One unit camera seeing three pixels at depth 1, no checkpoint, one
    vertex. *)
Definition small_job : TrainerConfig Qc unit :=
  mkTrainerConfig tt None None None
    (mkDataManager [unit_camera]
                   [mkRayIndex [0; 0; 0]%Z [0; 0; 1]%Z [0; 1; 0]%Z]
                   identity4 1%Qc [qpoint 1 1 1])
    [[qz 1; qz 1; qz 1]].

(** ** Vocabulary of the further properties *)

(** How often the profiler was flushed in a trace. *)
Definition flush_calls {Cfg Log Msg} (tr : trace Cfg Log Msg) : nat :=
  List.length (filter (@is_flush Cfg Log Msg) tr).

(** An entry point that records neither calls of itself nor flushes. *)
Definition quiet_about_launch {Cfg Log Msg V} (main_func : Cfg -> M Cfg Log Msg V) : Prop :=
  forall c tr,
    entry_calls (snd (main_func c tr)) = entry_calls tr
    /\ flush_calls (snd (main_func c tr)) = flush_calls tr.

(** A trace without socket events. *)
Definition is_socket_event {Cfg Log Msg} (ev : event Cfg Log Msg) : bool :=
  match ev with
  | SocketCreate | SocketBind _ | SocketClose => true
  | _ => false
  end.

Definition socket_free {Cfg Log Msg} (tr : trace Cfg Log Msg) : Prop :=
  forallb (fun ev => negb (is_socket_event ev)) tr = true.

(** The lengths with which the loop body goes through: the pixel columns
    and the pixel rows each have the length of the depths, or length one. *)
Definition shapes_agree (ncols nrows ndepth : nat) : bool :=
  (Nat.eqb ncols ndepth || Nat.eqb ncols 1) && (Nat.eqb nrows ndepth || Nat.eqb nrows 1).

(** Iteration [i] of the camera loop. *)
Definition camera_outcome {K} {SK : Scalar K}
    (expanded_cameras : list (Camera K)) (output : list (list K))
    (ray_indices : list RayIndex) (transform_matrix : affine K) (scale_factor : K)
    (i : nat) : outcome (list (point K)) :=
  obind (py_index expanded_cameras i) (fun cam =>
  obind (py_index output i) (fun depth =>
  obind (py_index ray_indices i) (fun rays =>
  back_project_camera cam depth rays transform_matrix scale_factor))).

(** A camera with its depth output and ray indices; the three lists of the
    data manager for a list of such views. *)
Definition view (K : Type) : Type := (Camera K * list K * RayIndex)%type.

Definition view_well_shaped {K} (v : view K) : Prop :=
  List.length (ray_col (snd v)) = List.length (snd (fst v))
  /\ List.length (ray_row (snd v)) = List.length (snd (fst v)).

Definition view_points {K} {SK : Scalar K} (T : affine K) (s : K) (v : view K)
    : list (point K) :=
  back_project_samples (fst (fst v)) T s (ray_col (snd v)) (ray_row (snd v)) (snd (fst v)).

(** Two unit cameras with four samples each. *)
Definition two_views : list (view Qc) :=
  [(unit_camera, four_depths_a, four_rays_a); (unit_camera, four_depths_b, four_rays_b)].

(** [Return] mapped through a function, exceptions kept. *)
Definition outcome_map {A B} (g : A -> B) (o : outcome A) : outcome B :=
  match o with
  | Return a => Return (g a)
  | Raise e => Raise e
  end.

(** The paths handed to [torch.load] in a trace. *)
Fixpoint loaded_paths {Cfg Log Msg} (tr : trace Cfg Log Msg) : list string :=
  match tr with
  | [] => []
  | TorchLoad p :: rest => p :: loaded_paths rest
  | _ :: rest => loaded_paths rest
  end.

(** The log lines [main] writes before it launches. *)
Definition alias_logs {K Log} (config : ExperimentConfig)
    : trace (TrainerConfig K Log) Log (message K) :=
  ((if path_truthy (data config)
    then [ConsolePrint (Text "Using --data alias for --data.pipeline.datamanager.data")]
    else [])
   ++ (if str_truthy (prompt config)
       then [ConsolePrint (Text "Using --prompt alias for --data.pipeline.model.prompt")]
       else []))%list.

(** The configuration after the two alias assignments of [main]. *)
Definition with_aliases (config : ExperimentConfig) : ExperimentConfig :=
  let c1 := if path_truthy (data config) then set_datamanager_data config else config in
  if str_truthy (prompt c1) then set_model_prompt c1 else c1.

(** [launch] as [main] calls it: the machine settings of one
    configuration, the job of another. *)
Definition launch_for {K} {SK : Scalar K} {Log} (fit : regressor K)
    (job_of : ExperimentConfig -> TrainerConfig K Log)
    (settings job : ExperimentConfig) : Job (K:=K) Log unit :=
  launch (@logging K Log) (plane_estimation fit)
         (num_devices (machine settings)) (num_machines (machine settings))
         (machine_rank (machine settings)) (dist_url (machine settings))
         (Some (job_of job)) DEFAULT_TIMEOUT
         (machine_device_type (machine settings)).

(** Configurations for concrete runs of [main] and of the checkpoint
    stage. *)
Definition cli_machine (nd nm : Z) : MachineConfig :=
  mkMachineConfig nd nm 0 "auto" cuda.

Definition single_experiment : ExperimentConfig :=
  mkExperimentConfig None None None (cli_machine 1 1) None None.

Definition multi_gpu_experiment : ExperimentConfig :=
  mkExperimentConfig (Some "scene") None None (cli_machine 4 2) None None.

Definition cli_experiment : ExperimentConfig :=
  mkExperimentConfig (Some "scene") (Some "a chair")
                     (Some ("run/config.yml", Return single_experiment))
                     (cli_machine 4 2) None None.

Definition small_job_of (c : ExperimentConfig) : TrainerConfig Qc unit := small_job.

Definition checkpoint_job : TrainerConfig Qc unit :=
  mkTrainerConfig tt (Some ["step-000000010.ckpt"; "step-000000005.ckpt"]) None
                  (Some ("other.ckpt", false))
                  (datamanager small_job) (surface_detection small_job).

Definition missing_checkpoint_job : TrainerConfig Qc unit :=
  mkTrainerConfig tt (Some ["notes.txt"]) (Some 3%Z) None
                  (datamanager small_job) (surface_detection small_job).

(* ================================================================= *)
(** * Properties of [launch] *)

Local Open Scope list_scope.

Section LaunchFacts.
Variables Cfg Log Msg V : Type.
Variable logging_of : Cfg -> Log.

(** Line 109: without a configuration nothing else is looked at. *)
Lemma launch_requires_config (main_func : Cfg -> M Cfg Log Msg V)
    ndpm nm rank url timeout dev tr :
  launch logging_of main_func ndpm nm rank url None timeout dev tr
  = (Raise (AssertionError ""), tr).
Proof. reflexivity. Qed.

(** The single-worker branch, by what the entry point does. *)
Lemma launch_single_worker (main_func : Cfg -> M Cfg Log Msg V)
    ndpm nm rank url config timeout dev tr :
  (nm * ndpm = 1)%Z ->
  launch logging_of main_func ndpm nm rank url (Some config) timeout dev tr
  = match main_func config (tr ++ [CallEntryPoint config]) with
    | (Return _, tr1) =>
        (Return tt, tr1 ++ [FlushProfiler (logging_of config)])
    | (Raise KeyboardInterrupt, tr1) =>
        (Return tt, tr1 ++ [ConsoleTraceback KeyboardInterrupt;
                             FlushProfiler (logging_of config)])
    | (Raise e, tr1) =>
        (Raise e, tr1 ++ [FlushProfiler (logging_of config)])
    end.
Proof.
  intros Hws. unfold launch. rewrite Hws. cbn [Z.eqb Pos.eqb].
  unfold try_except_finally, call_entry_point, bind, emit, ret.
  destruct (main_func config (tr ++ [CallEntryPoint config])) as [[v | e] tr1].
  - reflexivity.
  - destruct e; cbn; try reflexivity.
    rewrite <- app_assoc. reflexivity.
Qed.

(** C1: with a configuration at hand and [num_machines *
    num_devices_per_machine = 0], [launch] raises [ValueError
    "world_size cannot be 0"] (the spec's InvalidConfiguration) and leaves
    the trace as it found it: the entry point is not called, so that a
    run from the empty trace counts zero calls. *)
Theorem launch_zero_world_size (main_func : Cfg -> M Cfg Log Msg V)
    ndpm nm rank url config timeout dev tr :
  (nm * ndpm = 0)%Z ->
  launch logging_of main_func ndpm nm rank url (Some config) timeout dev tr
  = (Raise (ValueError "world_size cannot be 0"), tr)
  /\ entry_calls
       (snd (launch logging_of main_func ndpm nm rank url (Some config) timeout dev [])) = 0.
Proof.
  intros Hws. unfold launch. rewrite Hws. split; reflexivity.
Qed.

(** C2, as the code has it: in the single-worker branch the entry point
    is called once; when it returns, [launch] flushes the profiler and
    returns; when it raises [KeyboardInterrupt], the traceback is printed,
    the profiler is flushed and [launch] returns normally; when it raises
    anything else, no traceback is printed, the profiler is flushed and
    the exception leaves [launch].  On each path the flush is the last
    thing done. *)
Theorem launch_single_worker_paths (main_func : Cfg -> M Cfg Log Msg V)
    ndpm nm rank url config timeout dev tr :
  (nm * ndpm = 1)%Z ->
  let run := main_func config (tr ++ [CallEntryPoint config]) in
  let flush := FlushProfiler (logging_of config) in
  let result := launch logging_of main_func ndpm nm rank url (Some config) timeout dev tr in
  (forall v, fst run = Return v ->
     result = (Return tt, snd run ++ [flush]))
  /\ (fst run = Raise KeyboardInterrupt ->
     result = (Return tt, snd run ++ [ConsoleTraceback KeyboardInterrupt; flush]))
  /\ (forall e, fst run = Raise e -> e <> KeyboardInterrupt ->
     result = (Raise e, snd run ++ [flush]))
  /\ (exists tr', snd result = tr' ++ [flush]).
Proof.
  intros Hws run flush result. subst result.
  rewrite launch_single_worker by assumption.
  fold run. fold flush.
  destruct run as [[v | e] tr1]; cbn [fst snd].
  - split; [intros v' _; reflexivity |].
    split; [discriminate |].
    split; [intros e [=] |].
    exists tr1. reflexivity.
  - split; [intros v [=] |].
    split; [intros [= ->]; reflexivity |].
    split.
    + intros e' [= <-] Hne. destruct e; try reflexivity. contradiction.
    + destruct e;
        first [ exists tr1; reflexivity
              | exists (tr1 ++ [ConsoleTraceback KeyboardInterrupt]);
                rewrite <- app_assoc; reflexivity ].
Qed.

(** C10: with a configuration at hand and a world size above one,
    [launch] returns normally and the trace is untouched: no call of the
    entry point, no socket, no worker, no flush. *)
Theorem launch_multi_worker_ignored (main_func : Cfg -> M Cfg Log Msg V)
    ndpm nm rank url config timeout dev tr :
  (1 < nm * ndpm)%Z ->
  launch logging_of main_func ndpm nm rank url (Some config) timeout dev tr = (Return tt, tr).
Proof.
  intros Hws. unfold launch.
  destruct (Z.eqb_spec (nm * ndpm) 0) as [E | _]; [lia |].
  destruct (Z.eqb_spec (nm * ndpm) 1) as [E | _]; [lia |].
  reflexivity.
Qed.

End LaunchFacts.

Lemma launch_zero_world_size_witness :
  launch_unit quiet_entry 0 1
  = (Raise (ValueError "world_size cannot be 0"), [])
  /\ entry_calls (snd (launch_unit quiet_entry 0 1)) = 0.
Proof.
  exact (@launch_zero_world_size unit unit unit unit (fun c => c) quiet_entry
           0 1 0 "auto" tt 1800 cuda [] eq_refl).
Defined.

(** C2 fails as stated: an entry point raising [RuntimeError] is not
    caught (the error leaves [launch]) and no traceback is printed; only
    the flush happens. *)
Lemma launch_error_not_caught :
  launch_unit failing_entry 1 1
  = (Raise (RuntimeError "boom"), [CallEntryPoint tt; FlushProfiler tt])
  /\ fst (launch_unit failing_entry 1 1) <> Return tt
  /\ filter (@is_traceback unit unit unit) (snd (launch_unit failing_entry 1 1)) = [].
Proof.
  split; [reflexivity | split; [discriminate | reflexivity]].
Qed.

Lemma launch_single_worker_paths_witness :
  launch_unit interrupted_entry 1 1
  = (Return tt, [CallEntryPoint tt; ConsoleTraceback KeyboardInterrupt; FlushProfiler tt]).
Proof.
  exact (proj1 (proj2 (@launch_single_worker_paths unit unit unit unit (fun c => c)
                         interrupted_entry 1 1 0 "auto" tt 1800 cuda [] eq_refl))
               eq_refl).
Defined.

Lemma launch_multi_worker_ignored_witness :
  launch_unit quiet_entry 2 4 = (Return tt, []).
Proof.
  exact (@launch_multi_worker_ignored unit unit unit unit (fun c => c) quiet_entry
           2 4 0 "auto" tt 1800 cuda [] eq_refl).
Defined.

(* ================================================================= *)
(** * Properties of the back-projection *)

Section BackProjectionFacts.
Context {K : Type} {SK : Scalar K}.

Lemma zip_with_length {A B C} (f : A -> B -> C) (a : list A) (b : list B) :
  List.length a = List.length b -> List.length (zip_with f a b) = List.length b.
Proof.
  intros H. unfold zip_with. rewrite length_map, length_combine, H.
  apply Nat.min_id.
Qed.

Lemma combine_map_fst {A B C} (f : A -> B) (a : list A) (c : list C) :
  combine (map f a) c = map (fun p => (f (fst p), snd p)) (combine a c).
Proof.
  revert c. induction a as [| x a IH]; intros [| y c]; try reflexivity.
  cbn. f_equal. apply IH.
Qed.

(** The tensor expressions of the loop body, sample by sample. *)
Lemma stacked_samples (f g : Z -> K -> K) (h : K -> K -> K -> point K)
    (cols rows : list Z) (depth : list K) :
  List.length cols = List.length depth ->
  List.length rows = List.length depth ->
  map (fun xyz => h (fst (fst xyz)) (snd (fst xyz)) (snd xyz))
      (combine (combine (map (fun cd => f (fst cd) (snd cd)) (combine cols depth))
                        (map (fun rd => g (fst rd) (snd rd)) (combine rows depth)))
               depth)
  = map (fun crd => h (f (fst (fst crd)) (snd crd)) (g (snd (fst crd)) (snd crd)) (snd crd))
        (combine (combine cols rows) depth).
Proof.
  revert cols rows.
  induction depth as [| d depth IH]; intros [| c cols] [| r rows] Hc Hr;
    try discriminate; try reflexivity.
  cbn. f_equal. apply IH; cbn in Hc, Hr; congruence.
Qed.

(** With one pixel row, one pixel column and one depth per sample, the
    loop body raises nothing and gives the per-sample points in order. *)
Lemma back_project_camera_samples (cam : Camera K) (depth : list K)
    (cam_idx cols rows : list Z) (T : affine K) (s : K) :
  List.length cols = List.length depth ->
  List.length rows = List.length depth ->
  back_project_camera cam depth (mkRayIndex cam_idx rows cols) T s
  = Return (back_project_samples cam T s cols rows depth).
Proof.
  intros Hc Hr.
  unfold back_project_camera, broadcast2. cbn [ray_row ray_col].
  rewrite !length_map, Hc, Hr, Nat.eqb_refl. cbn [obind].
  unfold stack4.
  rewrite !length_map, !zip_with_length by (rewrite length_map; assumption).
  rewrite Nat.eqb_refl. cbn [andb obind].
  f_equal. unfold back_project_samples, zip_with.
  rewrite !map_map.
  etransitivity;
    [| exact (stacked_samples
                (fun c d => s_div (s_mul (s_sub (s_of_Z c) (cx cam)) d) (fx cam))
                (fun r d => s_div (s_mul (s_sub (s_of_Z r) (cy cam)) d) (fy cam))
                (fun X Y Z =>
                   let w := apply_affine (camera_to_worlds cam) (mkVec4 X Y Z s_one) in
                   let t := apply_affine T (mkVec4 (fst (fst w)) (snd (fst w)) (snd w) s_one) in
                   (s_mul (fst (fst t)) s, s_mul (snd (fst t)) s, s_mul (snd t) s))
                cols rows depth Hc Hr)].
  rewrite !combine_map_fst, !map_map. reflexivity.
Qed.

(** C4, as the code has it: the loop body holds no test of [fx] or [fy].
    For a camera with [fx = 0] or [fy = 0], as for any other, it raises
    nothing and gives one point per sample whenever the rows, the columns
    and the depths have one length: the division is the scalar division of
    the dtype, whatever that gives at zero. *)
Theorem back_project_zero_focal_returns (cam : Camera K) (depth : list K)
    (cam_idx cols rows : list Z) (T : affine K) (s : K) :
  fx cam = s_zero \/ fy cam = s_zero ->
  List.length cols = List.length depth ->
  List.length rows = List.length depth ->
  exists pts,
    back_project_camera cam depth (mkRayIndex cam_idx rows cols) T s = Return pts
    /\ List.length pts = List.length depth.
Proof.
  intros _ Hc Hr. exists (back_project_samples cam T s cols rows depth). split.
  - apply back_project_camera_samples; assumption.
  - unfold back_project_samples. rewrite length_map, !length_combine. lia.
Qed.

Lemma back_project_samples_length (cam : Camera K) (T : affine K) (s : K)
    (cols rows : list Z) (depth : list K) :
  List.length cols = List.length depth ->
  List.length rows = List.length depth ->
  List.length (back_project_samples cam T s cols rows depth) = List.length depth.
Proof.
  intros Hc Hr. unfold back_project_samples.
  rewrite length_map, !length_combine. lia.
Qed.

End BackProjectionFacts.

(** ** Concrete runs in binary32 *)

(** C3 fails as stated: for the sample with column 2, row 3 and depth 5
    the unit camera gives (10, 15, 5), the pixel coordinates multiplied by
    the depth, and not (2, 3, 5). *)
Lemma back_project_unit_camera_scales_by_depth :
  back_project_camera unit_camera32 [f32 5] one_ray identity4 s_one
  = Return [(f32 10, f32 15, f32 5)]
  /\ back_project_camera unit_camera32 [f32 5] one_ray identity4 s_one
     <> Return [(f32 2, f32 3, f32 5)].
Proof.
  split; [vm_compute; reflexivity | vm_compute; discriminate].
Qed.

(** C4 fails as stated: with [fx = 0] the loop body raises nothing; it
    returns a point, whose coordinates are NaN (2 * 5 / 0 is an infinity,
    and the products of the identity matrices with it turn it into NaN). *)
Lemma back_project_zero_fx_returns_nan :
  back_project_camera zero_fx_camera32 [f32 5] one_ray identity4 s_one
  = Return [(S754_nan, S754_nan, S754_nan)]
  /\ forall e, back_project_camera zero_fx_camera32 [f32 5] one_ray identity4 s_one
               <> Raise e.
Proof.
  split; [vm_compute; reflexivity | intros e; vm_compute; discriminate].
Qed.

Lemma back_project_zero_focal_returns_witness :
  exists pts,
    back_project_camera zero_fx_camera32 [f32 5] one_ray identity4 s_one = Return pts
    /\ List.length pts = 1.
Proof.
  exact (@back_project_zero_focal_returns binary32 binary32_scalar zero_fx_camera32
           [f32 5] [0%Z] [2%Z] [3%Z] identity4 s_one
           (or_introl eq_refl) eq_refl eq_refl).
Defined.

(** ** The unit camera in binary32

    A product that does not overflow is a finite number of the format;
    multiplying and dividing such a number by one round nothing, and the
    rows of the identity matrix pick one entry each. *)

Local Open Scope Z_scope.
Unset Implicit Arguments.

(** ** Digits *)

Lemma digits2_pos_bounds (p : positive) :
  2 ^ (Zpos (digits2_pos p) - 1) <= Zpos p < 2 ^ Zpos (digits2_pos p).
Proof.
  induction p as [p IH | p IH |]; cbn [digits2_pos].
  - rewrite Pos2Z.inj_succ.
    replace (Z.succ (Zpos (digits2_pos p)) - 1) with (Z.succ (Zpos (digits2_pos p) - 1)) by lia.
    rewrite !Z.pow_succ_r by lia. lia.
  - rewrite Pos2Z.inj_succ.
    replace (Z.succ (Zpos (digits2_pos p)) - 1) with (Z.succ (Zpos (digits2_pos p) - 1)) by lia.
    rewrite !Z.pow_succ_r by lia. lia.
  - cbn. lia.
Qed.

Lemma Zdigits2_bounds (m : Z) :
  0 < m -> 2 ^ (Zdigits2 m - 1) <= m < 2 ^ Zdigits2 m.
Proof.
  destruct m as [| p | p]; try lia. intros _. apply digits2_pos_bounds.
Qed.

Lemma Zdigits2_pos (m : Z) : 0 < m -> 0 < Zdigits2 m.
Proof. destruct m; cbn; lia. Qed.

Lemma Zdigits2_unique (m k : Z) :
  0 < k -> 2 ^ (k - 1) <= m < 2 ^ k -> Zdigits2 m = k.
Proof.
  intros Hk [Hlo Hhi].
  assert (Hm : 0 < m).
  { apply Z.lt_le_trans with (2 ^ (k - 1)); [apply Z.pow_pos_nonneg; lia | exact Hlo]. }
  pose proof (Zdigits2_bounds m Hm) as [Dlo Dhi].
  pose proof (Zdigits2_pos m Hm) as Dpos.
  destruct (Z.lt_trichotomy (Zdigits2 m) k) as [L | [E | G]]; [| exact E |].
  - assert (2 ^ Zdigits2 m <= 2 ^ (k - 1)) by (apply Z.pow_le_mono_r; lia). lia.
  - assert (2 ^ k <= 2 ^ (Zdigits2 m - 1)) by (apply Z.pow_le_mono_r; lia). lia.
Qed.

Lemma Zdigits2_shift (m n : Z) :
  0 < m -> 0 <= n < Zdigits2 m -> 
  0 < m / 2 ^ n /\ Zdigits2 (m / 2 ^ n) = Zdigits2 m - n.
Proof.
  intros Hm Hn. pose proof (Zdigits2_bounds m Hm) as [Dlo Dhi].
  assert (P : 0 < 2 ^ n) by (apply Z.pow_pos_nonneg; lia).
  assert (Lo : 2 ^ (Zdigits2 m - n - 1) <= m / 2 ^ n).
  { apply Z.div_le_lower_bound; [exact P |].
    rewrite <- Z.pow_add_r by lia.
    replace (n + (Zdigits2 m - n - 1)) with (Zdigits2 m - 1) by lia. exact Dlo. }
  assert (Hi : m / 2 ^ n < 2 ^ (Zdigits2 m - n)).
  { apply Z.div_lt_upper_bound; [exact P |].
    rewrite <- Z.pow_add_r by lia.
    replace (n + (Zdigits2 m - n)) with (Zdigits2 m) by lia. exact Dhi. }
  assert (Q : 0 < 2 ^ (Zdigits2 m - n - 1)) by (apply Z.pow_pos_nonneg; lia).
  split; [lia |].
  apply Zdigits2_unique; [lia | split; assumption].
Qed.

Lemma Zdigits2_shift_out (m n : Z) :
  0 < m -> Zdigits2 m <= n -> m / 2 ^ n = 0.
Proof.
  intros Hm Hn. pose proof (Zdigits2_bounds m Hm) as [Dlo Dhi].
  pose proof (Zdigits2_pos m Hm).
  apply Z.div_small. split; [lia |].
  apply Z.lt_le_trans with (2 ^ Zdigits2 m); [exact Dhi |].
  apply Z.pow_le_mono_r; lia.
Qed.

Lemma Zdigits2_succ (m : Z) :
  0 < m ->
  Zdigits2 (m + 1) = Zdigits2 m
  \/ (m + 1 = 2 ^ Zdigits2 m /\ Zdigits2 (m + 1) = Zdigits2 m + 1).
Proof.
  intros Hm. pose proof (Zdigits2_bounds m Hm) as [Dlo Dhi].
  pose proof (Zdigits2_pos m Hm) as Dpos.
  destruct (Z.eq_dec (m + 1) (2 ^ Zdigits2 m)) as [E | N].
  - right. split; [exact E |].
    apply Zdigits2_unique; [lia |].
    replace (Zdigits2 m + 1 - 1) with (Zdigits2 m) by lia. split; [lia |].
    rewrite Z.pow_add_r by lia. change (2 ^ 1) with 2. lia.
  - left. apply Zdigits2_unique; [lia |]. lia.
Qed.

Lemma Zdigits2_mul (a b : Z) :
  0 < a -> 0 < b -> Zdigits2 a + Zdigits2 b - 1 <= Zdigits2 (a * b).
Proof.
  intros Ha Hb.
  pose proof (Zdigits2_bounds a Ha) as [Alo Ahi].
  pose proof (Zdigits2_bounds b Hb) as [Blo Bhi].
  pose proof (Zdigits2_pos a Ha). pose proof (Zdigits2_pos b Hb).
  assert (Hab : 0 < a * b) by lia.
  pose proof (Zdigits2_bounds (a * b) Hab) as [Plo Phi].
  pose proof (Zdigits2_pos (a * b) Hab).
  destruct (Z.le_gt_cases (Zdigits2 a + Zdigits2 b - 1) (Zdigits2 (a * b))) as [L | G];
    [exact L |].
  assert (E : 2 ^ Zdigits2 (a * b) <= 2 ^ (Zdigits2 a - 1 + (Zdigits2 b - 1)))
    by (apply Z.pow_le_mono_r; lia).
  rewrite Z.pow_add_r in E by lia.
  assert (2 ^ (Zdigits2 a - 1) * 2 ^ (Zdigits2 b - 1) <= a * b).
  { apply Z.mul_le_mono_nonneg; try assumption; apply Z.pow_nonneg; lia. }
  lia.
Qed.

(** ** Shifting to the right *)

Lemma shr_1_m (mrs : shr_record) :
  0 <= shr_m mrs -> shr_m (shr_1 mrs) = shr_m mrs / 2.
Proof.
  destruct mrs as [m r s]. cbn [shr_m]. intros Hm.
  destruct m as [| p | p]; [reflexivity | | lia].
  destruct p as [p | p |]; cbn [shr_1 shr_m].
  - rewrite Pos2Z.inj_xI. apply Z.div_unique with 1; lia.
  - rewrite Pos2Z.inj_xO. apply Z.div_unique with 0; lia.
  - reflexivity.
Qed.

Lemma iter_shr_1_m (p : positive) (mrs : shr_record) :
  0 <= shr_m mrs -> shr_m (iter_pos shr_1 p mrs) = shr_m mrs / 2 ^ Zpos p.
Proof.
  revert mrs. induction p as [p IH | p IH |]; intros mrs Hm; cbn [iter_pos].
  - assert (H1 : 0 <= shr_m (shr_1 mrs)).
    { rewrite shr_1_m by exact Hm. apply Z.div_pos; lia. }
    assert (H2 : 0 <= shr_m (iter_pos shr_1 p (shr_1 mrs))).
    { rewrite IH by exact H1. apply Z.div_pos; [exact H1 | apply Z.pow_pos_nonneg; lia]. }
    rewrite IH by exact H2. rewrite IH by exact H1. rewrite shr_1_m by exact Hm.
    rewrite !Z.div_div by (try apply Z.pow_pos_nonneg; lia).
    f_equal. replace (Zpos p~1) with (1 + Zpos p + Zpos p) by lia.
    rewrite !Z.pow_add_r by lia. change (2 ^ 1) with 2. lia.
  - assert (H2 : 0 <= shr_m (iter_pos shr_1 p mrs)).
    { rewrite IH by exact Hm. apply Z.div_pos; [exact Hm | apply Z.pow_pos_nonneg; lia]. }
    rewrite IH by exact H2. rewrite IH by exact Hm.
    rewrite !Z.div_div by (try apply Z.pow_pos_nonneg; lia).
    f_equal. replace (Zpos p~0) with (Zpos p + Zpos p) by lia.
    rewrite !Z.pow_add_r by lia. reflexivity.
  - rewrite shr_1_m by exact Hm. reflexivity.
Qed.

Lemma shr_record_of_loc_m (m : Z) (l : location) : shr_m (shr_record_of_loc m l) = m.
Proof. destruct l as [| []]; reflexivity. Qed.

(** What [shr_fexp] leaves: the mantissa divided by the power of two that
    brings the exponent up to [fexp]. *)
Lemma shr_fexp_spec (m e : Z) (l : location) :
  0 <= m ->
  let n := fexp 24 128 (Zdigits2 m + e) - e in
  shr_m (fst (shr_fexp 24 128 m e l)) = (if 0 <? n then m / 2 ^ n else m)
  /\ snd (shr_fexp 24 128 m e l) = (if 0 <? n then e + n else e).
Proof.
  intros Hm n. unfold shr_fexp. fold n.
  destruct n as [| p | p]; cbn [shr fst snd Z.ltb Z.compare].
  - split; [apply shr_record_of_loc_m | reflexivity].
  - split; [| reflexivity].
    rewrite iter_shr_1_m by (rewrite shr_record_of_loc_m; exact Hm).
    rewrite shr_record_of_loc_m. reflexivity.
  - split; [apply shr_record_of_loc_m | reflexivity].
Qed.

Lemma round_nearest_even_cases (m : Z) (l : location) :
  round_nearest_even m l = m \/ round_nearest_even m l = m + 1.
Proof.
  destruct l as [| []]; cbn [round_nearest_even]; auto.
  destruct (Z.even m); auto.
Qed.

(** ** Rounding gives a number of the format *)

Lemma fexp_eq (e : Z) : fexp 24 128 e = Z.max (e - 24) (-149).
Proof. reflexivity. Qed.

(** The second pass of [binary_round_aux], on a mantissa that is zero or
    canonical, or one above a canonical one. *)
Lemma second_pass_valid (sx : bool) (m e : Z) :
  -149 <= e ->
  m = 0 \/ canonical32 m e
  \/ (m = 2 ^ Zdigits2 (m - 1) /\ canonical32 (m - 1) e) ->
  rounded32
    (let '(mrs, e') := shr_fexp 24 128 m e loc_Exact in
     match shr_m mrs with
     | Z0 => S754_zero sx
     | Zpos m' => if e' <=? 128 - 24 then S754_finite sx m' e' else S754_infinity sx
     | Zneg _ => S754_nan
     end) = true.
Proof.
  intros He H.
  assert (Hm : 0 <= m).
  { destruct H as [-> | [[H _] | [_ [H _]]]]; lia. }
  pose proof (shr_fexp_spec m e loc_Exact Hm) as [Sm Se]. cbv zeta in Sm, Se.
  destruct (shr_fexp 24 128 m e loc_Exact) as [mrs e']. cbn [fst snd] in Sm, Se.
  rewrite Sm, Se. clear Sm Se mrs e'.
  rewrite fexp_eq.
  destruct H as [-> | [[Hpos Hc] | [Hpow [Hpos Hc]]]].
  - cbn [Zdigits2]. replace (0 <? Z.max (0 + e - 24) (-149) - e) with false
      by (symmetry; apply Z.ltb_ge; lia).
    reflexivity.
  - rewrite fexp_eq in Hc. rewrite Hc, Z.sub_diag. cbn [Z.ltb Z.compare].
    destruct m as [| p | p]; try lia.
    destruct (e <=? 128 - 24) eqn:E; [| reflexivity].
    cbn [rounded32 finite32]. unfold bounded, canonical_mantissa.
    rewrite fexp_eq. cbn [Zdigits2] in Hc. rewrite Hc, Z.eqb_refl, E. reflexivity.
  - rewrite fexp_eq in Hc.
    pose proof (Zdigits2_pos (m - 1) Hpos) as Dpos.
    assert (Dm : Zdigits2 m = Zdigits2 (m - 1) + 1).
    { destruct (Zdigits2_succ (m - 1) Hpos) as [E | [_ E]];
        replace (m - 1 + 1) with m in E by lia.
      - pose proof (Zdigits2_bounds m ltac:(lia)) as [_ Hhi]. rewrite E in Hhi. lia.
      - exact E. }
    rewrite Dm.
    destruct (Z.eq_dec (Zdigits2 (m - 1)) 24) as [D24 | DN].
    + (* the mantissa has grown to 25 digits: one more shift *)
      replace (Z.max (Zdigits2 (m - 1) + 1 + e - 24) (-149) - e) with 1 by lia.
      cbn [Z.ltb Z.compare]. change (2 ^ 1) with 2.
      rewrite Hpow, D24. change (2 ^ 24 / 2) with 8388608.
      destruct (e + 1 <=? 128 - 24) eqn:E; [| reflexivity].
      cbn [rounded32 finite32]. unfold bounded, canonical_mantissa. rewrite E, fexp_eq.
      change (Z.pos (digits2_pos 8388608)) with 24.
      replace (Z.max (24 + (e + 1) - 24) (-149)) with (e + 1) by lia.
      rewrite Z.eqb_refl. reflexivity.
    + replace (Z.max (Zdigits2 (m - 1) + 1 + e - 24) (-149) - e) with 0 by lia.
      cbn [Z.ltb Z.compare].
      destruct m as [| p | p]; try lia.
      destruct (e <=? 128 - 24) eqn:E; [| reflexivity].
      cbn [rounded32 finite32]. unfold bounded, canonical_mantissa. rewrite E, fexp_eq.
      cbn [Zdigits2] in Dm. rewrite Dm.
      replace (Z.max (Zdigits2 (Z.pos p - 1) + 1 + e - 24) (-149)) with e by lia.
      rewrite Z.eqb_refl. reflexivity.
Qed.

(** Rounding a positive mantissa that has digits enough gives a zero, an
    infinity or a canonical finite number. *)
Lemma binary_round_aux_valid (sx : bool) (mx ex : Z) (lx : location) :
  0 < mx -> ex <= fexp 24 128 (Zdigits2 mx + ex) ->
  rounded32 (binary_round_aux 24 128 sx mx ex lx) = true.
Proof.
  intros Hm Hn. unfold binary_round_aux.
  pose proof (shr_fexp_spec mx ex lx ltac:(lia)) as [Sm Se]. cbv zeta in Sm, Se.
  destruct (shr_fexp 24 128 mx ex lx) as [mrs e1]. cbn [fst snd] in Sm, Se.
  set (m1 := shr_m mrs) in *.
  pose proof (round_nearest_even_cases m1 (loc_of_shr_record mrs)) as Hr.
  set (m2 := round_nearest_even m1 (loc_of_shr_record mrs)) in *.
  clearbody m1 m2. clear mrs.
  pose proof (Zdigits2_pos mx Hm) as Dpos.
  rewrite fexp_eq in Hn, Sm, Se.
  set (D := Zdigits2 mx) in *.
  assert (He1 : e1 = Z.max (D + ex - 24) (-149)).
  { destruct (0 <? Z.max (D + ex - 24) (-149) - ex) eqn:L; [lia |].
    apply Z.ltb_ge in L. lia. }
  assert (H1 : m1 = 0 /\ e1 = -149 \/ canonical32 m1 e1).
  { destruct (0 <? Z.max (D + ex - 24) (-149) - ex) eqn:L.
    - apply Z.ltb_lt in L.
      destruct (Z.lt_ge_cases (Z.max (D + ex - 24) (-149) - ex) D) as [Lt | Ge].
      + right. destruct (Zdigits2_shift mx (Z.max (D + ex - 24) (-149) - ex) Hm) as [P Dg].
        { fold D. lia. }
        rewrite <- Sm in P, Dg. split; [exact P |].
        rewrite fexp_eq, Dg. fold D. lia.
      + left. split; [| lia].
        rewrite Sm. apply Zdigits2_shift_out; [exact Hm | fold D; lia].
    - apply Z.ltb_ge in L. right. subst m1. split; [exact Hm |].
      rewrite fexp_eq. fold D. lia. }
  apply second_pass_valid; [lia |].
  destruct H1 as [[Z1 E1] | C1].
  - destruct Hr as [-> | ->]; [left; exact Z1 |].
    right. left. rewrite Z1. split; [lia |]. rewrite E1. reflexivity.
  - destruct Hr as [-> | ->]; [right; left; exact C1 |].
    destruct C1 as [P1 C1].
    destruct (Zdigits2_succ m1 P1) as [E | [Epow E]].
    + right. left. split; [lia |]. rewrite E. exact C1.
    + right. right. replace (m1 + 1 - 1) with m1 by lia.
      split; [exact Epow | split; assumption].
Qed.

(** ** The product of two numbers of the format *)

Lemma bounded_canonical32 (m : positive) (e : Z) :
  bounded 24 128 m e = true -> canonical32 (Zpos m) e /\ e <= 104.
Proof.
  unfold bounded, canonical_mantissa. intros H.
  apply andb_prop in H as [H1 H2].
  apply Z.eqb_eq in H1. apply Z.leb_le in H2.
  split; [split; [lia | exact H1] | exact H2].
Qed.

Lemma SFmul_rounded (x y : spec_float) :
  finite32 x = true -> finite32 y = true ->
  rounded32 (SFmul 24 128 x y) = true.
Proof.
  destruct x as [sx | sx | | sx mx ex], y as [sy | sy | | sy my ey];
    cbn [finite32]; intros Hx Hy; try discriminate; try reflexivity.
  unfold SFmul.
  destruct (bounded_canonical32 mx ex Hx) as [[_ Cx] _].
  destruct (bounded_canonical32 my ey Hy) as [[_ Cy] _].
  apply binary_round_aux_valid; [lia |].
  rewrite fexp_eq in *.
  pose proof (Zdigits2_mul (Zpos mx) (Zpos my) ltac:(lia) ltac:(lia)) as Hd.
  pose proof (Zdigits2_pos (Zpos mx) ltac:(lia)).
  pose proof (Zdigits2_pos (Zpos my) ltac:(lia)).
  change (Z.pos (mx * my)) with (Zpos mx * Zpos my). lia.
Qed.


(** A product that is neither an infinity nor NaN is a finite number of the
    format. *)
Lemma SFmul_finite (x y : spec_float) :
  rounded32 x = true -> finite32 y = true ->
  neither_inf_nor_nan (SFmul 24 128 x y) = true ->
  finite32 (SFmul 24 128 x y) = true.
Proof.
  intros Hx Hy Hf.
  assert (R : rounded32 (SFmul 24 128 x y) = true).
  { destruct x as [sx | sx | | sx mx ex].
    - apply SFmul_rounded; [reflexivity | exact Hy].
    - destruct y; try discriminate Hy; try discriminate Hf; reflexivity.
    - discriminate Hx.
    - apply SFmul_rounded; [exact Hx | exact Hy]. }
  destruct (SFmul 24 128 x y); try discriminate Hf; exact R.
Qed.

(** ** The conversion of an integer *)

Lemma digits2_pos_iter_xO (m d : positive) :
  Zpos (digits2_pos (Pos.iter xO m d)) = Zpos (digits2_pos m) + Zpos d.
Proof.
  induction d as [| d IH] using Pos.peano_ind.
  - cbn [Pos.iter digits2_pos]. lia.
  - rewrite Pos.iter_succ. cbn [digits2_pos]. lia.
Qed.

Lemma binary_round_rounded (sx : bool) (m : positive) :
  rounded32 (binary_round 24 128 sx m 0) = true.
Proof.
  unfold binary_round, shl_align.
  destruct (fexp 24 128 (Zpos (digits2_pos m) + 0) - 0) as [| d | d] eqn:E.
  - apply binary_round_aux_valid; [lia |]. cbn [Zdigits2]. lia.
  - apply binary_round_aux_valid; [lia |]. cbn [Zdigits2]. lia.
  - apply binary_round_aux_valid; [lia |]. cbn [Zdigits2].
    rewrite digits2_pos_iter_xO. rewrite !fexp_eq in *. lia.
Qed.

Lemma binary_normalize_rounded (z : Z) :
  rounded32 (binary_normalize 24 128 z 0 false) = true.
Proof.
  destruct z as [| m | m]; [reflexivity | |]; apply binary_round_rounded.
Qed.

(** ** Exact operations *)

Lemma bounded_canonical (m : positive) (e : Z) :
  bounded 24 128 m e = true ->
  fexp 24 128 (Zpos (digits2_pos m) + e) = e /\ e <= 104.
Proof.
  unfold bounded, canonical_mantissa. intros H.
  apply andb_prop in H as [H1 H2].
  apply Z.eqb_eq in H1. apply Z.leb_le in H2. split; [exact H1 | exact H2].
Qed.

(** Rounding a mantissa that is already canonical changes nothing. *)
Lemma binary_round_aux_canonical (sx : bool) (m : positive) (e : Z) :
  bounded 24 128 m e = true ->
  binary_round_aux 24 128 sx (Zpos m) e loc_Exact = S754_finite sx m e.
Proof.
  intros H. destruct (bounded_canonical m e H) as [Hc He].
  unfold binary_round_aux, shr_fexp.
  cbn [Zdigits2 shr_record_of_loc]. rewrite Hc, Z.sub_diag.
  cbn [shr shr_m loc_of_shr_record round_nearest_even Zdigits2 shr_record_of_loc].
  rewrite Hc, Z.sub_diag. cbn [shr shr_m].
  replace (e <=? 128 - 24) with true by (symmetry; apply Z.leb_le; lia).
  reflexivity.
Qed.

Lemma binary_round_aux_double (sx : bool) (m : positive) (e : Z) :
  bounded 24 128 m e = true ->
  binary_round_aux 24 128 sx (Zpos m~0) (e - 1) loc_Exact = S754_finite sx m e.
Proof.
  intros H. destruct (bounded_canonical m e H) as [Hc He].
  unfold binary_round_aux, shr_fexp.
  cbn [Zdigits2 shr_record_of_loc digits2_pos].
  replace (Z.pos (Pos.succ (digits2_pos m)) + (e - 1)) with (Z.pos (digits2_pos m) + e) by lia.
  rewrite Hc. replace (e - (e - 1)) with 1 by lia.
  cbn [shr iter_pos shr_1 shr_m shr_r shr_s orb loc_of_shr_record round_nearest_even
       Zdigits2 shr_record_of_loc].
  replace (e - 1 + 1) with e by lia.
  rewrite Hc, Z.sub_diag. cbn [shr shr_m].
  replace (e <=? 128 - 24) with true by (symmetry; apply Z.leb_le; lia).
  reflexivity.
Qed.

Lemma digits2_pos_shift23 (m : positive) :
  Zpos (digits2_pos (Pos.mul 8388608 m)) = Zpos (digits2_pos m) + 23.
Proof.
  cbn [Pos.mul digits2_pos]. rewrite !Pos2Z.inj_succ. lia.
Qed.

Lemma binary_round_aux_shift23 (sx : bool) (m : positive) (e : Z) :
  bounded 24 128 m e = true ->
  binary_round_aux 24 128 sx (Zpos (Pos.mul 8388608 m)) (-23 + e) loc_Exact
  = S754_finite sx m e.
Proof.
  intros H. destruct (bounded_canonical m e H) as [Hc He].
  unfold binary_round_aux, shr_fexp.
  cbn [Zdigits2 shr_record_of_loc]. rewrite digits2_pos_shift23.
  replace (Z.pos (digits2_pos m) + 23 + (-23 + e)) with (Z.pos (digits2_pos m) + e) by lia.
  rewrite Hc. replace (e - (-23 + e)) with 23 by lia.
  cbn [Pos.mul shr iter_pos shr_1 shr_m shr_r shr_s orb loc_of_shr_record round_nearest_even
       Zdigits2 shr_record_of_loc].
  replace (-23 + e + 23) with e by lia.
  rewrite Hc, Z.sub_diag. cbn [shr shr_m].
  replace (e <=? 128 - 24) with true by (symmetry; apply Z.leb_le; lia).
  reflexivity.
Qed.

Lemma SFmul_one_l (x : spec_float) :
  finite32 x = true -> SFmul 24 128 (SFone 24 128) x = x.
Proof.
  destruct x as [s | s | | s m e]; cbn [finite32]; intros H; try discriminate H.
  - reflexivity.
  - change (SFmul 24 128 (SFone 24 128) (S754_finite s m e))
      with (binary_round_aux 24 128 s (Zpos (Pos.mul 8388608 m)) (-23 + e) loc_Exact).
    apply binary_round_aux_shift23, H.
Qed.

Lemma SFmul_one_r (x : spec_float) :
  finite32 x = true -> SFmul 24 128 x (SFone 24 128) = x.
Proof.
  destruct x as [s | s | | s m e]; cbn [finite32]; intros H; try discriminate H.
  - cbn. rewrite xorb_false_r. reflexivity.
  - change (SFmul 24 128 (S754_finite s m e) (SFone 24 128))
      with (binary_round_aux 24 128 (xorb s false) (Zpos (Pos.mul m 8388608)) (e + -23) loc_Exact).
    rewrite xorb_false_r, Pos.mul_comm, Z.add_comm.
    apply binary_round_aux_shift23, H.
Qed.

Lemma div_eucl_exact (a b : Z) : 0 < b -> Z.div_eucl (a * b) b = (a, 0).
Proof.
  intros Hb.
  pose proof (Z.div_mul a b ltac:(lia)) as Hq.
  pose proof (Z.mod_mul a b ltac:(lia)) as Hr.
  unfold Z.div, Z.modulo in Hq, Hr.
  destruct (Z.div_eucl (a * b) b) as [q r]. cbn in Hq, Hr. subst. reflexivity.
Qed.

Lemma SFdiv_core_one (m : positive) (e : Z) :
  bounded 24 128 m e = true ->
  SFdiv_core_binary 24 128 (Zpos m) e 8388608 (-23) = (Zpos m, e, loc_Exact)
  \/ SFdiv_core_binary 24 128 (Zpos m) e 8388608 (-23) = (Zpos m~0, e - 1, loc_Exact).
Proof.
  intros H. destruct (bounded_canonical m e H) as [Hc He].
  unfold SFdiv_core_binary. cbn [Zdigits2 digits2_pos].
  change (Z.pos (Pos.succ (Pos.succ (Pos.succ (Pos.succ (Pos.succ (Pos.succ (Pos.succ (Pos.succ (Pos.succ (Pos.succ (Pos.succ (Pos.succ (Pos.succ (Pos.succ (Pos.succ (Pos.succ (Pos.succ (Pos.succ (Pos.succ (Pos.succ (Pos.succ (Pos.succ (Pos.succ 1)))))))))))))))))))))))) with 24.
  set (D := Z.pos (digits2_pos m)) in *.
  assert (HD : 0 < D) by (unfold D; lia).
  unfold fexp, emin in Hc |- *.
  destruct (Z.eq_dec D 24) as [E24 | N24].
  - destruct (Z.eq_dec e (-149)) as [Ee | Ne].
    + left.
      replace (Z.min (Z.max (D + e - (24 + -23) - 24) (3 - 128 - 24)) (e - -23)) with e by lia.
      replace (e - -23 - e) with 23 by lia.
      rewrite Z.shiftl_mul_pow2 by lia. change (2 ^ 23) with 8388608.
      rewrite div_eucl_exact by lia. reflexivity.
    + right.
      replace (Z.min (Z.max (D + e - (24 + -23) - 24) (3 - 128 - 24)) (e - -23)) with (e - 1) by lia.
      replace (e - -23 - (e - 1)) with 24 by lia.
      rewrite Z.shiftl_mul_pow2 by lia. change (2 ^ 24) with (2 * 8388608).
      rewrite Z.mul_assoc, div_eucl_exact by lia.
      rewrite Z.mul_comm. reflexivity.
  - left.
    replace (Z.min (Z.max (D + e - (24 + -23) - 24) (3 - 128 - 24)) (e - -23)) with e by lia.
    replace (e - -23 - e) with 23 by lia.
    rewrite Z.shiftl_mul_pow2 by lia. change (2 ^ 23) with 8388608.
    rewrite div_eucl_exact by lia. reflexivity.
Qed.

Lemma SFdiv_one_r (x : spec_float) :
  finite32 x = true -> SFdiv 24 128 x (SFone 24 128) = x.
Proof.
  destruct x as [s | s | | s m e]; cbn [finite32]; intros H; try discriminate H.
  - cbn. rewrite xorb_false_r. reflexivity.
  - change (SFone 24 128) with (S754_finite false 8388608 (-23)).
    unfold SFdiv.
    destruct (SFdiv_core_one m e H) as [E | E]; rewrite E, xorb_false_r.
    + apply binary_round_aux_canonical, H.
    + apply binary_round_aux_double, H.
Qed.

Lemma SFsub_zero_r (x : binary32) : SFsub 24 128 x (S754_zero false) = x.
Proof. destruct x as [[|] | [|] | | s m e]; reflexivity. Qed.

Lemma SFmul_zero_l (x : binary32) :
  finite32 x = true -> exists s, SFmul 24 128 (S754_zero false) x = S754_zero s.
Proof.
  destruct x as [s | s | | s m e]; cbn [finite32]; intros H; try discriminate H;
    eexists; reflexivity.
Qed.

Lemma SFadd_zero_l (x : binary32) :
  finite32 x = true -> SFadd 24 128 (S754_zero false) x = positive_zero x.
Proof.
  destruct x as [[|] | s | | s m e]; cbn [finite32]; intros H; try discriminate H;
    reflexivity.
Qed.

Lemma SFadd_zero_r (x : binary32) (s : bool) :
  finite32 x = true ->
  SFadd 24 128 (positive_zero x) (S754_zero s) = positive_zero x.
Proof.
  destruct x as [sx | sx | | sx m e]; cbn [finite32]; intros H; try discriminate H.
  - destruct s; reflexivity.
  - reflexivity.
Qed.

Lemma finite32_positive_zero (x : binary32) :
  finite32 x = true -> finite32 (positive_zero x) = true.
Proof. destruct x; intros H; try discriminate H; [reflexivity | exact H]. Qed.

Lemma positive_zero_idem (x : binary32) :
  positive_zero (positive_zero x) = positive_zero x.
Proof. destruct x; reflexivity. Qed.

Lemma finite32_one : finite32 (SFone 24 128) = true.
Proof. reflexivity. Qed.

Section IdentityRows.
Variables a b c : binary32.
Hypothesis Ha : finite32 a = true.
Hypothesis Hb : finite32 b = true.
Hypothesis Hc : finite32 c = true.

Lemma dot4_row0 :
  dot4 (mkVec4 s_one s_zero s_zero s_zero) (mkVec4 a b c s_one) = positive_zero a.
Proof.
  unfold dot4. cbn [v0 v1 v2 v3 s_add s_mul s_zero s_one binary32_scalar].
  destruct (SFmul_zero_l b Hb) as [sb ->].
  destruct (SFmul_zero_l c Hc) as [sc ->].
  destruct (SFmul_zero_l (SFone 24 128) finite32_one) as [s1 ->].
  rewrite (SFmul_one_l a Ha), (SFadd_zero_l a Ha), !(SFadd_zero_r a _ Ha).
  reflexivity.
Qed.

Lemma dot4_row1 :
  dot4 (mkVec4 s_zero s_one s_zero s_zero) (mkVec4 a b c s_one) = positive_zero b.
Proof.
  unfold dot4. cbn [v0 v1 v2 v3 s_add s_mul s_zero s_one binary32_scalar].
  destruct (SFmul_zero_l a Ha) as [sa ->].
  destruct (SFmul_zero_l c Hc) as [sc ->].
  destruct (SFmul_zero_l (SFone 24 128) finite32_one) as [s1 ->].
  rewrite (SFmul_one_l b Hb).
  replace (SFadd 24 128 (S754_zero false) (S754_zero sa)) with (S754_zero false)
    by (destruct sa; reflexivity).
  rewrite (SFadd_zero_l b Hb), !(SFadd_zero_r b _ Hb).
  reflexivity.
Qed.

Lemma dot4_row2 :
  dot4 (mkVec4 s_zero s_zero s_one s_zero) (mkVec4 a b c s_one) = positive_zero c.
Proof.
  unfold dot4. cbn [v0 v1 v2 v3 s_add s_mul s_zero s_one binary32_scalar].
  destruct (SFmul_zero_l a Ha) as [sa ->].
  destruct (SFmul_zero_l b Hb) as [sb ->].
  destruct (SFmul_zero_l (SFone 24 128) finite32_one) as [s1 ->].
  rewrite (SFmul_one_l c Hc).
  replace (SFadd 24 128 (S754_zero false) (S754_zero sa)) with (S754_zero false)
    by (destruct sa; reflexivity).
  replace (SFadd 24 128 (S754_zero false) (S754_zero sb)) with (S754_zero false)
    by (destruct sb; reflexivity).
  rewrite (SFadd_zero_l c Hc), !(SFadd_zero_r c _ Hc).
  reflexivity.
Qed.

Lemma apply_identity4 :
  apply_affine identity4 (mkVec4 a b c s_one)
  = (positive_zero a, positive_zero b, positive_zero c).
Proof.
  unfold apply_affine, identity4. rewrite dot4_row0, dot4_row1, dot4_row2. reflexivity.
Qed.

End IdentityRows.

Lemma unit_camera32_sample (col row : Z) (d : binary32) :
  finite_sample32 (col, row, d) = true ->
  back_project_sample unit_camera32 identity4 s_one col row d
  = unit_sample32 (col, row, d).
Proof.
  unfold finite_sample32, unit_sample32. cbn [fst snd]. intros H.
  apply andb_prop in H as [H HQ]. apply andb_prop in H as [Hd HP].
  apply (SFmul_finite (f32 col) d (binary_normalize_rounded col) Hd) in HP.
  apply (SFmul_finite (f32 row) d (binary_normalize_rounded row) Hd) in HQ.
  unfold back_project_sample, unit_camera32.
  cbn [fx fy cx cy camera_to_worlds].
  cbn [s_sub s_div s_mul s_zero binary32_scalar] in *.
  rewrite !SFsub_zero_r.
  change (@s_one binary32 binary32_scalar) with (SFone 24 128).
  fold (f32 col). fold (f32 row). rewrite (SFdiv_one_r _ HP), (SFdiv_one_r _ HQ).
  change (SFone 24 128) with (@s_one binary32 binary32_scalar).
  rewrite (apply_identity4 _ _ _ HP HQ Hd). cbn [fst snd].
  rewrite (apply_identity4 _ _ _ (finite32_positive_zero _ HP)
             (finite32_positive_zero _ HQ) (finite32_positive_zero _ Hd)).
  cbn [fst snd]. rewrite !positive_zero_idem.
  change (@s_one binary32 binary32_scalar) with (SFone 24 128).
  rewrite !SFmul_one_r by (apply finite32_positive_zero; assumption).
  reflexivity.
Qed.

Set Implicit Arguments.
Local Close Scope Z_scope.

(** An overflowing product is not covered: with depth [2^127] and column 2
    the product is an infinity, and the zeros of the identity matrices turn
    every coordinate into NaN. *)
Example back_project_unit_camera_overflow :
  finite_sample32 (2%Z, 3%Z, S754_finite false 8388608 104) = false
  /\ back_project_camera unit_camera32 [S754_finite false 8388608 104] one_ray identity4 s_one
     = Return [(S754_nan, S754_nan, S754_nan)].
Proof. split; vm_compute; reflexivity. Qed.

(** ** Exact arithmetic *)

Local Open Scope Qc_scope.

Ltac qc_ops :=
  cbn [s_zero s_one s_add s_sub s_mul s_div s_of_Z Qc_scalar
       dot4 apply_affine v0 v1 v2 v3 fst snd
       fx fy cx cy camera_to_worlds identity4 identity3x4] in *.

Lemma point_ext {A} (a a' b b' c c' : A) :
  a = a' -> b = b' -> c = c' -> (a, b, c) = (a', b', c').
Proof. intros -> -> ->. reflexivity. Qed.

Lemma unit_camera_sample (col row : Z) (d : Qc) :
  back_project_sample unit_camera identity4 1 col row d
  = (qz col * d, qz row * d, d).
Proof.
  unfold back_project_sample, unit_camera, qz. qc_ops.
  apply point_ext; field; discriminate.
Qed.

(** C3, as the code has it: for the camera with [fx = fy = 1], [cx = cy =
    0], identity pose, identity normalisation and scale factor 1, the point
    of sample [k] is [(col k * depth k, row k * depth k, depth k)]: in exact
    arithmetic for every input, and in binary32, with the products of the
    format, for every input whose depths are finite numbers and whose
    products do not overflow (a zero coordinate is returned as +0). *)
Theorem back_project_unit_camera (cam_idx cols rows : list Z) :
  (forall depth : list Qc,
      List.length cols = List.length depth ->
      List.length rows = List.length depth ->
      back_project_camera unit_camera depth (mkRayIndex cam_idx rows cols) identity4 1
      = Return (map (fun crd => (qz (fst (fst crd)) * snd crd,
                                 qz (snd (fst crd)) * snd crd,
                                 snd crd))
                    (combine (combine cols rows) depth)))
  /\ (forall depth : list binary32,
      List.length cols = List.length depth ->
      List.length rows = List.length depth ->
      forallb finite_sample32 (combine (combine cols rows) depth) = true ->
      back_project_camera unit_camera32 depth (mkRayIndex cam_idx rows cols)
                          identity4 s_one
      = Return (map unit_sample32 (combine (combine cols rows) depth))).
Proof.
  split.
  - intros depth Hc Hr.
    rewrite (back_project_camera_samples unit_camera depth cam_idx cols rows identity4 1 Hc Hr).
    unfold back_project_samples. f_equal.
    apply map_ext. intros [[c r] d]. apply unit_camera_sample.
  - intros depth Hc Hr Hfin.
    rewrite (back_project_camera_samples unit_camera32 depth cam_idx cols rows
               identity4 s_one Hc Hr).
    unfold back_project_samples. f_equal.
    apply map_ext_in. intros [[c r] d] Hin.
    apply unit_camera32_sample.
    exact (proj1 (forallb_forall _ _) Hfin _ Hin).
Qed.

Lemma back_project_unit_camera_witness :
  back_project_camera unit_camera [qz 5] (mkRayIndex [0%Z] [3%Z] [2%Z]) identity4 1
  = Return [(qz 2 * qz 5, qz 3 * qz 5, qz 5)]
  /\ back_project_camera unit_camera32 [f32 5] (mkRayIndex [0%Z] [3%Z] [2%Z])
                         identity4 s_one
     = Return [unit_sample32 (2%Z, 3%Z, f32 5)].
Proof.
  split.
  - exact (proj1 (back_project_unit_camera [0%Z] [2%Z] [3%Z]) [qz 5] eq_refl eq_refl).
  - exact (proj2 (back_project_unit_camera [0%Z] [2%Z] [3%Z]) [f32 5]
             eq_refl eq_refl eq_refl).
Defined.

(** The scale factor multiplies the coordinates, whatever the matrices. *)
Lemma back_project_samples_scale (cam : Camera Qc) (T : affine Qc) (s : Qc)
    (cols rows : list Z) (depth : list Qc) :
  back_project_samples cam T s cols rows depth
  = map (scale_point s) (back_project_samples cam T 1 cols rows depth).
Proof.
  unfold back_project_samples. rewrite map_map. apply map_ext.
  intros [[c r] d]. unfold back_project_sample, scale_point. qc_ops.
  apply point_ext; ring.
Qed.

(** C9: two cameras with identity pose, four samples each, identity
    normalisation.  With scale factor 2 the aggregate cloud has eight
    points, and it is, point by point, twice the cloud obtained with scale
    factor 1. *)
Theorem world_points_scale_two (cam1 cam2 : Camera Qc) (d1 d2 : list Qc)
    (r1 r2 : RayIndex) :
  camera_to_worlds cam1 = identity4 ->
  camera_to_worlds cam2 = identity4 ->
  List.length d1 = 4%nat -> List.length (ray_row r1) = 4%nat ->
  List.length (ray_col r1) = 4%nat ->
  List.length d2 = 4%nat -> List.length (ray_row r2) = 4%nat ->
  List.length (ray_col r2) = 4%nat ->
  exists pts2 pts1,
    world_points [cam1; cam2] [d1; d2] [r1; r2] identity4 (qz 2) = Return pts2
    /\ world_points [cam1; cam2] [d1; d2] [r1; r2] identity4 1 = Return pts1
    /\ List.length pts2 = 8%nat
    /\ pts2 = map (scale_point (qz 2)) pts1.
Proof.
  intros _ _ Hd1 Hr1 Hc1 Hd2 Hr2 Hc2.
  destruct r1 as [i1 rows1 cols1], r2 as [i2 rows2 cols2].
  cbn [ray_row ray_col] in *.
  exists (back_project_samples cam1 identity4 (qz 2) cols1 rows1 d1
          ++ back_project_samples cam2 identity4 (qz 2) cols2 rows2 d2)%list.
  exists (back_project_samples cam1 identity4 1 cols1 rows1 d1
          ++ back_project_samples cam2 identity4 1 cols2 rows2 d2)%list.
  assert (run : forall s,
             world_points [cam1; cam2] [d1; d2]
                          [mkRayIndex i1 rows1 cols1; mkRayIndex i2 rows2 cols2]
                          identity4 s
             = Return (back_project_samples cam1 identity4 s cols1 rows1 d1
                       ++ back_project_samples cam2 identity4 s cols2 rows2 d2)%list).
  { intros s. unfold world_points.
    cbn [List.length Nat.eqb seq camera_loop py_index nth_error obind].
    rewrite !back_project_camera_samples by congruence.
    cbn [obind app np_concatenate List.concat]. rewrite app_nil_r. reflexivity. }
  split; [apply run |]. split; [apply run |]. split.
  - rewrite length_app, !back_project_samples_length by congruence. lia.
  - rewrite map_app, <- !back_project_samples_scale. reflexivity.
Qed.

Lemma world_points_scale_two_witness :
  exists pts2 pts1,
    world_points [unit_camera; unit_camera] [four_depths_a; four_depths_b]
                 [four_rays_a; four_rays_b] identity4 (qz 2) = Return pts2
    /\ world_points [unit_camera; unit_camera] [four_depths_a; four_depths_b]
                    [four_rays_a; four_rays_b] identity4 1 = Return pts1
    /\ List.length pts2 = 8%nat
    /\ pts2 = map (scale_point (qz 2)) pts1.
Proof.
  exact (@world_points_scale_two unit_camera unit_camera four_depths_a four_depths_b
           four_rays_a four_rays_b
           eq_refl eq_refl eq_refl eq_refl eq_refl eq_refl eq_refl eq_refl).
Defined.

(** The same run in binary32: eight points, each twice its counterpart. *)
Example world_points_scale_two_binary32 :
  match world_points [unit_camera32; unit_camera32]
                     [map f32 [1; 2; 3; 4]%Z; map f32 [5; 6; 7; 8]%Z]
                     [four_rays_a; four_rays_b] identity4 (f32 2),
        world_points [unit_camera32; unit_camera32]
                     [map f32 [1; 2; 3; 4]%Z; map f32 [5; 6; 7; 8]%Z]
                     [four_rays_a; four_rays_b] identity4 s_one
  with
  | Return pts2, Return pts1 =>
      List.length pts2 = 8%nat /\ pts2 = map (scale_point32 (f32 2)) pts1
  | _, _ => False
  end.
Proof. vm_compute. split; reflexivity. Qed.

(* ================================================================= *)
(** * Properties of the checkpoint lookup *)

Local Close Scope Qc_scope.
Local Open Scope Z_scope.

Lemma all_digits_app (s t : string) :
  all_digits (s ++ t)%string = (all_digits s && all_digits t)%bool.
Proof.
  induction s as [| c s IH]; cbn; [reflexivity |].
  rewrite IH, andb_assoc. reflexivity.
Qed.

Lemma all_digits_zeros (k : nat) : all_digits (zeros k) = true.
Proof. induction k; cbn; auto. Qed.

Lemma all_digits_string_of_uint (u : Decimal.uint) :
  all_digits (NilEmpty.string_of_uint u) = true.
Proof. induction u; cbn; auto. Qed.

Lemma all_digits_zfill (w : nat) (n : N) : all_digits (zfill w (decimal n)) = true.
Proof.
  unfold zfill, decimal.
  rewrite all_digits_app, all_digits_zeros, all_digits_string_of_uint. reflexivity.
Qed.

Lemma zfill_length (w : nat) (s : string) : (w <= String.length (zfill w s))%nat.
Proof.
  unfold zfill.
  assert (L : forall k, String.length (zeros k) = k) by (induction k; cbn; auto).
  assert (A : forall a b, String.length (a ++ b)%string
                          = (String.length a + String.length b)%nat).
  { induction a; intros; cbn; auto. }
  rewrite A, L. lia.
Qed.

(** A digit is neither a dot, a dash, a sign, an underscore nor a space. *)
Lemma digit_cases (c : ascii) :
  is_digit c = true ->
  Ascii.eqb c "." = false /\ Ascii.eqb c "-" = false /\ Ascii.eqb c "_" = false
  /\ is_space c = false
  /\ (forall (A : Type) (p m d : A),
        match c with
        | "+"%char => p
        | "-"%char => m
        | _ => d
        end = d).
Proof.
  destruct c as [[] [] [] [] [] [] [] []]; cbn; intros H;
    try discriminate H; repeat split; reflexivity.
Qed.

Lemma find_dot_after_digits (ds rest : string) (i : Z) :
  all_digits ds = true ->
  py_find_from "." (ds ++ String "." rest)%string i = i + Z.of_nat (String.length ds).
Proof.
  revert i. induction ds as [| c ds IH]; intros i Hd.
  - cbn. lia.
  - cbn in Hd. apply andb_prop in Hd as [Hc Hd].
    cbn [append py_find_from String.length].
    destruct (digit_cases c Hc) as [-> _].
    rewrite IH by assumption. lia.
Qed.

Lemma substring_prefix (ds rest : string) :
  substring 0 (String.length ds) (ds ++ rest)%string = ds.
Proof.
  induction ds as [| c ds IH]; cbn.
  - destruct rest; reflexivity.
  - rewrite IH. reflexivity.
Qed.

Lemma length_append (a b : string) :
  String.length (a ++ b)%string = (String.length a + String.length b)%nat.
Proof. induction a; cbn; auto. Qed.

Lemma lstrip_digits (s : string) : all_digits s = true -> lstrip s = s.
Proof.
  destruct s as [| c s]; [reflexivity |]. cbn. intros H.
  apply andb_prop in H as [Hc _].
  destruct (digit_cases c Hc) as (_ & _ & _ & -> & _). reflexivity.
Qed.

Lemma rstrip_digits (s : string) : all_digits s = true -> rstrip s = s.
Proof.
  induction s as [| c s IH]; [reflexivity |]. cbn. intros H.
  apply andb_prop in H as [Hc Hs]. rewrite (IH Hs).
  destruct (digit_cases c Hc) as (_ & _ & _ & -> & _).
  destruct s; reflexivity.
Qed.

Lemma int_digits_digits (s : string) (b : bool) :
  all_digits s = true -> (s <> EmptyString \/ b = true) -> int_digits s b = Some s.
Proof.
  revert b. induction s as [| c s IH]; intros b Hd Hne.
  - destruct Hne as [Hne | ->]; [contradiction | reflexivity].
  - cbn in Hd. apply andb_prop in Hd as [Hc Hs]. cbn. rewrite Hc.
    rewrite (IH true Hs) by (right; reflexivity). reflexivity.
Qed.

Lemma uint_of_zeros (k : nat) (u : Decimal.uint) :
  exists u', NilEmpty.uint_of_string (zeros k ++ NilEmpty.string_of_uint u)%string = Some u'
             /\ N.of_uint u' = N.of_uint u.
Proof.
  induction k as [| k (u' & E & V)]; cbn.
  - exists u. split; [apply NilEmpty.usu | reflexivity].
  - exists (Decimal.D0 u'). rewrite E. split; [reflexivity | exact V].
Qed.

Lemma parse_unsigned_zfill (w : nat) (n : N) :
  (0 < w)%nat -> parse_unsigned (zfill w (decimal n)) = Some (Z.of_N n).
Proof.
  intros Hw. unfold parse_unsigned.
  rewrite int_digits_digits.
  - unfold zfill, decimal.
    destruct (uint_of_zeros (w - String.length (NilEmpty.string_of_uint (N.to_uint n)))
                            (N.to_uint n)) as (u' & -> & V).
    rewrite V, DecimalN.Unsigned.of_to. reflexivity.
  - apply all_digits_zfill.
  - left. intros E. pose proof (zfill_length w (decimal n)) as L.
    rewrite E in L. cbn in L. lia.
Qed.

Lemma py_int_zfill (w : nat) (n : N) :
  (0 < w)%nat -> py_int (zfill w (decimal n)) = Return (Z.of_N n).
Proof.
  intros Hw. unfold py_int.
  pose proof (all_digits_zfill w n) as Hd.
  rewrite (lstrip_digits _ Hd), (rstrip_digits _ Hd).
  pose proof (parse_unsigned_zfill n Hw) as P.
  destruct (zfill w (decimal n)) as [| c s] eqn:E.
  - rewrite P. reflexivity.
  - cbn in Hd. apply andb_prop in Hd as [Hc _].
    destruct (digit_cases c Hc) as (_ & _ & _ & _ & M).
    rewrite M, P. reflexivity.
Qed.

(** The step embedded in a checkpoint name is read back. *)
Lemma step_of_checkpoint_name (z : Z) :
  0 <= z -> step_of_name (checkpoint_name z) = Return z.
Proof.
  intros Hz. unfold step_of_name, checkpoint_name, format_09d.
  destruct (Z.ltb_spec z 0) as [? | _]; [lia |].
  set (ds := zfill 9 (decimal (Z.to_N z))).
  assert (Hd : all_digits ds = true) by apply all_digits_zfill.
  assert (F1 : py_find "-" ("step-" ++ ds ++ ".ckpt")%string = 4) by reflexivity.
  assert (F2 : py_find "." ("step-" ++ ds ++ ".ckpt")%string
               = 5 + Z.of_nat (String.length ds)).
  { unfold py_find. cbn [append py_find_from Ascii.eqb Bool.eqb].
    change ".ckpt"%string with (String "." "ckpt").
    rewrite find_dot_after_digits by assumption. lia. }
  rewrite F1, F2. unfold py_slice.
  assert (L : String.length ("step-" ++ ds ++ ".ckpt")%string
              = (5 + String.length ds + 5)%nat).
  { cbn [append String.length]. rewrite length_append. cbn. lia. }
  rewrite L. unfold py_clip.
  destruct (Z.ltb_spec (4 + 1) 0) as [? | _]; [lia |].
  destruct (Z.ltb_spec (5 + Z.of_nat (String.length ds)) 0) as [? | _]; [lia |].
  replace (Nat.min (Z.to_nat (4 + 1)) (5 + String.length ds + 5)) with 5%nat by lia.
  replace (Nat.min (Z.to_nat (5 + Z.of_nat (String.length ds))) (5 + String.length ds + 5))
    with (5 + String.length ds)%nat by lia.
  replace (5 + String.length ds - 5)%nat with (String.length ds) by lia.
  cbn [append substring]. rewrite substring_prefix.
  subst ds. rewrite py_int_zfill by lia. rewrite Z2N.id by lia. reflexivity.
Qed.

(** ** [sorted(...)[-1]] is the maximum *)

Lemma py_last_last_opt (l : list Z) :
  py_last l = match last_opt l with
              | Some a => Return a
              | None => Raise (IndexError "list index out of range")
              end.
Proof.
  unfold py_last. induction l as [| h t IH]; [reflexivity |].
  cbn [rev last_opt]. destruct t as [| k t]; [reflexivity |].
  destruct (rev (k :: t)) as [| a r] eqn:E.
  - apply (f_equal (@List.length Z)) in E. rewrite length_rev in E. discriminate E.
  - cbn [app]. exact IH.
Qed.

Lemma insert_sorted_ascending (z : Z) (l : list Z) :
  ascending l -> ascending (insert_sorted z l).
Proof.
  induction l as [| h t IH]; intros A; [cbn; auto |].
  cbn [insert_sorted]. destruct (Z.leb_spec z h) as [Hle | Hgt].
  - cbn [ascending]. split; [exact Hle | exact A].
  - destruct A as [Hh At]. specialize (IH At).
    destruct t as [| k t].
    + cbn. repeat split; lia.
    + cbn [insert_sorted] in *. destruct (Z.leb_spec z k).
      * split; [lia | exact IH].
      * split; [exact Hh | exact IH].
Qed.

Lemma sorted_ascending (l : list Z) : ascending (sorted l).
Proof.
  induction l as [| h t IH]; [exact I |]. cbn. apply insert_sorted_ascending, IH.
Qed.

Lemma ascending_head_le_last (l : list Z) (h m : Z) :
  ascending (h :: l) -> last_opt (h :: l) = Some m -> h <= m.
Proof.
  revert h. induction l as [| k t IH]; intros h A L.
  - cbn in L. injection L as <-. lia.
  - destruct A as [Hk At]. change (last_opt (k :: t) = Some m) in L.
    specialize (IH k At L). lia.
Qed.

Lemma last_opt_cons (h : Z) (t : list Z) : last_opt (h :: t) <> None.
Proof.
  revert h. induction t as [| k t IH]; intros h; [discriminate |].
  change (last_opt (h :: k :: t)) with (last_opt (k :: t)). apply IH.
Qed.

Lemma last_insert_sorted (z : Z) (l : list Z) :
  ascending l ->
  last_opt (insert_sorted z l)
  = Some (match last_opt l with None => z | Some m => Z.max z m end).
Proof.
  induction l as [| h t IH]; intros A; [reflexivity |].
  cbn [insert_sorted]. destruct (Z.leb_spec z h) as [Hle | Hgt].
  - change (last_opt (z :: h :: t)) with (last_opt (h :: t)).
    destruct (last_opt (h :: t)) as [m |] eqn:L.
    + pose proof (@ascending_head_le_last t h m A L). f_equal. lia.
    + exfalso. exact (@last_opt_cons h t L).
  - destruct A as [Hh At]. specialize (IH At).
    destruct t as [| k t].
    + cbn. f_equal. lia.
    + change (last_opt (h :: insert_sorted z (k :: t)))
        with (match insert_sorted z (k :: t) with
              | [] => Some h
              | _ => last_opt (insert_sorted z (k :: t))
              end).
      destruct (insert_sorted z (k :: t)) eqn:E.
      * cbn in E. destruct (z <=? k); discriminate E.
      * rewrite IH. reflexivity.
Qed.

Lemma last_sorted (l : list Z) :
  last_opt (sorted l) = match l with [] => None | _ => Some (list_max l) end.
Proof.
  induction l as [| h t IH]; [reflexivity |].
  cbn [sorted]. rewrite last_insert_sorted by apply sorted_ascending.
  rewrite IH. destruct t; [reflexivity |]. reflexivity.
Qed.

Lemma list_max_in (l : list Z) : l <> [] -> In (list_max l) l.
Proof.
  induction l as [| h t IH]; [contradiction |]. intros _.
  destruct t as [| k t]; [left; reflexivity |].
  change (list_max (h :: k :: t)) with (Z.max h (list_max (k :: t))).
  destruct (Z.max_spec h (list_max (k :: t))) as [[_ ->] | [_ ->]].
  - right. apply IH. discriminate.
  - left. reflexivity.
Qed.

Lemma list_max_upper (l : list Z) (x : Z) : In x l -> x <= list_max l.
Proof.
  induction l as [| h t IH]; [contradiction |]. intros Hin.
  destruct t as [| k t].
  - destruct Hin as [<- | []]. cbn. lia.
  - change (list_max (h :: k :: t)) with (Z.max h (list_max (k :: t))).
    destruct Hin as [<- | Hin]; [lia |]. specialize (IH Hin). lia.
Qed.

Lemma steps_of_checkpoint_names (steps : list Z) :
  Forall (fun s => 0 <= s) steps ->
  map_outcome step_of_name (map checkpoint_name steps) = Return steps.
Proof.
  induction 1 as [| s steps Hs _ IH]; [reflexivity |].
  cbn [map map_outcome]. rewrite step_of_checkpoint_name by assumption.
  cbn [obind]. rewrite IH. reflexivity.
Qed.

(** C7: in a directory whose entries are checkpoints named
    [step-<9-digit step>.ckpt], with no explicit step asked for, the path
    resolved is the entry of the numerically largest step.  For the steps
    10 and 5 this is [step-000000010.ckpt]. *)
Theorem resolve_latest_checkpoint (steps : list Z) :
  steps <> [] ->
  Forall (fun s => 0 <= s) steps ->
  resolve_load_path (map checkpoint_name steps) None
  = Return (checkpoint_name (list_max steps))
  /\ In (checkpoint_name (list_max steps)) (map checkpoint_name steps)
  /\ (forall s, In s steps -> s <= list_max steps).
Proof.
  intros Hne Hpos.
  assert (Hin : In (checkpoint_name (list_max steps)) (map checkpoint_name steps)).
  { apply in_map, list_max_in, Hne. }
  split; [| split; [exact Hin | apply list_max_upper]].
  unfold resolve_load_path, latest_step.
  rewrite steps_of_checkpoint_names by assumption. cbn [obind].
  rewrite py_last_last_opt, last_sorted.
  destruct steps as [| h t]; [contradiction |]. cbn [obind].
  destruct (existsb (String.eqb (checkpoint_name (list_max (h :: t))))
                    (map checkpoint_name (h :: t))) eqn:E; [reflexivity |].
  exfalso. assert (T : existsb (String.eqb (checkpoint_name (list_max (h :: t))))
                               (map checkpoint_name (h :: t)) = true).
  { apply existsb_exists. eexists. split; [exact Hin | apply String.eqb_refl]. }
  congruence.
Qed.

Lemma resolve_latest_checkpoint_witness :
  resolve_load_path ["step-000000010.ckpt"; "step-000000005.ckpt"]%string None
  = Return "step-000000010.ckpt"%string.
Proof.
  refine (proj1 (@resolve_latest_checkpoint [10; 5] _ _)).
  - discriminate.
  - repeat constructor; discriminate.
Defined.

(* ================================================================= *)
(** * Properties of the plane fit *)

Local Close Scope Z_scope.
Local Open Scope Qc_scope.

(** ** Sums of squares in [Qc] *)

Lemma Qc_square_nonneg (x : Qc) : 0 <= x * x.
Proof.
  destruct (Qclt_le_dec x 0) as [Hneg | Hpos].
  - assert (H : 0 <= - x).
    { replace 0 with (- 0) by ring. apply Qcopp_le_compat, Qclt_le_weak, Hneg. }
    replace (x * x) with (- x * - x) by ring.
    replace 0 with (0 * - x) at 1 by ring.
    apply Qcmult_le_compat_r; assumption.
  - replace 0 with (0 * x) at 1 by ring.
    apply Qcmult_le_compat_r; assumption.
Qed.

Lemma qsum_nonneg (l : list Qc) : Forall (fun v => 0 <= v) l -> 0 <= qsum l.
Proof.
  induction 1 as [| v l Hv _ IH]; cbn.
  - apply Qcle_refl.
  - replace 0 with (0 + 0) by ring. apply Qcplus_le_compat; assumption.
Qed.

Lemma qsum_nonneg_zero (l : list Qc) :
  Forall (fun v => 0 <= v) l -> qsum l <= 0 -> Forall (fun v => v = 0) l.
Proof.
  induction 1 as [| v l Hv Hl IH]; cbn; intros Hs; constructor.
  - apply Qcle_antisym; [| exact Hv].
    apply Qcle_trans with (v + qsum l); [| exact Hs].
    replace v with (v + 0) at 1 by ring.
    apply Qcplus_le_compat; [apply Qcle_refl | apply qsum_nonneg, Hl].
  - apply IH. apply Qcle_trans with (v + qsum l); [| exact Hs].
    replace (qsum l) with (0 + qsum l) at 1 by ring.
    apply Qcplus_le_compat; [exact Hv | apply Qcle_refl].
Qed.

Lemma squares_nonneg {A} (f : A -> Qc) (l : list A) :
  Forall (fun v => 0 <= v) (map (fun s => f s * f s) l).
Proof.
  apply Forall_forall. intros v Hv. apply in_map_iff in Hv as (s & <- & _).
  apply Qc_square_nonneg.
Qed.

(** A sum of squares that is not positive has every term zero. *)
Lemma sum_squares_zero {A} (f : A -> Qc) (l : list A) :
  qsum (map (fun s => f s * f s) l) <= 0 -> forall s, In s l -> f s = 0.
Proof.
  intros Hs s Hin.
  pose proof (qsum_nonneg_zero (squares_nonneg f l) Hs) as Z.
  rewrite Forall_forall in Z.
  specialize (Z (f s * f s) (in_map (fun s => f s * f s) l s Hin)).
  destruct (Qcmult_integral _ _ Z); assumption.
Qed.

Lemma sse_nonneg (samples : list (Qc * Qc * Qc)) (a b d : Qc) :
  0 <= sse samples a b d.
Proof. apply qsum_nonneg, squares_nonneg. Qed.

(** ** The script's part of the fit *)

Lemma samples_of_cloud (pts : list (point Qc)) :
  combine (columns_xy pts) (column_z pts) = pts.
Proof.
  unfold columns_xy, column_z.
  induction pts as [| [xy z] pts IH]; cbn; [reflexivity |]. rewrite IH. reflexivity.
Qed.

Lemma cloud_columns_length (pts : list (point Qc)) :
  List.length (columns_xy pts) = List.length (column_z pts).
Proof. unfold columns_xy, column_z. rewrite !length_map. reflexivity. Qed.

(** Points on [z = 2x + 3y + 5] are fitted without residual by (2, 3, 5). *)
Lemma sse_exact_plane (pts : list (point Qc)) :
  (forall p, In p pts -> snd p = qz 2 * fst (fst p) + qz 3 * snd (fst p) + qz 5) ->
  sse pts (qz 2) (qz 3) (qz 5) = 0.
Proof.
  induction pts as [| p pts IH]; intros H; [reflexivity |].
  change (sse (p :: pts) (qz 2) (qz 3) (qz 5))
    with (residual (qz 2) (qz 3) (qz 5) p * residual (qz 2) (qz 3) (qz 5) p
          + sse pts (qz 2) (qz 3) (qz 5)).
  rewrite IH by (intros q Hq; apply H; right; exact Hq).
  unfold residual. rewrite (H p (or_introl eq_refl)). ring.
Qed.

(** C6: the script hands the regressor the (x, y) columns of every point
    as features and the z column as target, and reads the plane as
    [a, b = coef_], [c = -1], [d = intercept_].  For a regressor that
    honours the least-squares contract and a cloud of full rank, the fit
    returns a plane with [c = -1] whose [(a, b, d)] minimises the sum of
    squared residuals of [z = a x + b y + d] over all points; when the
    points satisfy [z = 2x + 3y + 5] exactly, it returns [a = 2], [b = 3],
    [d = 5]. *)
Theorem plane_fit_least_squares (fit : regressor Qc) (pts : list (point Qc)) :
  ols_contract fit ->
  full_rank (columns_xy pts) ->
  exists a b d,
    plane_fit fit pts = Return (mkPlane a b (-1)%Z d)
    /\ least_squares pts a b d
    /\ ((forall p, In p pts ->
           snd p = qz 2 * fst (fst p) + qz 3 * snd (fst p) + qz 5) ->
        a = qz 2 /\ b = qz 3 /\ d = qz 5).
Proof.
  intros Hfit Hrank.
  destruct (Hfit (columns_xy pts) (column_z pts) (cloud_columns_length pts) Hrank)
    as (a & b & d & Efit & Hls).
  rewrite samples_of_cloud in Hls.
  exists a, b, d. split; [| split; [exact Hls |]].
  - unfold plane_fit. rewrite Efit. reflexivity.
  - intros Hplane.
    assert (Hzero : sse pts a b d <= 0).
    { rewrite <- (sse_exact_plane pts Hplane). apply Hls. }
    assert (Hres : forall p, In p pts -> residual a b d p = 0).
    { apply sum_squares_zero. exact Hzero. }
    destruct (Hrank (a - qz 2) (b - qz 3) (d - qz 5)) as (Ea & Eb & Ed).
    { intros xy Hxy. unfold columns_xy in Hxy.
      apply in_map_iff in Hxy as (p & <- & Hp).
      specialize (Hres p Hp). unfold residual in Hres.
      rewrite (Hplane p Hp) in Hres.
      transitivity (- (qz 2 * fst (fst p) + qz 3 * snd (fst p) + qz 5
                       - (a * fst (fst p) + b * snd (fst p) + d))); [ring |].
      rewrite Hres. ring. }
    repeat split.
    + transitivity (a - qz 2 + qz 2); [ring | rewrite Ea; ring].
    + transitivity (b - qz 3 + qz 3); [ring | rewrite Eb; ring].
    + transitivity (d - qz 5 + qz 5); [ring | rewrite Ed; ring].
Qed.

(** ** The regressor model honours the least-squares contract *)

Lemma qz_two : qz 2 = 1 + 1.
Proof. apply Qc_is_canon. reflexivity. Qed.

Lemma qlen_nil {A} : qlen (@nil A) = 0.
Proof. reflexivity. Qed.

Lemma qlen_cons {A} (s : A) (l : list A) : qlen (s :: l) = qlen l + 1.
Proof.
  unfold qlen. cbn [List.length]. unfold Qcplus.
  apply Q2Qc_eq_iff. cbn [this Q2Qc]. rewrite !Qred_correct.
  rewrite Nat2Z.inj_succ. unfold Z.succ. rewrite inject_Z_plus. reflexivity.
Qed.

Lemma qlen_cons_nonzero {A} (s : A) (l : list A) : qlen (s :: l) <> 0.
Proof.
  unfold qlen. intros H. apply Q2Qc_eq_iff in H.
  unfold Qeq in H. cbn [Qnum Qden inject_Z] in H.
  rewrite Z.mul_1_r in H. cbn in H. discriminate H.
Qed.

Lemma zip_with_map_same {A B C D} (f : B -> C -> D) (g : A -> B) (h : A -> C)
    (l : list A) :
  zip_with f (map g l) (map h l) = map (fun s => f (g s) (h s)) l.
Proof.
  unfold zip_with. induction l as [| s l IH]; cbn; [reflexivity |].
  rewrite IH. reflexivity.
Qed.

Lemma combine_fst {A B} (a : list A) (b : list B) :
  List.length a = List.length b -> map fst (combine a b) = a.
Proof.
  revert b. induction a as [| x a IH]; intros [| y b] H; try discriminate H;
    [reflexivity |].
  cbn. rewrite IH by (cbn in H; congruence). reflexivity.
Qed.

Lemma combine_snd {A B} (a : list A) (b : list B) :
  List.length a = List.length b -> map snd (combine a b) = b.
Proof.
  revert b. induction a as [| x a IH]; intros [| y b] H; try discriminate H;
    [reflexivity |].
  cbn. rewrite IH by (cbn in H; congruence). reflexivity.
Qed.

Section SampleSums.
Variable A : Type.
Variables f g h : A -> Qc.

Lemma sigma_nil (F : A -> Qc) : sigma F [] = 0.
Proof. reflexivity. Qed.

Lemma sigma_cons (F : A -> Qc) (s : A) (l : list A) :
  sigma F (s :: l) = F s + sigma F l.
Proof. reflexivity. Qed.

Lemma sigma_ext (F G : A -> Qc) (l : list A) :
  (forall s, F s = G s) -> sigma F l = sigma G l.
Proof. intros E. unfold sigma. f_equal. apply map_ext, E. Qed.

Lemma sigma_centred (c : Qc) (l : list A) :
  sigma (fun s => f s - c) l = sigma f l - qlen l * c.
Proof.
  induction l as [| s l IH].
  - rewrite (@qlen_nil A). unfold sigma. cbn [map qsum fold_right]. ring.
  - rewrite !sigma_cons, IH, qlen_cons. ring.
Qed.

Lemma sigma_centred_mean (l : list A) :
  l <> [] -> sigma (fun s => f s - sigma f l / qlen l) l = 0.
Proof.
  intros Hne. rewrite sigma_centred.
  destruct l as [| s l]; [contradiction |].
  field. apply qlen_cons_nonzero.
Qed.

(** The residual of the centred model, summed against constants and
    against the centred features. *)
Lemma sigma_residual (a b mf mg mh : Qc) (l : list A) :
  sigma (fun s => (h s - mh) - a * (f s - mf) - b * (g s - mg)) l
  = sigma (fun s => h s - mh) l
    - a * sigma (fun s => f s - mf) l - b * sigma (fun s => g s - mg) l.
Proof.
  induction l as [| s l IH]; [unfold sigma; cbn [map qsum fold_right]; ring |].
  rewrite !sigma_cons, IH. ring.
Qed.

Lemma sigma_residual_f (a b mf mg mh : Qc) (l : list A) :
  sigma (fun s => ((h s - mh) - a * (f s - mf) - b * (g s - mg)) * (f s - mf)) l
  = sigma (fun s => (f s - mf) * (h s - mh)) l
    - a * sigma (fun s => (f s - mf) * (f s - mf)) l
    - b * sigma (fun s => (f s - mf) * (g s - mg)) l.
Proof.
  induction l as [| s l IH]; [unfold sigma; cbn [map qsum fold_right]; ring |].
  rewrite !sigma_cons, IH. ring.
Qed.

Lemma sigma_residual_g (a b mf mg mh : Qc) (l : list A) :
  sigma (fun s => ((h s - mh) - a * (f s - mf) - b * (g s - mg)) * (g s - mg)) l
  = sigma (fun s => (g s - mg) * (h s - mh)) l
    - a * sigma (fun s => (f s - mf) * (g s - mg)) l
    - b * sigma (fun s => (g s - mg) * (g s - mg)) l.
Proof.
  induction l as [| s l IH]; [unfold sigma; cbn [map qsum fold_right]; ring |].
  rewrite !sigma_cons, IH. ring.
Qed.

(** The squared residuals of a second candidate [(a', b', d')], around a
    first one [(a, b, d)]. *)
Lemma sigma_square_shift (a b d a' b' d' mf mg : Qc) (l : list A) :
  sigma (fun s => (h s - (a' * f s + b' * g s + d'))
                  * (h s - (a' * f s + b' * g s + d'))) l
  = sigma (fun s => (h s - (a * f s + b * g s + d))
                    * (h s - (a * f s + b * g s + d))) l
    + (qz 2) * ((a - a') * sigma (fun s => (h s - (a * f s + b * g s + d)) * (f s - mf)) l
                + (b - b') * sigma (fun s => (h s - (a * f s + b * g s + d)) * (g s - mg)) l
                + ((d - d') + (a - a') * mf + (b - b') * mg)
                  * sigma (fun s => h s - (a * f s + b * g s + d)) l)
    + sigma (fun s => ((a - a') * f s + (b - b') * g s + (d - d'))
                      * ((a - a') * f s + (b - b') * g s + (d - d'))) l.
Proof.
  induction l as [| s l IH]; [unfold sigma; cbn [map qsum fold_right]; rewrite qz_two; ring |].
  rewrite !sigma_cons, IH, qz_two. ring.
Qed.

(** The quadratic form of the centred features. *)
Lemma sigma_quadratic (al be mf mg : Qc) (l : list A) :
  sigma (fun s => (al * (f s - mf) + be * (g s - mg))
                  * (al * (f s - mf) + be * (g s - mg))) l
  = al * al * sigma (fun s => (f s - mf) * (f s - mf)) l
    + (qz 2) * al * be * sigma (fun s => (f s - mf) * (g s - mg)) l
    + be * be * sigma (fun s => (g s - mg) * (g s - mg)) l.
Proof.
  induction l as [| s l IH]; [unfold sigma; cbn [map qsum fold_right]; rewrite qz_two; ring |].
  rewrite !sigma_cons, IH, qz_two. ring.
Qed.

(** Full column rank of [f, g, 1] makes the Gram determinant of the
    centred features non-zero. *)
Lemma rank_determinant (mf mg : Qc) (l : list A) :
  (forall al be ga : Qc,
      (forall s, In s l -> al * f s + be * g s + ga = 0) ->
      al = 0 /\ be = 0 /\ ga = 0) ->
  sigma (fun s => (f s - mf) * (f s - mf)) l
  * sigma (fun s => (g s - mg) * (g s - mg)) l
  - sigma (fun s => (f s - mf) * (g s - mg)) l
    * sigma (fun s => (f s - mf) * (g s - mg)) l <> 0.
Proof.
  intros Hrank Hdet.
  set (cff := sigma (fun s => (f s - mf) * (f s - mf)) l) in *.
  set (cgg := sigma (fun s => (g s - mg) * (g s - mg)) l) in *.
  set (cfg := sigma (fun s => (f s - mf) * (g s - mg)) l) in *.
  destruct (Qc_eq_dec cff 0) as [Hff | Hff].
  - assert (Hall : forall s, In s l -> f s - mf = 0).
    { apply sum_squares_zero. fold (sigma (fun s => (f s - mf) * (f s - mf)) l).
      fold cff. rewrite Hff. apply Qcle_refl. }
    destruct (Hrank 1 0 (- mf)) as (H1 & _).
    + intros s Hs. specialize (Hall s Hs).
      transitivity (f s - mf); [ring | exact Hall].
    + exact (Q_apart_0_1 H1).
  - assert (Hall : forall s, In s l -> cfg * (f s - mf) + (- cff) * (g s - mg) = 0).
    { apply (sum_squares_zero (fun s => cfg * (f s - mf) + (- cff) * (g s - mg))).
      fold (sigma (fun s => (cfg * (f s - mf) + (- cff) * (g s - mg))
                             * (cfg * (f s - mf) + (- cff) * (g s - mg))) l).
      rewrite sigma_quadratic. fold cff. fold cgg. fold cfg.
      replace (cfg * cfg * cff + qz 2 * cfg * - cff * cfg + - cff * - cff * cgg)
        with (cff * (cff * cgg - cfg * cfg)) by (rewrite qz_two; ring).
      rewrite Hdet. replace (cff * 0) with 0 by ring. apply Qcle_refl. }
    destruct (Hrank cfg (- cff) (- (cfg * mf + (- cff) * mg))) as (_ & H2 & _).
    + intros s Hs. specialize (Hall s Hs).
      transitivity (cfg * (f s - mf) + - cff * (g s - mg)); [ring | exact Hall].
    + apply Hff. transitivity (- - cff); [ring | rewrite H2; ring].
Qed.

End SampleSums.

(** On a design whose Gram determinant is not zero the model returns the
    solution of the centred normal equations. *)
Lemma linear_regression_fit_samples (S : list (Qc * Qc * Qc)) :
  S <> [] ->
  let mx := sigma feat_x S / qlen S in
  let my := sigma feat_y S / qlen S in
  let mz := sigma target_z S / qlen S in
  let cxx := sigma (fun s => (feat_x s - mx) * (feat_x s - mx)) S in
  let cxy := sigma (fun s => (feat_x s - mx) * (feat_y s - my)) S in
  let cyy := sigma (fun s => (feat_y s - my) * (feat_y s - my)) S in
  let cxz := sigma (fun s => (feat_x s - mx) * (target_z s - mz)) S in
  let cyz := sigma (fun s => (feat_y s - my) * (target_z s - mz)) S in
  let det := cxx * cyy - cxy * cxy in
  let a := (cxz * cyy - cyz * cxy) / det in
  let b := (cyz * cxx - cxz * cxy) / det in
  det <> 0 ->
  linear_regression_fit (map fst S) (map snd S)
  = Return ((a, b), mz - (a * mx + b * my)).
Proof.
  intros Hne mx my mz cxx cxy cyy cxz cyz det a b Hdet.
  unfold linear_regression_fit.
  rewrite !length_map, Nat.eqb_refl.
  destruct S as [| s0 S']; [contradiction |].
  set (S := s0 :: S') in *.
  change (Nat.eqb (List.length S) 0) with false. cbn [negb].
  unfold qmean, qlen. rewrite !length_map, !map_map, !zip_with_map_same.
  fold (qlen S).
  change (qsum (map (fun x => fst (fst x)) S)) with (sigma feat_x S).
  change (qsum (map (fun x => snd (fst x)) S)) with (sigma feat_y S).
  change (qsum (map snd S)) with (sigma target_z S).
  fold mx. fold my. fold mz.
  change (qsum (map (fun s => (fst (fst s) - mx) * (fst (fst s) - mx)) S)) with cxx.
  change (qsum (map (fun s => (fst (fst s) - mx) * (snd (fst s) - my)) S)) with cxy.
  change (qsum (map (fun s => (snd (fst s) - my) * (snd (fst s) - my)) S)) with cyy.
  change (qsum (map (fun s => (fst (fst s) - mx) * (snd s - mz)) S)) with cxz.
  change (qsum (map (fun s => (snd (fst s) - my) * (snd s - mz)) S)) with cyz.
  fold det.
  destruct (Qc_eq_dec det 0) as [E | _]; [contradiction |].
  reflexivity.
Qed.

Lemma full_rank_nonempty (X : list (Qc * Qc)) : full_rank X -> X <> [].
Proof.
  intros Hrank ->. destruct (Hrank 1 0 0) as (H1 & _).
  - intros p [].
  - exact (Q_apart_0_1 H1).
Qed.

(** The model of the regressor honours the contract. *)
Lemma linear_regression_fit_ols : ols_contract linear_regression_fit.
Proof.
  intros X y Hlen Hrank.
  set (S := combine X y).
  assert (EX : X = map fst S) by (symmetry; apply combine_fst, Hlen).
  assert (Ey : y = map snd S) by (symmetry; apply combine_snd, Hlen).
  assert (HS : S <> []).
  { intros E. apply (full_rank_nonempty Hrank). rewrite EX, E. reflexivity. }
  set (mx := sigma feat_x S / qlen S).
  set (my := sigma feat_y S / qlen S).
  set (mz := sigma target_z S / qlen S).
  set (cxx := sigma (fun s => (feat_x s - mx) * (feat_x s - mx)) S).
  set (cxy := sigma (fun s => (feat_x s - mx) * (feat_y s - my)) S).
  set (cyy := sigma (fun s => (feat_y s - my) * (feat_y s - my)) S).
  set (cxz := sigma (fun s => (feat_x s - mx) * (target_z s - mz)) S).
  set (cyz := sigma (fun s => (feat_y s - my) * (target_z s - mz)) S).
  set (det := cxx * cyy - cxy * cxy).
  assert (Hdet : det <> 0).
  { apply (rank_determinant feat_x feat_y mx my S).
    intros al be ga Hall. apply Hrank. intros p Hp.
    rewrite EX in Hp. apply in_map_iff in Hp as (s & <- & Hs).
    exact (Hall s Hs). }
  set (a := (cxz * cyy - cyz * cxy) / det).
  set (b := (cyz * cxx - cxz * cxy) / det).
  set (d := mz - (a * mx + b * my)).
  exists a, b, d. split.
  - rewrite EX, Ey. exact (linear_regression_fit_samples HS Hdet).
  - intros a' b' d'.
    change (sse S a b d)
      with (sigma (fun s => (target_z s - (a * feat_x s + b * feat_y s + d))
                            * (target_z s - (a * feat_x s + b * feat_y s + d))) S).
    change (sse S a' b' d')
      with (sigma (fun s => (target_z s - (a' * feat_x s + b' * feat_y s + d'))
                            * (target_z s - (a' * feat_x s + b' * feat_y s + d'))) S).
    rewrite (sigma_square_shift feat_x feat_y target_z a b d a' b' d' mx my S).
    assert (centred : forall s,
               target_z s - (a * feat_x s + b * feat_y s + d)
               = (target_z s - mz) - a * (feat_x s - mx) - b * (feat_y s - my)).
    { intros s. unfold d. ring. }
    assert (N0 : sigma (fun s => target_z s - (a * feat_x s + b * feat_y s + d)) S = 0).
    { rewrite (sigma_ext _ _ S centred), sigma_residual.
      unfold mz, mx, my. rewrite !sigma_centred_mean by exact HS. ring. }
    assert (N1 : sigma (fun s => (target_z s - (a * feat_x s + b * feat_y s + d))
                                 * (feat_x s - mx)) S = 0).
    { rewrite (sigma_ext _ (fun s => ((target_z s - mz) - a * (feat_x s - mx)
                                      - b * (feat_y s - my)) * (feat_x s - mx)) S)
        by (intros s; rewrite centred; reflexivity).
      rewrite sigma_residual_f. fold cxz. fold cxx. fold cxy.
      unfold a, b, det. field. exact Hdet. }
    assert (N2 : sigma (fun s => (target_z s - (a * feat_x s + b * feat_y s + d))
                                 * (feat_y s - my)) S = 0).
    { rewrite (sigma_ext _ (fun s => ((target_z s - mz) - a * (feat_x s - mx)
                                      - b * (feat_y s - my)) * (feat_y s - my)) S)
        by (intros s; rewrite centred; reflexivity).
      rewrite sigma_residual_g. fold cyz. fold cxy. fold cyy.
      unfold a, b, det. field. exact Hdet. }
    rewrite N0, N1, N2.
    set (base := sigma (fun s => (target_z s - (a * feat_x s + b * feat_y s + d))
                                 * (target_z s - (a * feat_x s + b * feat_y s + d))) S).
    set (extra := sigma (fun s => ((a - a') * feat_x s + (b - b') * feat_y s + (d - d'))
                                  * ((a - a') * feat_x s + (b - b') * feat_y s + (d - d'))) S).
    replace (base + qz 2 * ((a - a') * 0 + (b - b') * 0
                            + (d - d' + (a - a') * mx + (b - b') * my) * 0) + extra)
      with (base + extra) by ring.
    replace base with (base + 0) at 1 by ring.
    apply Qcplus_le_compat; [apply Qcle_refl |].
    apply qsum_nonneg, squares_nonneg.
Qed.

(** ** Runs of the fit on small clouds *)

Lemma exact_cloud_full_rank : full_rank (columns_xy exact_cloud).
Proof.
  intros al be ga H.
  assert (H0 := H (qz 0, qz 0) (or_introl eq_refl)).
  assert (H1 := H (qz 1, qz 0) (or_intror (or_introl eq_refl))).
  assert (H2 := H (qz 0, qz 1) (or_intror (or_intror (or_introl eq_refl)))).
  cbn [fst snd] in H0, H1, H2.
  change (qz 0) with 0 in *. change (qz 1) with 1 in *.
  assert (G : ga = 0) by (rewrite <- H0; ring).
  repeat split.
  - rewrite <- H1, G. ring.
  - rewrite <- H2, G. ring.
  - exact G.
Qed.

Lemma plane_fit_least_squares_witness :
  exists a b d,
    plane_fit linear_regression_fit exact_cloud = Return (mkPlane a b (-1)%Z d)
    /\ least_squares exact_cloud a b d
    /\ ((forall p, In p exact_cloud ->
           snd p = qz 2 * fst (fst p) + qz 3 * snd (fst p) + qz 5) ->
        a = qz 2 /\ b = qz 3 /\ d = qz 5).
Proof.
  exact (@plane_fit_least_squares linear_regression_fit exact_cloud
           linear_regression_fit_ols exact_cloud_full_rank).
Defined.

(** The model run on the exact cloud. *)
Example plane_fit_exact_cloud :
  coefficients (plane_fit linear_regression_fit exact_cloud)
  = Some (2, 3, (-1)%Z, 5)%Q.
Proof. vm_compute. reflexivity. Qed.

(** C5 fails as stated: with two points, and with three points on one
    line, the fit raises nothing and returns a plane, the least-squares
    solution of minimum norm. *)
Lemma plane_fit_degenerate_returns :
  coefficients (plane_fit linear_regression_fit two_points)
  = Some (5 # 2, 5 # 2, (-1)%Z, 5)%Q
  /\ coefficients (plane_fit linear_regression_fit collinear_cloud)
     = Some (5 # 2, 5 # 2, (-1)%Z, 5)%Q.
Proof. split; vm_compute; reflexivity. Qed.

(** ** Designs without full rank *)

Lemma sigma_zero {A} (F : A -> Qc) (l : list A) :
  (forall s, In s l -> F s = 0) -> sigma F l = 0.
Proof.
  induction l as [| s l IH]; intros H; [reflexivity |].
  rewrite sigma_cons, (H s (or_introl eq_refl)), IH; [ring |].
  intros t Ht. apply H. right. exact Ht.
Qed.

Lemma sigma_combination {A} (al be : Qc) (F G H : A -> Qc) (l : list A) :
  sigma (fun s => (al * F s + be * G s) * H s) l
  = al * sigma (fun s => F s * H s) l + be * sigma (fun s => G s * H s) l.
Proof.
  induction l as [| s l IH]; [unfold sigma; cbn [map qsum fold_right]; ring |].
  rewrite !sigma_cons, IH. ring.
Qed.

Lemma sigma_combination_square {A} (al be : Qc) (F G : A -> Qc) (l : list A) :
  sigma (fun s => (al * F s + be * G s) * (al * F s + be * G s)) l
  = al * al * sigma (fun s => F s * F s) l
    + (al * be + al * be) * sigma (fun s => F s * G s) l
    + be * be * sigma (fun s => G s * G s) l.
Proof.
  induction l as [| s l IH]; [unfold sigma; cbn [map qsum fold_right]; ring |].
  rewrite !sigma_cons, IH. ring.
Qed.

(** When the Gram determinant of [F] and [G] vanishes, the two are
    dependent on the samples, and so are their products with any [H]. *)
Lemma gram_cross {A} (F G H : A -> Qc) (l : list A) :
  sigma (fun s => F s * F s) l * sigma (fun s => G s * G s) l
  - sigma (fun s => F s * G s) l * sigma (fun s => F s * G s) l = 0 ->
  sigma (fun s => F s * G s) l * sigma (fun s => F s * H s) l
  = sigma (fun s => F s * F s) l * sigma (fun s => G s * H s) l.
Proof.
  intros Hdet.
  set (cff := sigma (fun s => F s * F s) l) in *.
  set (cgg := sigma (fun s => G s * G s) l) in *.
  set (cfg := sigma (fun s => F s * G s) l) in *.
  assert (Hall : forall s, In s l -> cfg * F s + (- cff) * G s = 0).
  { apply (sum_squares_zero (fun s => cfg * F s + (- cff) * G s)).
    fold (sigma (fun s => (cfg * F s + (- cff) * G s) * (cfg * F s + (- cff) * G s)) l).
    rewrite sigma_combination_square. fold cff. fold cgg. fold cfg.
    replace (cfg * cfg * cff + (cfg * - cff + cfg * - cff) * cfg + - cff * - cff * cgg)
      with (cff * (cff * cgg - cfg * cfg)) by ring.
    rewrite Hdet. replace (cff * 0) with 0 by ring. apply Qcle_refl. }
  assert (Hsum : sigma (fun s => (cfg * F s + (- cff) * G s) * H s) l = 0).
  { apply sigma_zero. intros s Hs. rewrite (Hall s Hs). ring. }
  rewrite sigma_combination in Hsum.
  transitivity (cfg * sigma (fun s => F s * H s) l
                + - cff * sigma (fun s => G s * H s) l
                + cff * sigma (fun s => G s * H s) l); [ring |].
  rewrite Hsum. ring.
Qed.

Lemma sum_nonneg_zero (u v : Qc) : 0 <= u -> 0 <= v -> u + v = 0 -> u = 0.
Proof.
  intros Hu Hv E. apply Qcle_antisym; [| exact Hu].
  rewrite <- E. replace u with (u + 0) at 1 by ring.
  apply Qcplus_le_compat; [apply Qcle_refl | exact Hv].
Qed.

(** What the model returns, in terms of sums over the samples. *)
Lemma linear_regression_fit_value (S : list (Qc * Qc * Qc)) :
  S <> [] ->
  let mx := sigma feat_x S / qlen S in
  let my := sigma feat_y S / qlen S in
  let mz := sigma target_z S / qlen S in
  let cxx := sigma (fun s => (feat_x s - mx) * (feat_x s - mx)) S in
  let cxy := sigma (fun s => (feat_x s - mx) * (feat_y s - my)) S in
  let cyy := sigma (fun s => (feat_y s - my) * (feat_y s - my)) S in
  let cxz := sigma (fun s => (feat_x s - mx) * (target_z s - mz)) S in
  let cyz := sigma (fun s => (feat_y s - my) * (target_z s - mz)) S in
  let det := cxx * cyy - cxy * cxy in
  let coef_ :=
    if Qc_eq_dec det 0 then
      if Qc_eq_dec (cxx + cyy) 0 then (0, 0)
      else (cxz / (cxx + cyy), cyz / (cxx + cyy))
    else ((cxz * cyy - cyz * cxy) / det, (cyz * cxx - cxz * cxy) / det) in
  linear_regression_fit (map fst S) (map snd S)
  = Return (coef_, mz - (fst coef_ * mx + snd coef_ * my)).
Proof.
  intros Hne mx my mz cxx cxy cyy cxz cyz det coef_.
  unfold linear_regression_fit.
  rewrite !length_map, Nat.eqb_refl.
  destruct S as [| s0 S']; [contradiction |].
  set (S := s0 :: S') in *.
  change (Nat.eqb (List.length S) 0) with false. cbn [negb].
  unfold qmean, qlen. rewrite !length_map, !map_map, !zip_with_map_same.
  fold (qlen S).
  change (qsum (map (fun x => fst (fst x)) S)) with (sigma feat_x S).
  change (qsum (map (fun x => snd (fst x)) S)) with (sigma feat_y S).
  change (qsum (map snd S)) with (sigma target_z S).
  fold mx. fold my. fold mz.
  change (qsum (map (fun s => (fst (fst s) - mx) * (fst (fst s) - mx)) S)) with cxx.
  change (qsum (map (fun s => (fst (fst s) - mx) * (snd (fst s) - my)) S)) with cxy.
  change (qsum (map (fun s => (snd (fst s) - my) * (snd (fst s) - my)) S)) with cyy.
  change (qsum (map (fun s => (fst (fst s) - mx) * (snd s - mz)) S)) with cxz.
  change (qsum (map (fun s => (snd (fst s) - my) * (snd s - mz)) S)) with cyz.
  fold det. reflexivity.
Qed.

(** A solution of the centred normal equations, with the intercept that
    goes with it, is a least-squares solution. *)
Lemma normal_equations_least_squares (S : list (Qc * Qc * Qc)) (a b : Qc) :
  S <> [] ->
  let mx := sigma feat_x S / qlen S in
  let my := sigma feat_y S / qlen S in
  let mz := sigma target_z S / qlen S in
  sigma (fun s => (feat_x s - mx) * (feat_x s - mx)) S * a
  + sigma (fun s => (feat_x s - mx) * (feat_y s - my)) S * b
  = sigma (fun s => (feat_x s - mx) * (target_z s - mz)) S ->
  sigma (fun s => (feat_x s - mx) * (feat_y s - my)) S * a
  + sigma (fun s => (feat_y s - my) * (feat_y s - my)) S * b
  = sigma (fun s => (feat_y s - my) * (target_z s - mz)) S ->
  least_squares S a b (mz - (a * mx + b * my)).
Proof.
  intros HS mx my mz E1 E2.
  set (d := mz - (a * mx + b * my)).
  intros a' b' d'.
  change (sse S a b d)
    with (sigma (fun s => (target_z s - (a * feat_x s + b * feat_y s + d))
                          * (target_z s - (a * feat_x s + b * feat_y s + d))) S).
  change (sse S a' b' d')
    with (sigma (fun s => (target_z s - (a' * feat_x s + b' * feat_y s + d'))
                          * (target_z s - (a' * feat_x s + b' * feat_y s + d'))) S).
  rewrite (sigma_square_shift feat_x feat_y target_z a b d a' b' d' mx my S).
  assert (centred : forall s,
             target_z s - (a * feat_x s + b * feat_y s + d)
             = (target_z s - mz) - a * (feat_x s - mx) - b * (feat_y s - my)).
  { intros s. unfold d. ring. }
  assert (N0 : sigma (fun s => target_z s - (a * feat_x s + b * feat_y s + d)) S = 0).
  { rewrite (sigma_ext _ _ S centred), sigma_residual.
    unfold mz, mx, my. rewrite !sigma_centred_mean by exact HS. ring. }
  assert (N1 : sigma (fun s => (target_z s - (a * feat_x s + b * feat_y s + d))
                               * (feat_x s - mx)) S = 0).
  { rewrite (sigma_ext _ (fun s => ((target_z s - mz) - a * (feat_x s - mx)
                                    - b * (feat_y s - my)) * (feat_x s - mx)) S)
      by (intros s; rewrite centred; reflexivity).
    rewrite sigma_residual_f, <- E1. ring. }
  assert (N2 : sigma (fun s => (target_z s - (a * feat_x s + b * feat_y s + d))
                               * (feat_y s - my)) S = 0).
  { rewrite (sigma_ext _ (fun s => ((target_z s - mz) - a * (feat_x s - mx)
                                    - b * (feat_y s - my)) * (feat_y s - my)) S)
      by (intros s; rewrite centred; reflexivity).
    rewrite sigma_residual_g, <- E2. ring. }
  rewrite N0, N1, N2.
  set (base := sigma (fun s => (target_z s - (a * feat_x s + b * feat_y s + d))
                               * (target_z s - (a * feat_x s + b * feat_y s + d))) S).
  set (extra := sigma (fun s => ((a - a') * feat_x s + (b - b') * feat_y s + (d - d'))
                                * ((a - a') * feat_x s + (b - b') * feat_y s + (d - d'))) S).
  replace (base + qz 2 * ((a - a') * 0 + (b - b') * 0
                          + (d - d' + (a - a') * mx + (b - b') * my) * 0) + extra)
    with (base + extra) by ring.
  replace base with (base + 0) at 1 by ring.
  apply Qcplus_le_compat; [apply Qcle_refl |].
  apply qsum_nonneg, squares_nonneg.
Qed.

(** The model of the regressor returns a least-squares solution on every
    design with at least one sample, of full rank or not. *)
Lemma linear_regression_fit_lstsq : lstsq_contract linear_regression_fit.
Proof.
  intros X y HX Hlen.
  set (S := combine X y).
  assert (EX : X = map fst S) by (symmetry; apply combine_fst, Hlen).
  assert (Ey : y = map snd S) by (symmetry; apply combine_snd, Hlen).
  assert (HS : S <> []).
  { intros E. apply HX. rewrite EX, E. reflexivity. }
  rewrite EX, Ey. rewrite (linear_regression_fit_value HS).
  set (mx := sigma feat_x S / qlen S).
  set (my := sigma feat_y S / qlen S).
  set (mz := sigma target_z S / qlen S).
  set (cxx := sigma (fun s => (feat_x s - mx) * (feat_x s - mx)) S).
  set (cxy := sigma (fun s => (feat_x s - mx) * (feat_y s - my)) S).
  set (cyy := sigma (fun s => (feat_y s - my) * (feat_y s - my)) S).
  set (cxz := sigma (fun s => (feat_x s - mx) * (target_z s - mz)) S).
  set (cyz := sigma (fun s => (feat_y s - my) * (target_z s - mz)) S).
  set (det := cxx * cyy - cxy * cxy).
  assert (Eyx : sigma (fun s => (feat_y s - my) * (feat_x s - mx)) S = cxy).
  { apply sigma_ext. intros s. ring. }
  destruct (Qc_eq_dec det 0) as [Hdet | Hdet].
  - assert (K2 : cxy * cxz = cxx * cyz).
    { exact (gram_cross (fun s => feat_x s - mx) (fun s => feat_y s - my)
                        (fun s => target_z s - mz) S Hdet). }
    assert (K1 : cxy * cyz = cyy * cxz).
    { pose proof (gram_cross (fun s => feat_y s - my) (fun s => feat_x s - mx)
                             (fun s => target_z s - mz) S) as G.
      cbv beta in G. rewrite Eyx in G. apply G. fold cyy. fold cxx.
      rewrite <- Hdet. unfold det. ring. }
    destruct (Qc_eq_dec (cxx + cyy) 0) as [Htr | Htr].
    + exists 0, 0, (mz - (0 * mx + 0 * my)). split; [reflexivity |].
      assert (Hxx : cxx = 0).
      { apply (@sum_nonneg_zero cxx cyy); [| | exact Htr];
          apply qsum_nonneg, squares_nonneg. }
      assert (Hyy : cyy = 0).
      { rewrite Hxx in Htr. rewrite <- Htr. ring. }
      assert (Hx : forall s, In s S -> feat_x s - mx = 0).
      { apply sum_squares_zero. fold (sigma (fun s => (feat_x s - mx) * (feat_x s - mx)) S).
        fold cxx. rewrite Hxx. apply Qcle_refl. }
      assert (Hy : forall s, In s S -> feat_y s - my = 0).
      { apply sum_squares_zero. fold (sigma (fun s => (feat_y s - my) * (feat_y s - my)) S).
        fold cyy. rewrite Hyy. apply Qcle_refl. }
      apply (normal_equations_least_squares HS); fold mx my mz.
      * fold cxx cxy cxz. transitivity 0; [ring |]. symmetry.
        apply sigma_zero. intros s Hs. rewrite (Hx s Hs). ring.
      * fold cxy cyy cyz. transitivity 0; [ring |]. symmetry.
        apply sigma_zero. intros s Hs. rewrite (Hy s Hs). ring.
    + exists (cxz / (cxx + cyy)), (cyz / (cxx + cyy)),
        (mz - (cxz / (cxx + cyy) * mx + cyz / (cxx + cyy) * my)).
      split; [reflexivity |].
      apply (normal_equations_least_squares HS); fold mx my mz.
      * fold cxx cxy cxz.
        transitivity ((cxx * cxz + cxy * cyz) / (cxx + cyy)); [field; exact Htr |].
        rewrite K1. field. exact Htr.
      * fold cxy cyy cyz.
        transitivity ((cxy * cxz + cyy * cyz) / (cxx + cyy)); [field; exact Htr |].
        rewrite K2. field. exact Htr.
  - exists ((cxz * cyy - cyz * cxy) / det), ((cyz * cxx - cxz * cxy) / det),
      (mz - ((cxz * cyy - cyz * cxy) / det * mx + (cyz * cxx - cxz * cxy) / det * my)).
    split; [reflexivity |].
    apply (normal_equations_least_squares HS); fold mx my mz.
    + fold cxx cxy cxz. unfold det. field. exact Hdet.
    + fold cxy cyy cyz. unfold det. field. exact Hdet.
Qed.

(** Adding a dependency of the design columns to the coefficients changes
    no residual. *)
Lemma sse_dependency (pts : list (point Qc)) (a b d al be ga : Qc) :
  (forall p, In p pts -> al * fst (fst p) + be * snd (fst p) + ga = 0) ->
  sse pts (a + al) (b + be) (d + ga) = sse pts a b d.
Proof.
  intros H. unfold sse. f_equal. apply map_ext_in. intros p Hp.
  assert (E : residual (a + al) (b + be) (d + ga) p = residual a b d p).
  { unfold residual.
    transitivity (snd p - (a * fst (fst p) + b * snd (fst p) + d)
                  - (al * fst (fst p) + be * snd (fst p) + ga)); [ring |].
    rewrite (H p Hp). ring. }
  rewrite E. reflexivity.
Qed.

(** The three points on one line are fitted without residual by more than
    one plane. *)
Example collinear_cloud_many_planes :
  least_squares collinear_cloud (qz 5) (qz 0) (qz 5)
  /\ least_squares collinear_cloud (qz 0) (qz 5) (qz 5).
Proof.
  split; intros a' b' d'.
  - replace (sse collinear_cloud (qz 5) (qz 0) (qz 5)) with 0
      by (apply Qc_is_canon; vm_compute; reflexivity).
    apply sse_nonneg.
  - replace (sse collinear_cloud (qz 0) (qz 5) (qz 5)) with 0
      by (apply Qc_is_canon; vm_compute; reflexivity).
    apply sse_nonneg.
Qed.

(** C5, as the code has it: the script tests neither the number of points
    nor their rank, and has no error of its own for a cloud that is too
    small or degenerate.  In exact arithmetic, with a regressor that
    returns a least-squares solution on every design with at least one
    sample, every cloud with at least one point, so also one with fewer
    than three points or with all points on one line, is fitted: a plane
    with [c = -1] is returned whose [(a, b, d)] minimises the sum of
    squared residuals.  On a degenerate cloud that plane is one minimiser
    among many: a dependency [al x + be y + ga = 0] of the design columns
    added to it gives another. *)
Theorem plane_fit_no_validation (fit : regressor Qc) (pts : list (point Qc)) :
  lstsq_contract fit ->
  pts <> [] ->
  exists a b d,
    plane_fit fit pts = Return (mkPlane a b (-1)%Z d)
    /\ least_squares pts a b d
    /\ (forall al be ga,
          (forall p, In p pts -> al * fst (fst p) + be * snd (fst p) + ga = 0) ->
          least_squares pts (a + al) (b + be) (d + ga)).
Proof.
  intros Hfit Hne.
  destruct (Hfit (columns_xy pts) (column_z pts)) as (a & b & d & Efit & Hls).
  - destruct pts; [contradiction | discriminate].
  - apply cloud_columns_length.
  - rewrite samples_of_cloud in Hls.
    exists a, b, d. split; [| split; [exact Hls |]].
    + unfold plane_fit. rewrite Efit. reflexivity.
    + intros al be ga Hdep a' b' d'.
      rewrite (@sse_dependency pts a b d al be ga Hdep). apply Hls.
Qed.

Lemma plane_fit_no_validation_witness :
  exists a b d,
    plane_fit linear_regression_fit two_points = Return (mkPlane a b (-1)%Z d)
    /\ least_squares two_points a b d
    /\ (forall al be ga,
          (forall p, In p two_points -> al * fst (fst p) + be * snd (fst p) + ga = 0) ->
          least_squares two_points (a + al) (b + be) (d + ga)).
Proof.
  apply (@plane_fit_no_validation linear_regression_fit two_points).
  - exact linear_regression_fit_lstsq.
  - discriminate.
Defined.

(* ================================================================= *)
(** * Properties of the estimation job *)

Section JobFacts.
Context {K : Type} {SK : Scalar K}.
Variable Log : Type.
Variable fit : regressor K.

Lemma plane_fit_c (pts : list (point K)) (plane : PlaneEquation K) :
  plane_fit fit pts = Return plane -> plane_c plane = (-1)%Z.
Proof.
  unfold plane_fit.
  destruct (fit (columns_xy pts) (column_z pts)) as [[[a b] d] | e]; cbn.
  - intros [= <-]. reflexivity.
  - discriminate.
Qed.

(** C8, as the code has it: a run of [plane_estimation] that ends without
    an exception returns [None].  The plane it fitted to the aggregate
    cloud, with [c = -1], is printed on the console as the last action, and
    the vertices of the data manager are printed as they are; neither is
    handed to the caller. *)
Theorem plane_estimation_returns_none (config : TrainerConfig K Log)
    (tr tr' : trace (TrainerConfig K Log) Log (message K)) (v : py_value K) :
  plane_estimation fit config tr = (Return v, tr') ->
  v = PyNone
  /\ exists pts plane tr0,
       world_points (expanded_cameras (datamanager config))
                    (surface_detection config)
                    (ray_indices (datamanager config))
                    (transform_matrix (datamanager config))
                    (scale_factor (datamanager config)) = Return pts
       /\ plane_fit fit pts = Return plane
       /\ plane_c plane = (-1)%Z
       /\ tr' = (tr0 ++ final_reports config plane)%list.
Proof.
  unfold plane_estimation, bind.
  destruct (load_checkpoint_state config tr) as [[[] | e] tr0]; [| discriminate].
  destruct (world_points _ _ _ _ _) as [pts | e]; cbn [lift ret raise]; [| discriminate].
  destruct (plane_fit fit pts) as [plane | e] eqn:Efit; cbn [lift ret raise];
    [| discriminate].
  unfold emit, ret. intros [= <- <-]. split; [reflexivity |].
  exists pts, plane, tr0.
  split; [reflexivity |]. split; [exact Efit |].
  split; [exact (plane_fit_c pts Efit) |].
  unfold final_reports. rewrite <- !app_assoc. reflexivity.
Qed.

End JobFacts.

(** ** A run of the job *)

(** C8 fails as stated: the run succeeds and the caller receives [None],
    not a plane with vertices. *)
Lemma plane_estimation_hands_back_none :
  fst (plane_estimation linear_regression_fit small_job []) = Return PyNone
  /\ forall plane v,
       fst (plane_estimation linear_regression_fit small_job [])
       <> Return (PyPlaneAndVertices plane v).
Proof.
  assert (E : fst (plane_estimation linear_regression_fit small_job []) = Return PyNone)
    by (vm_compute; reflexivity).
  split; [exact E |]. intros plane v. rewrite E. discriminate.
Qed.

Lemma plane_estimation_returns_none_witness :
  plane_estimation linear_regression_fit small_job []
  = (Return PyNone, snd (plane_estimation linear_regression_fit small_job []))
  /\ exists pts plane tr0,
       world_points (expanded_cameras (datamanager small_job))
                    (surface_detection small_job)
                    (ray_indices (datamanager small_job))
                    (transform_matrix (datamanager small_job))
                    (scale_factor (datamanager small_job)) = Return pts
       /\ plane_fit linear_regression_fit pts = Return plane
       /\ plane_c plane = (-1)%Z
       /\ snd (plane_estimation linear_regression_fit small_job [])
          = (tr0 ++ final_reports small_job plane)%list.
Proof.
  assert (run : plane_estimation linear_regression_fit small_job []
                = (Return PyNone, snd (plane_estimation linear_regression_fit small_job []))).
  { rewrite (surjective_pairing (plane_estimation linear_regression_fit small_job [])) at 1.
    f_equal. }
  split; [exact run |].
  exact (proj2 (@plane_estimation_returns_none Qc Qc_scalar unit linear_regression_fit
                  small_job [] _ _ run)).
Defined.

(* ================================================================= *)
(** * Further properties of [launch] *)

Local Close Scope Qc_scope.
Local Open Scope list_scope.

Section LaunchMore.
Variables Cfg Log Msg V : Type.
Variable logging_of : Cfg -> Log.

Lemma entry_calls_snoc (tr : trace Cfg Log Msg) (ev : event Cfg Log Msg) :
  entry_calls (tr ++ [ev]) = (entry_calls tr + (if is_call ev then 1 else 0))%nat.
Proof.
  unfold entry_calls. rewrite filter_app, length_app. cbn [filter].
  destruct (is_call ev); reflexivity.
Qed.

Lemma flush_calls_snoc (tr : trace Cfg Log Msg) (ev : event Cfg Log Msg) :
  flush_calls (tr ++ [ev]) = (flush_calls tr + (if is_flush ev then 1 else 0))%nat.
Proof.
  unfold flush_calls. rewrite filter_app, length_app. cbn [filter].
  destruct (is_flush ev); reflexivity.
Qed.

(** X1: outside the single-worker case [launch] does nothing that can be
    observed.  Without a configuration it stops at the assertion, whatever
    the world size (also when it is 0); with a configuration and a world
    size that is neither 0 nor 1, negative sizes included, it returns
    normally.  In both cases the trace is left as it was: the entry point
    is not called and the profiler is not flushed. *)
Theorem launch_idle_outside_single_worker (main_func : Cfg -> M Cfg Log Msg V)
    (ndpm nm rank : Z) (url : string) (config : option Cfg) (timeout : Z)
    (dev : device_type) (tr : trace Cfg Log Msg) :
  config = None \/ ((nm * ndpm)%Z <> 0%Z /\ (nm * ndpm)%Z <> 1%Z) ->
  launch logging_of main_func ndpm nm rank url config timeout dev tr
  = (match config with
     | None => Raise (AssertionError "")
     | Some _ => Return tt
     end, tr).
Proof.
  intros [-> | [H0 H1]]; [reflexivity |].
  destruct config as [c |]; [| reflexivity].
  unfold launch.
  destruct (Z.eqb_spec (nm * ndpm) 0) as [E | _]; [contradiction |].
  destruct (Z.eqb_spec (nm * ndpm) 1) as [E | _]; [contradiction |].
  reflexivity.
Qed.

(** X2: in the single-worker case, whether the entry point returns, raises
    or is interrupted, [launch] calls it exactly once (an interrupted run
    is not tried again) and flushes the profiler exactly once, the entry
    point itself recording neither. *)
Theorem launch_calls_and_flushes_once (main_func : Cfg -> M Cfg Log Msg V)
    (ndpm nm rank : Z) (url : string) (config : Cfg) (timeout : Z)
    (dev : device_type) (tr : trace Cfg Log Msg) :
  (nm * ndpm = 1)%Z ->
  quiet_about_launch main_func ->
  let tr' := snd (launch logging_of main_func ndpm nm rank url (Some config) timeout dev tr) in
  entry_calls tr' = S (entry_calls tr) /\ flush_calls tr' = S (flush_calls tr).
Proof.
  intros Hws Hquiet tr'. subst tr'.
  rewrite launch_single_worker by assumption.
  destruct (Hquiet config (tr ++ [CallEntryPoint config])) as [Hc Hf].
  rewrite entry_calls_snoc in Hc. rewrite flush_calls_snoc in Hf.
  cbn [is_call is_flush] in Hc, Hf.
  destruct (main_func config (tr ++ [CallEntryPoint config])) as [[v | e] tr1];
    cbn [snd] in *.
  - rewrite entry_calls_snoc, flush_calls_snoc. cbn [is_call is_flush]. lia.
  - destruct e; cbn [snd];
      repeat (rewrite ?entry_calls_snoc, ?flush_calls_snoc;
              try change (tr1 ++ [ConsoleTraceback KeyboardInterrupt;
                                   FlushProfiler (logging_of config)])
                with (tr1 ++ [ConsoleTraceback KeyboardInterrupt]
                          ++ [FlushProfiler (logging_of config)]);
              rewrite ?app_assoc);
      cbn [is_call is_flush]; lia.
Qed.

End LaunchMore.

Lemma launch_idle_outside_single_worker_witness :
  launch (fun c : unit => c) quiet_entry (-1) 1 0 "auto" (Some tt) 1800 cuda []
  = (Return tt, []).
Proof.
  refine (@launch_idle_outside_single_worker unit unit unit unit (fun c => c) quiet_entry
           (-1) 1 0 "auto" (Some tt) 1800 cuda [] _).
  right. split; discriminate.
Defined.

Lemma launch_calls_and_flushes_once_witness :
  entry_calls (snd (launch_unit interrupted_entry 1 1)) = 1%nat
  /\ flush_calls (snd (launch_unit interrupted_entry 1 1)) = 1%nat.
Proof.
  refine (@launch_calls_and_flushes_once unit unit unit unit (fun c => c) interrupted_entry
            1 1 0 "auto" tt 1800 cuda [] eq_refl _).
  intros c tr. split; reflexivity.
Defined.

(* ================================================================= *)
(** * Further properties of the checkpoint lookup *)

Local Open Scope Z_scope.

Lemma existsb_eqb_in (x : string) (l : list string) :
  existsb (String.eqb x) l = true <-> In x l.
Proof.
  rewrite existsb_exists. split.
  - intros (y & Hy & E). apply String.eqb_eq in E. subst y. exact Hy.
  - intros H. exists x. split; [exact H | apply String.eqb_refl].
Qed.

Lemma resolve_by_membership (listdir : list string) (step : Z) :
  obind (Return step) (fun load_step =>
    let load_path := checkpoint_name load_step in
    if existsb (String.eqb load_path) listdir then Return load_path
    else Raise (AssertionError ("Checkpoint " ++ load_path ++ " does not exist")%string))
  = if existsb (String.eqb (checkpoint_name step)) listdir
    then Return (checkpoint_name step)
    else Raise (AssertionError ("Checkpoint " ++ checkpoint_name step ++ " does not exist")%string).
Proof. reflexivity. Qed.

(** X3: with an explicit step the names in the directory are not parsed:
    whatever else the directory holds, the resolution gives
    [step-<step as 09d>.ckpt] when that entry exists, and fails the
    existence assertion otherwise. *)
Theorem resolve_explicit_step (listdir : list string) (step : Z) :
  (In (checkpoint_name step) listdir ->
   resolve_load_path listdir (Some step) = Return (checkpoint_name step))
  /\ (~ In (checkpoint_name step) listdir ->
      resolve_load_path listdir (Some step)
      = Raise (AssertionError
                 ("Checkpoint " ++ checkpoint_name step ++ " does not exist")%string)).
Proof.
  unfold resolve_load_path. rewrite resolve_by_membership.
  destruct (existsb (String.eqb (checkpoint_name step)) listdir) eqn:E; split; intros H.
  - reflexivity.
  - exfalso. apply H, existsb_eqb_in, E.
  - apply existsb_eqb_in in H. congruence.
  - reflexivity.
Qed.

Lemma resolve_explicit_step_witness :
  resolve_load_path ["notes.txt"; "step-000000007.ckpt"]%string (Some 7)
  = Return "step-000000007.ckpt"%string.
Proof.
  refine (proj1 (@resolve_explicit_step ["notes.txt"; "step-000000007.ckpt"]%string 7) _).
  right. left. reflexivity.
Defined.

Lemma map_outcome_length {A B} (f : A -> outcome B) (l : list A) (r : list B) :
  map_outcome f l = Return r -> List.length r = List.length l.
Proof.
  revert r. induction l as [| a l IH]; intros r; cbn.
  - intros [= <-]. reflexivity.
  - destruct (f a) as [b | e]; cbn; [| discriminate].
    destruct (map_outcome f l) as [bs | e]; cbn; [| discriminate].
    intros [= <-]. cbn. rewrite (IH bs eq_refl). reflexivity.
Qed.

(** X4: without an explicit step, whatever the names look like as long as
    each one parses (padded or not, any prefix before the dash), the step
    chosen is the largest of the parsed steps, and the path resolved is its
    nine-digit name: found when the directory has that entry, an assertion
    failure otherwise, even though a file of that step exists under a name
    that is not padded. *)
Theorem resolve_latest_parsed (listdir : list string) (steps : list Z) :
  listdir <> [] ->
  map_outcome step_of_name listdir = Return steps ->
  latest_step listdir = Return (list_max steps)
  /\ In (list_max steps) steps
  /\ (In (checkpoint_name (list_max steps)) listdir ->
      resolve_load_path listdir None = Return (checkpoint_name (list_max steps)))
  /\ (~ In (checkpoint_name (list_max steps)) listdir ->
      resolve_load_path listdir None
      = Raise (AssertionError
                 ("Checkpoint " ++ checkpoint_name (list_max steps) ++ " does not exist")%string)).
Proof.
  intros Hne Hparse.
  assert (Hsteps : steps <> []).
  { intros ->. apply map_outcome_length in Hparse. destruct listdir; [contradiction |].
    discriminate Hparse. }
  assert (Hlatest : latest_step listdir = Return (list_max steps)).
  { unfold latest_step. rewrite Hparse. cbn [obind].
    rewrite py_last_last_opt, last_sorted. destruct steps; [contradiction | reflexivity]. }
  split; [exact Hlatest |]. split; [apply list_max_in, Hsteps |].
  unfold resolve_load_path. rewrite Hlatest, resolve_by_membership.
  destruct (existsb (String.eqb (checkpoint_name (list_max steps))) listdir) eqn:E;
    split; intros H.
  - reflexivity.
  - exfalso. apply H, existsb_eqb_in, E.
  - apply existsb_eqb_in in H. congruence.
  - reflexivity.
Qed.

Lemma resolve_latest_parsed_witness :
  resolve_load_path ["step-10.ckpt"; "step-000000005.ckpt"]%string None
  = Raise (AssertionError "Checkpoint step-000000010.ckpt does not exist").
Proof.
  refine (proj2 (proj2 (proj2 (@resolve_latest_parsed
            ["step-10.ckpt"; "step-000000005.ckpt"]%string [10; 5] _ eq_refl))) _).
  - discriminate.
  - intros [H | [H | []]]; discriminate H.
Defined.

Lemma zfill_nonempty (w : nat) (s : string) : (0 < w)%nat -> zfill w s <> EmptyString.
Proof.
  intros Hw E. pose proof (zfill_length w s) as L. rewrite E in L. cbn in L. lia.
Qed.

Lemma step_of_negative_checkpoint_name (z : Z) :
  z < 0 -> step_of_name (checkpoint_name z) = Return z.
Proof.
  intros Hz. unfold step_of_name, checkpoint_name, format_09d.
  destruct (Z.ltb_spec z 0) as [_ | ?]; [| lia].
  set (ds := zfill 8 (decimal (Z.to_N (- z)))).
  assert (Hd : all_digits ds = true) by apply all_digits_zfill.
  assert (Hne : ds <> EmptyString) by (apply zfill_nonempty; lia).
  assert (F1 : py_find "-" ("step-" ++ String "-" ds ++ ".ckpt")%string = 4) by reflexivity.
  assert (F2 : py_find "." ("step-" ++ String "-" ds ++ ".ckpt")%string
               = 6 + Z.of_nat (String.length ds)).
  { unfold py_find. cbn [append py_find_from Ascii.eqb Bool.eqb].
    change ".ckpt"%string with (String "." "ckpt").
    rewrite find_dot_after_digits by assumption. lia. }
  rewrite F1, F2. unfold py_slice.
  assert (L : String.length ("step-" ++ String "-" ds ++ ".ckpt")%string
              = (6 + String.length ds + 5)%nat).
  { cbn [append String.length]. rewrite length_append. cbn. lia. }
  rewrite L. unfold py_clip.
  destruct (Z.ltb_spec (4 + 1) 0) as [? | _]; [lia |].
  destruct (Z.ltb_spec (6 + Z.of_nat (String.length ds)) 0) as [? | _]; [lia |].
  replace (Nat.min (Z.to_nat (4 + 1)) (6 + String.length ds + 5)) with 5%nat by lia.
  replace (Nat.min (Z.to_nat (6 + Z.of_nat (String.length ds))) (6 + String.length ds + 5))
    with (6 + String.length ds)%nat by lia.
  replace (6 + String.length ds - 5)%nat with (S (String.length ds)) by lia.
  cbn [append substring]. rewrite substring_prefix.
  unfold py_int.
  assert (Hl : lstrip (String "-" ds) = String "-" ds) by reflexivity.
  assert (Hr : rstrip (String "-" ds) = String "-" ds).
  { cbn [rstrip]. rewrite (rstrip_digits ds Hd).
    destruct ds; [contradiction | reflexivity]. }
  rewrite Hl, Hr. subst ds. rewrite parse_unsigned_zfill by lia.
  cbn [option_map]. f_equal. lia.
Qed.

(** X5: the name written for a step and the step read from a name are
    inverse to each other: for every integer step, negative ones included
    (where the sign follows the dash), the step read back from
    [step-<step as 09d>.ckpt] is that step. *)
Theorem checkpoint_name_round_trip (z : Z) :
  step_of_name (checkpoint_name z) = Return z.
Proof.
  destruct (Z.lt_ge_cases z 0) as [Hneg | Hpos].
  - apply step_of_negative_checkpoint_name, Hneg.
  - apply step_of_checkpoint_name, Hpos.
Qed.

(** ** The order of the listing does not matter *)

Lemma steps_permutation (l l' : list string) :
  Permutation l l' ->
  match map_outcome step_of_name l, map_outcome step_of_name l' with
  | Return s, Return s' => Permutation s s'
  | Raise _, Raise _ => True
  | _, _ => False
  end.
Proof.
  induction 1 as [| x l l' _ IH | x y l | l l' l'' _ IH1 _ IH2].
  - cbn. constructor.
  - cbn. destruct (step_of_name x); cbn; [| exact I].
    destruct (map_outcome step_of_name l), (map_outcome step_of_name l'); cbn;
      try exact IH. constructor. exact IH.
  - cbn. destruct (step_of_name x), (step_of_name y), (map_outcome step_of_name l);
      cbn; try exact I. apply perm_swap.
  - destruct (map_outcome step_of_name l), (map_outcome step_of_name l'),
      (map_outcome step_of_name l''); try contradiction; try exact I.
    eapply Permutation_trans; eassumption.
Qed.

Lemma list_max_permutation (s s' : list Z) :
  Permutation s s' -> list_max s = list_max s'.
Proof.
  intros P. destruct s as [| h t].
  - apply Permutation_nil in P. subst s'. reflexivity.
  - assert (Hs' : s' <> []).
    { intros ->. apply Permutation_sym, Permutation_nil in P. discriminate P. }
    assert (H1 : In (list_max (h :: t)) s').
    { apply (Permutation_in _ P), list_max_in. discriminate. }
    assert (H2 : In (list_max s') (h :: t)).
    { apply (Permutation_in _ (Permutation_sym P)), list_max_in, Hs'. }
    apply list_max_upper in H1. apply list_max_upper in H2. lia.
Qed.

(** X6: the step chosen does not depend on the order in which the
    directory is listed: for two listings with the same entries,
    [latest_step] gives the same step, or raises for both.  (Which
    exception it raises can depend on the order: it is the one of the
    first name that does not parse.) *)
Theorem latest_step_order_independent (l l' : list string) :
  Permutation l l' ->
  match latest_step l, latest_step l' with
  | Return z, Return z' => z = z'
  | Raise _, Raise _ => True
  | _, _ => False
  end.
Proof.
  intros P. pose proof (steps_permutation P) as H. unfold latest_step.
  destruct (map_outcome step_of_name l) as [s | e] eqn:E,
           (map_outcome step_of_name l') as [s' | e'] eqn:E'; try contradiction.
  - cbn [obind]. rewrite !py_last_last_opt, !last_sorted.
    rewrite (list_max_permutation H).
    destruct s as [| h t], s' as [| h' t']; try reflexivity.
    + apply Permutation_nil in H. discriminate H.
    + apply Permutation_sym, Permutation_nil in H. discriminate H.
  - exact I.
Qed.

Lemma latest_step_order_independent_witness :
  match latest_step ["step-000000005.ckpt"; "step-000000010.ckpt"]%string,
        latest_step ["step-000000010.ckpt"; "step-000000005.ckpt"]%string with
  | Return z, Return z' => z = z'
  | Raise _, Raise _ => True
  | _, _ => False
  end.
Proof.
  apply (@latest_step_order_independent
           ["step-000000005.ckpt"; "step-000000010.ckpt"]%string
           ["step-000000010.ckpt"; "step-000000005.ckpt"]%string).
  apply perm_swap.
Defined.

(** Two names that do not parse: the exception names the first one
    listed. *)
Example latest_step_first_unparsable :
  latest_step ["step-a.ckpt"; "step-b.ckpt"]%string
  = Raise (ValueError "invalid literal for int() with base 10: 'a'")
  /\ latest_step ["step-b.ckpt"; "step-a.ckpt"]%string
     = Raise (ValueError "invalid literal for int() with base 10: 'b'").
Proof. split; reflexivity. Qed.

(* ================================================================= *)
(** * Further properties of the estimation job *)

Local Close Scope Z_scope.

Section JobMore.
Context {K : Type} {SK : Scalar K}.
Variable Log : Type.
Variable fit : regressor K.

Lemma loaded_paths_app (a b : trace (TrainerConfig K Log) Log (message K)) :
  loaded_paths (a ++ b) = loaded_paths a ++ loaded_paths b.
Proof.
  induction a as [| ev a IH]; [reflexivity |].
  destruct ev; cbn; rewrite ?IH; reflexivity.
Qed.

Lemma resolve_load_path_in (listdir : list string) (step : option Z) (p : string) :
  resolve_load_path listdir step = Return p -> In p listdir.
Proof.
  unfold resolve_load_path.
  destruct (match step with Some s => Return s | None => latest_step listdir end)
    as [s | e]; cbn [obind]; [| discriminate].
  destruct (existsb (String.eqb (checkpoint_name s)) listdir) eqn:E; [| discriminate].
  intros [= <-]. apply existsb_eqb_in, E.
Qed.

(** X7: the checkpoint stage hands [torch.load] at most one path, and only
    a path that exists: an entry of [load_dir] when a directory is
    configured (a configured [load_checkpoint] is then not looked at), the
    file [load_checkpoint] otherwise, and only if it exists. *)
Theorem load_checkpoint_only_existing (config : TrainerConfig K Log)
    (tr : trace (TrainerConfig K Log) Log (message K)) :
  exists evs,
    snd (load_checkpoint_state config tr) = tr ++ evs
    /\ List.length (loaded_paths evs) <= 1
    /\ (forall p, In p (loaded_paths evs) ->
          match load_dir config with
          | Some listdir => In p listdir
          | None => load_checkpoint config = Some (p, true)
          end).
Proof.
  unfold load_checkpoint_state.
  destruct (load_dir config) as [listdir |].
  - unfold bind, emit, ret.
    destruct (load_step config) as [s |];
      (destruct (resolve_load_path listdir _) as [p | e] eqn:R; cbn [lift ret raise fst snd];
       [ apply resolve_load_path_in in R;
         eexists; split; [rewrite <- !app_assoc; reflexivity |];
         cbn; split; [lia |];
         intros q [<- | []]; exact R
       | eexists; split; [rewrite <- ?app_assoc; reflexivity || (symmetry; apply app_nil_r) |];
         cbn; split; [lia |]; intros q [] ]).
  - destruct (load_checkpoint config) as [[path path_exists] |].
    + unfold bind, py_assert, emit, ret, raise. destruct path_exists; cbn [fst snd].
      * eexists. split; [rewrite <- !app_assoc; reflexivity |].
        cbn. split; [lia |]. intros q [<- | []]; reflexivity.
      * exists []. split; [symmetry; apply app_nil_r |].
        cbn. split; [lia |]. intros q [].
    + unfold emit. cbn [fst snd]. eexists. split; [reflexivity |].
      cbn. split; [lia |]. intros q [].
Qed.

(** X8: an exception of the checkpoint stage, of the camera loop or of the
    fit is not handled by [plane_estimation]: the run raises that
    exception, and stops there, without a report of its own (no vertices,
    no plot, no plane equation): its trace is the one the checkpoint stage
    left. *)
Theorem plane_estimation_failure_reports_nothing (config : TrainerConfig K Log)
    (tr : trace (TrainerConfig K Log) Log (message K)) (e : exn) :
  fst (load_checkpoint_state config tr) = Raise e
  \/ (fst (load_checkpoint_state config tr) = Return tt
      /\ (world_points (expanded_cameras (datamanager config))
                       (surface_detection config)
                       (ray_indices (datamanager config))
                       (transform_matrix (datamanager config))
                       (scale_factor (datamanager config)) = Raise e
          \/ exists pts,
               world_points (expanded_cameras (datamanager config))
                            (surface_detection config)
                            (ray_indices (datamanager config))
                            (transform_matrix (datamanager config))
                            (scale_factor (datamanager config)) = Return pts
               /\ plane_fit fit pts = Raise e)) ->
  plane_estimation fit config tr
  = (Raise e, snd (load_checkpoint_state config tr)).
Proof.
  unfold plane_estimation, bind.
  destruct (load_checkpoint_state config tr) as [[[] | e0] tr0]; cbn [fst snd].
  - intros [H | [_ [H | (pts & Hw & Hf)]]].
    + discriminate H.
    + rewrite H. reflexivity.
    + rewrite Hw. cbn [lift ret]. rewrite Hf. reflexivity.
  - intros [H | [H _]]; [| discriminate H].
    injection H as ->. reflexivity.
Qed.

End JobMore.

(* ================================================================= *)
(** * Further properties of the back-projection *)

Section BackProjectionMore.
Context {K : Type} {SK : Scalar K}.

Lemma broadcast2_length (op : K -> K -> K) (a b l : list K) :
  broadcast2 op a b = Return l ->
  List.length l
  = if (Nat.eqb (List.length a) (List.length b) || Nat.eqb (List.length a) 1)%bool
    then List.length b else List.length a.
Proof.
  unfold broadcast2.
  destruct (Nat.eqb (List.length a) (List.length b)) eqn:E; cbn [orb].
  - intros [= <-]. apply zip_with_length, Nat.eqb_eq, E.
  - destruct a as [| x [| x' a]].
    + destruct b as [| y [| y' b]]; try discriminate.
      intros [= <-]. reflexivity.
    + intros [= <-]. cbn [List.length Nat.eqb]. apply length_map.
    + destruct b as [| y [| y' b]]; try discriminate.
      intros [= <-]. cbn [List.length Nat.eqb map]. rewrite length_map. reflexivity.
Qed.

Lemma broadcast2_returns (op : K -> K -> K) (a b : list K) :
  (Nat.eqb (List.length a) (List.length b) || Nat.eqb (List.length a) 1)%bool = true ->
  exists l, broadcast2 op a b = Return l.
Proof.
  unfold broadcast2.
  destruct (Nat.eqb (List.length a) (List.length b)); cbn [orb]; [eexists; reflexivity |].
  destruct a as [| x [| x' a]]; cbn [List.length Nat.eqb]; try discriminate.
  intros _. eexists. reflexivity.
Qed.

Lemma broadcast2_raises (op : K -> K -> K) (a b : list K) (e : exn) :
  broadcast2 op a b = Raise e -> exists msg, e = RuntimeError msg.
Proof.
  unfold broadcast2. destruct (Nat.eqb _ _); [discriminate |].
  destruct a as [| x [| x' a]]; destruct b as [| y [| y' b]]; try discriminate;
    intros [= <-]; eexists; reflexivity.
Qed.

Lemma stack4_outcome (X Y Z : list K) :
  if (Nat.eqb (List.length X) (List.length Y) && Nat.eqb (List.length X) (List.length Z))%bool
  then exists l, stack4 X Y Z = Return l /\ List.length l = List.length Z
  else exists msg, stack4 X Y Z = Raise (RuntimeError msg).
Proof.
  unfold stack4.
  destruct (Nat.eqb (List.length X) (List.length Y)) eqn:E1;
    destruct (Nat.eqb (List.length X) (List.length Z)) eqn:E2; cbn [andb];
    try (eexists; reflexivity).
  apply Nat.eqb_eq in E1, E2. eexists. split; [reflexivity |].
  rewrite length_map, !length_combine. lia.
Qed.

(** X9: which shapes the loop body accepts.  It goes through exactly when
    the pixel columns and the pixel rows each have as many entries as there
    are depths, or a single entry (which torch broadcasts); it then gives
    one point per depth.  With any other lengths it raises [RuntimeError]. *)
Theorem back_project_camera_shape_contract (cam : Camera K) (depth : list K)
    (cam_idx cols rows : list Z) (T : affine K) (s : K) :
  if shapes_agree (List.length cols) (List.length rows) (List.length depth)
  then exists pts,
         back_project_camera cam depth (mkRayIndex cam_idx rows cols) T s = Return pts
         /\ List.length pts = List.length depth
  else exists msg,
         back_project_camera cam depth (mkRayIndex cam_idx rows cols) T s
         = Raise (RuntimeError msg).
Proof.
  unfold shapes_agree, back_project_camera. cbn [ray_row ray_col].
  set (xs := map (fun xi => s_sub (s_of_Z xi) (cx cam)) cols).
  set (ys := map (fun yi => s_sub (s_of_Z yi) (cy cam)) rows).
  assert (Lx : List.length xs = List.length cols) by apply length_map.
  assert (Ly : List.length ys = List.length rows) by apply length_map.
  rewrite <- Lx, <- Ly.
  destruct (broadcast2 s_mul xs depth) as [xd | e] eqn:Bx.
  2:{ destruct (broadcast2_raises _ _ _ Bx) as [msg ->].
      destruct (Nat.eqb (List.length xs) (List.length depth)
                || Nat.eqb (List.length xs) 1)%bool eqn:Ex.
      - destruct (broadcast2_returns s_mul xs depth Ex) as [l El]. congruence.
      - cbn [andb obind]. eexists. reflexivity. }
  cbn [obind].
  destruct (broadcast2 s_mul ys depth) as [yd | e] eqn:By.
  2:{ destruct (broadcast2_raises _ _ _ By) as [msg ->].
      destruct (Nat.eqb (List.length ys) (List.length depth)
                || Nat.eqb (List.length ys) 1)%bool eqn:Ey.
      - destruct (broadcast2_returns s_mul ys depth Ey) as [l El]. congruence.
      - rewrite andb_false_r. cbn [obind]. eexists. reflexivity. }
  cbn [obind].
  apply broadcast2_length in Bx, By.
  pose proof (stack4_outcome (map (fun v => s_div v (fx cam)) xd)
                             (map (fun v => s_div v (fy cam)) yd) depth) as St.
  rewrite !length_map in St.
  destruct (Nat.eqb (List.length xs) (List.length depth)
            || Nat.eqb (List.length xs) 1)%bool eqn:Ex;
    destruct (Nat.eqb (List.length ys) (List.length depth)
              || Nat.eqb (List.length ys) 1)%bool eqn:Ey; cbn [andb].
  - rewrite Bx, By, !Nat.eqb_refl in St. cbn [andb] in St.
    destruct St as (l & -> & Ll). cbn [obind]. eexists. split; [reflexivity |].
    rewrite !length_map. exact Ll.
  - apply orb_false_iff in Ey as [Ey _]. rewrite Bx, By in St.
    rewrite (Nat.eqb_sym (List.length depth)), Ey in St. cbn [andb] in St.
    destruct St as (msg & ->). eexists. reflexivity.
  - apply orb_false_iff in Ex as [Ex _]. rewrite Bx in St.
    rewrite Ex, andb_false_r in St.
    destruct St as (msg & ->). eexists. reflexivity.
  - apply orb_false_iff in Ex as [Ex _]. rewrite Bx in St.
    rewrite Ex, andb_false_r in St.
    destruct St as (msg & ->). eexists. reflexivity.
Qed.

End BackProjectionMore.

Lemma back_project_camera_shape_contract_witness :
  exists pts,
    back_project_camera unit_camera32 (map f32 [5; 6; 7]%Z) one_ray identity4 s_one
    = Return pts
    /\ List.length pts = 3.
Proof.
  exact (@back_project_camera_shape_contract binary32 binary32_scalar unit_camera32
           (map f32 [5; 6; 7]%Z) [0%Z] [2%Z] [3%Z] identity4 s_one).
Defined.

Section CameraLoopFacts.
Context {K : Type} {SK : Scalar K}.
Variables (T : affine K) (s : K).

(** The loop appends the outcomes of its iterations and stops at the first
    that raises. *)
Lemma camera_loop_outcomes (C : list (Camera K)) (O : list (list K)) (R : list RayIndex)
    (range : list nat) (acc : list (list (point K))) :
  camera_loop C O R T s range acc
  = obind (map_outcome (camera_outcome C O R T s) range) (fun l => Return (acc ++ l)).
Proof.
  revert acc. induction range as [| i range IH]; intros acc.
  - cbn. rewrite app_nil_r. reflexivity.
  - cbn [camera_loop map_outcome]. unfold camera_outcome at 1.
    destruct (py_index C i) as [cam | e]; [| reflexivity]. cbn [obind].
    destruct (py_index O i) as [depth | e]; [| reflexivity]. cbn [obind].
    destruct (py_index R i) as [rays | e]; [| reflexivity]. cbn [obind].
    destruct (back_project_camera cam depth rays T s) as [pts | e]; [| reflexivity].
    cbn [obind]. rewrite IH.
    destruct (map_outcome (camera_outcome C O R T s) range) as [l | e]; [| reflexivity].
    cbn [obind]. rewrite <- app_assoc. reflexivity.
Qed.

Lemma map_outcome_app {A B} (f : A -> outcome B) (l1 l2 : list A) :
  map_outcome f (l1 ++ l2)
  = obind (map_outcome f l1) (fun r1 =>
    obind (map_outcome f l2) (fun r2 => Return (r1 ++ r2))).
Proof.
  induction l1 as [| a l1 IH]; cbn.
  - destruct (map_outcome f l2); reflexivity.
  - destruct (f a) as [b | e]; [| reflexivity]. cbn [obind]. rewrite IH.
    destruct (map_outcome f l1) as [r1 | e]; [| reflexivity]. cbn [obind].
    destruct (map_outcome f l2); reflexivity.
Qed.

Lemma map_outcome_all_return {A B} (f : A -> outcome B) (l : list A) :
  (forall a, In a l -> exists b, f a = Return b) ->
  exists r, map_outcome f l = Return r.
Proof.
  induction l as [| a l IH]; intros H; [eexists; reflexivity |].
  destruct (H a (or_introl eq_refl)) as [b Eb].
  destruct IH as [r Er]; [intros a' Ha'; apply H; right; exact Ha' |].
  exists (b :: r). cbn. rewrite Eb. cbn. rewrite Er. reflexivity.
Qed.

Lemma view_outcome (pre : list (view K)) (v : view K) (post : list (view K)) :
  view_well_shaped v ->
  camera_outcome (map (fun w : view K => fst (fst w)) (pre ++ v :: post))
                 (map (fun w : view K => snd (fst w)) (pre ++ v :: post))
                 (map (fun w : view K => snd w) (pre ++ v :: post))
                 T s (List.length pre)
  = Return (view_points T s v).
Proof.
  intros [Hc Hr]. unfold camera_outcome, py_index.
  rewrite !map_app. cbn [map].
  rewrite !nth_error_app2 by (rewrite length_map; lia).
  rewrite !length_map, Nat.sub_diag. cbn [nth_error obind].
  destruct v as [[cam depth] [ci rows cols]]. cbn [fst snd ray_col ray_row] in *.
  apply back_project_camera_samples; assumption.
Qed.

Lemma views_outcomes (pre views : list (view K)) :
  Forall view_well_shaped views ->
  map_outcome (camera_outcome (map (fun w : view K => fst (fst w)) (pre ++ views))
                              (map (fun w : view K => snd (fst w)) (pre ++ views))
                              (map (fun w : view K => snd w) (pre ++ views))
                              T s)
              (seq (List.length pre) (List.length views))
  = Return (map (view_points T s) views).
Proof.
  intros H. revert pre. induction H as [| v views Hv _ IH]; intros pre; [reflexivity |].
  cbn [List.length seq map_outcome map].
  rewrite (@view_outcome pre v views Hv). cbn [obind].
  specialize (IH (pre ++ [v])).
  rewrite <- app_assoc, length_app in IH. cbn [app List.length] in IH.
  rewrite Nat.add_1_r in IH. rewrite IH. reflexivity.
Qed.

(** X10: for any number of cameras, each with one pixel row and column per
    depth, the aggregate cloud is the per-camera clouds one after the other
    in camera order, and its size is the sum of the per-camera sample
    counts; without any camera the concatenation raises [ValueError]. *)
Theorem world_points_concatenates (views : list (view K)) :
  Forall view_well_shaped views ->
  world_points (map (fun w : view K => fst (fst w)) views)
               (map (fun w : view K => snd (fst w)) views)
               (map (fun w : view K => snd w) views) T s
  = match views with
    | [] => Raise (ValueError "need at least one array to concatenate")
    | _ => Return (List.concat (map (view_points T s) views))
    end
  /\ List.length (List.concat (map (view_points T s) views))
     = list_sum (map (fun w : view K => List.length (snd (fst w))) views).
Proof.
  intros H. split.
  - unfold world_points. rewrite !length_map, Nat.eqb_refl, camera_loop_outcomes.
    pose proof (views_outcomes [] H) as E. cbn [app List.length] in E.
    rewrite E. cbn [obind app].
    destruct views as [| v views]; reflexivity.
  - induction H as [| v views [Hc Hr] _ IH]; [reflexivity |].
    cbn [map List.concat]. rewrite length_app, IH.
    unfold view_points at 1. rewrite back_project_samples_length by assumption.
    reflexivity.
Qed.

(** X11: a failing camera aborts the whole job with its own exception:
    when the iterations before [k] go through and iteration [k] raises [e]
    (a missing entry of the ray indices, or arrays that do not fit), the
    camera loop raises [e] and no cloud is produced. *)
Theorem world_points_first_failure (C : list (Camera K)) (O : list (list K))
    (R : list RayIndex) (k : nat) (e : exn) :
  List.length C = List.length O ->
  k < List.length C ->
  (forall i, i < k -> exists pts, camera_outcome C O R T s i = Return pts) ->
  camera_outcome C O R T s k = Raise e ->
  world_points C O R T s = Raise e.
Proof.
  intros HL Hk Hbefore Hfail. unfold world_points.
  rewrite HL, Nat.eqb_refl, camera_loop_outcomes. rewrite <- HL.
  replace (List.length C) with (k + S (List.length C - S k)) by lia.
  rewrite seq_app, map_outcome_app. cbn [seq map_outcome Nat.add].
  destruct (map_outcome_all_return (camera_outcome C O R T s) (seq 0 k)) as [r Er].
  { intros i Hi. apply in_seq in Hi. apply Hbefore. lia. }
  rewrite Er. cbn [obind]. rewrite Hfail. reflexivity.
Qed.

End CameraLoopFacts.

Lemma world_points_concatenates_witness :
  world_points [unit_camera; unit_camera] [four_depths_a; four_depths_b]
               [four_rays_a; four_rays_b] identity4 (qz 2)
  = Return (List.concat (map (view_points identity4 (qz 2)) two_views))
  /\ List.length (List.concat (map (view_points identity4 (qz 2)) two_views))
     = list_sum [4; 4].
Proof.
  refine (@world_points_concatenates Qc Qc_scalar identity4 (qz 2) two_views _).
  repeat constructor.
Defined.

Lemma world_points_first_failure_witness :
  world_points [unit_camera; unit_camera] [four_depths_a; four_depths_b]
               [four_rays_a] identity4 (qz 2)
  = Raise (IndexError "list index out of range").
Proof.
  refine (@world_points_first_failure Qc Qc_scalar identity4 (qz 2)
            [unit_camera; unit_camera] [four_depths_a; four_depths_b] [four_rays_a]
            1 (IndexError "list index out of range") eq_refl _ _ eq_refl).
  - apply Nat.lt_succ_diag_r.
  - intros i Hi. destruct i as [| i].
    + eexists. reflexivity.
    + exfalso. inversion Hi as [| m Hm]. inversion Hm.
Defined.

(** ** The scale factor, in exact arithmetic *)

Local Open Scope Qc_scope.

Lemma back_project_camera_scale (cam : Camera Qc) (depth : list Qc) (rays : RayIndex)
    (T : affine Qc) (s : Qc) :
  back_project_camera cam depth rays T s
  = outcome_map (map (scale_point s)) (back_project_camera cam depth rays T 1).
Proof.
  unfold back_project_camera.
  destruct (broadcast2 _ _ depth) as [xd | e]; [| reflexivity]. cbn [obind].
  destruct (broadcast2 _ _ depth) as [yd | e]; [| reflexivity]. cbn [obind].
  destruct (stack4 _ _ depth) as [xyz | e]; [| reflexivity]. cbn [obind outcome_map].
  apply (f_equal (@Return (list (point Qc)))).
  rewrite !map_map. apply map_ext. intros p.
  unfold scale_point. qc_ops. apply point_ext; ring.
Qed.

Lemma camera_outcome_scale (C : list (Camera Qc)) (O : list (list Qc)) (R : list RayIndex)
    (T : affine Qc) (s : Qc) (i : nat) :
  camera_outcome C O R T s i
  = outcome_map (map (scale_point s)) (camera_outcome C O R T 1 i).
Proof.
  unfold camera_outcome.
  destruct (py_index C i) as [cam | e]; [| reflexivity]. cbn [obind].
  destruct (py_index O i) as [depth | e]; [| reflexivity]. cbn [obind].
  destruct (py_index R i) as [rays | e]; [| reflexivity]. cbn [obind].
  apply back_project_camera_scale.
Qed.

Lemma map_outcome_map {A B} (f f' : A -> outcome B) (g : B -> B) (l : list A) :
  (forall a, f a = outcome_map g (f' a)) ->
  map_outcome f l = outcome_map (map g) (map_outcome f' l).
Proof.
  intros H. induction l as [| a l IH]; [reflexivity |].
  cbn [map_outcome]. rewrite H, IH.
  destruct (f' a) as [b | e]; [| reflexivity]. cbn [outcome_map obind].
  destruct (map_outcome f' l) as [bs | e]; reflexivity.
Qed.

(** X12: the aggregate cloud is homogeneous of degree one in the scale
    factor, for any cameras, matrices and samples: the run with scale
    factor [s] gives the points of the run with scale factor 1 multiplied
    by [s], and it fails exactly when that run fails, with the same
    exception. *)
Theorem world_points_scale (C : list (Camera Qc)) (O : list (list Qc))
    (R : list RayIndex) (T : affine Qc) (s : Qc) :
  world_points C O R T s
  = outcome_map (map (scale_point s)) (world_points C O R T 1).
Proof.
  unfold world_points.
  destruct (Nat.eqb (List.length C) (List.length O)); [| reflexivity].
  rewrite !camera_loop_outcomes.
  rewrite (map_outcome_map (camera_outcome C O R T s) (camera_outcome C O R T 1)
             (map (scale_point s)) (seq 0 (List.length C))
             (camera_outcome_scale C O R T s)).
  destruct (map_outcome (camera_outcome C O R T 1) (seq 0 (List.length C))) as [l | e];
    [| reflexivity].
  cbn [outcome_map obind app]. unfold np_concatenate.
  destruct l as [| p l]; [reflexivity |].
  cbn [map outcome_map]. f_equal.
  change (map (scale_point s) p :: map (map (scale_point s)) l)
    with (map (map (scale_point s)) (p :: l)).
  symmetry. apply concat_map.
Qed.

(* ================================================================= *)
(** * Further properties of the plane fit *)

Lemma sse_sigma (pts : list (Qc * Qc * Qc)) (a b d : Qc) :
  sse pts a b d
  = sigma (fun p => (target_z p - (a * feat_x p + b * feat_y p + d))
                    * (target_z p - (a * feat_x p + b * feat_y p + d))) pts.
Proof. reflexivity. Qed.

(** The parallelogram identity for the residuals of two candidates and of
    the candidate half-way between them. *)
Lemma sse_midpoint (pts : list (Qc * Qc * Qc)) (a b d am bm dm : Qc) :
  (1 + 1) * (1 + 1) * sse pts am bm dm
  + sigma (fun p => ((a - (am + am - a)) * feat_x p + (b - (bm + bm - b)) * feat_y p
                     + (d - (dm + dm - d)))
                    * ((a - (am + am - a)) * feat_x p + (b - (bm + bm - b)) * feat_y p
                       + (d - (dm + dm - d)))) pts
  = (1 + 1) * sse pts a b d
    + (1 + 1) * sse pts (am + am - a) (bm + bm - b) (dm + dm - d).
Proof.
  rewrite !sse_sigma.
  induction pts as [| p pts IH]; [unfold sigma; cbn [map qsum fold_right]; ring |].
  rewrite !sigma_cons.
  match goal with
  | |- ?c * (?r0 + ?S0) + (?e0 + ?S1) = ?k * (?r1 + ?S2) + ?k * (?r2 + ?S3) =>
      replace (c * (r0 + S0) + (e0 + S1)) with ((c * S0 + S1) + (c * r0 + e0)) by ring;
      replace (k * (r1 + S2) + k * (r2 + S3)) with ((k * S2 + k * S3) + (k * r1 + k * r2))
        by ring
  end.
  rewrite IH. f_equal. ring.
Qed.

Lemma half_sum (a a' : Qc) : (a + a') / (1 + 1) + (a + a') / (1 + 1) - a = a'.
Proof. field. discriminate. Qed.

(** On a cloud of full rank the least-squares solution is unique. *)
Lemma least_squares_unique (pts : list (point Qc)) (a b d a' b' d' : Qc) :
  full_rank (columns_xy pts) ->
  least_squares pts a b d -> least_squares pts a' b' d' ->
  a = a' /\ b = b' /\ d = d'.
Proof.
  intros Hrank H1 H2.
  set (am := (a + a') / (1 + 1)). set (bm := (b + b') / (1 + 1)).
  set (dm := (d + d') / (1 + 1)).
  pose proof (sse_midpoint pts a b d am bm dm) as Mid.
  unfold am, bm, dm in Mid. rewrite !half_sum in Mid. fold am bm dm in Mid.
  assert (Em : sse pts a' b' d' = sse pts a b d).
  { apply Qcle_antisym; [apply H2 | apply H1]. }
  rewrite Em in Mid.
  set (E := sigma (fun p => ((a - a') * feat_x p + (b - b') * feat_y p + (d - d'))
                            * ((a - a') * feat_x p + (b - b') * feat_y p + (d - d'))) pts)
    in *.
  assert (HE : E <= 0).
  { apply (proj2 (Qcle_minus_iff E 0)).
    replace (0 + - E)
      with ((sse pts am bm dm + - sse pts a b d) * ((1 + 1) * (1 + 1))).
    - replace 0 with (0 * ((1 + 1) * (1 + 1))) at 1 by ring.
      apply Qcmult_le_compat_r; [| apply Qc_square_nonneg].
      apply (proj1 (Qcle_minus_iff _ _)), H1.
    - transitivity ((1 + 1) * (1 + 1) * sse pts am bm dm + E
                    - (1 + 1) * (1 + 1) * sse pts a b d - E); [ring |].
      rewrite Mid. ring. }
  assert (Hall : forall p, In p pts ->
                   (a - a') * feat_x p + (b - b') * feat_y p + (d - d') = 0).
  { apply sum_squares_zero. exact HE. }
  destruct (Hrank (a - a') (b - b') (d - d')) as (Ea & Eb & Ed).
  { intros xy Hxy. unfold columns_xy in Hxy.
    apply in_map_iff in Hxy as (p & <- & Hp). exact (Hall p Hp). }
  repeat split.
  - transitivity (a - a' + a'); [ring | rewrite Ea; ring].
  - transitivity (b - b' + b'); [ring | rewrite Eb; ring].
  - transitivity (d - d' + d'); [ring | rewrite Ed; ring].
Qed.

Lemma sse_on_plane (pts : list (point Qc)) (A B D : Qc) :
  (forall p, In p pts -> snd p = A * fst (fst p) + B * snd (fst p) + D) ->
  sse pts A B D = 0.
Proof.
  induction pts as [| p pts IH]; intros H; [reflexivity |].
  change (sse (p :: pts) A B D)
    with (residual A B D p * residual A B D p + sse pts A B D).
  rewrite IH by (intros q Hq; apply H; right; exact Hq).
  unfold residual. rewrite (H p (or_introl eq_refl)). ring.
Qed.

Lemma plane_fit_of_contract (fit : regressor Qc) (pts : list (point Qc)) :
  ols_contract fit -> full_rank (columns_xy pts) ->
  exists a b d,
    plane_fit fit pts = Return (mkPlane a b (-1)%Z d) /\ least_squares pts a b d.
Proof.
  intros Hfit Hrank.
  destruct (Hfit (columns_xy pts) (column_z pts) (cloud_columns_length pts) Hrank)
    as (a & b & d & Efit & Hls).
  rewrite samples_of_cloud in Hls.
  exists a, b, d. split; [| exact Hls].
  unfold plane_fit. rewrite Efit. reflexivity.
Qed.

(** X13: the fit recovers any plane that is not vertical.  For a regressor
    that honours the least-squares contract and a cloud of full rank whose
    points all satisfy [z = A x + B y + D], the fit returns exactly
    [(A, B, -1, D)]. *)
Theorem plane_fit_recovers_plane (fit : regressor Qc) (pts : list (point Qc))
    (A B D : Qc) :
  ols_contract fit ->
  full_rank (columns_xy pts) ->
  (forall p, In p pts -> snd p = A * fst (fst p) + B * snd (fst p) + D) ->
  plane_fit fit pts = Return (mkPlane A B (-1)%Z D).
Proof.
  intros Hfit Hrank Hplane.
  destruct (plane_fit_of_contract pts Hfit Hrank) as (a & b & d & E & Hls).
  assert (Hexact : least_squares pts A B D).
  { intros a' b' d'. rewrite (sse_on_plane pts Hplane). apply sse_nonneg. }
  destruct (least_squares_unique Hrank Hls Hexact) as (-> & -> & ->).
  exact E.
Qed.

Lemma qsum_permutation (l l' : list Qc) : Permutation l l' -> qsum l = qsum l'.
Proof.
  unfold qsum.
  induction 1 as [| x l l' _ IH | x y l | l l' l'' _ IH1 _ IH2]; cbn [fold_right].
  - reflexivity.
  - rewrite IH. reflexivity.
  - ring.
  - congruence.
Qed.

Lemma sse_permutation (pts pts' : list (point Qc)) (a b d : Qc) :
  Permutation pts pts' -> sse pts a b d = sse pts' a b d.
Proof. intros P. unfold sse. apply qsum_permutation, Permutation_map, P. Qed.

Lemma full_rank_permutation (pts pts' : list (point Qc)) :
  Permutation pts pts' -> full_rank (columns_xy pts) -> full_rank (columns_xy pts').
Proof.
  intros P Hrank al be ga H. apply Hrank. intros p Hp. apply H.
  unfold columns_xy in *. exact (Permutation_in _ (Permutation_map _ P) Hp).
Qed.

(** X14: the order of the points does not matter.  For a regressor that
    honours the least-squares contract and a cloud of full rank, the fit of
    any rearrangement of the cloud (the cameras taken in another order, for
    one) is the same plane. *)
Theorem plane_fit_order_independent (fit : regressor Qc) (pts pts' : list (point Qc)) :
  ols_contract fit ->
  full_rank (columns_xy pts) ->
  Permutation pts pts' ->
  plane_fit fit pts' = plane_fit fit pts.
Proof.
  intros Hfit Hrank P.
  pose proof (full_rank_permutation P Hrank) as Hrank'.
  destruct (plane_fit_of_contract pts Hfit Hrank) as (a & b & d & E & Hls).
  destruct (plane_fit_of_contract pts' Hfit Hrank') as (a' & b' & d' & E' & Hls').
  assert (Hls2 : least_squares pts a' b' d').
  { intros a2 b2 d2. rewrite !(sse_permutation _ _ _ P). apply Hls'. }
  destruct (least_squares_unique Hrank Hls Hls2) as (-> & -> & ->).
  rewrite E, E'. reflexivity.
Qed.

Lemma sse_scaled (pts : list (point Qc)) (s a b d : Qc) :
  sse (map (scale_point s) pts) a b (s * d) = s * s * sse pts a b d.
Proof.
  induction pts as [| p pts IH]; [unfold sse; cbn [map qsum fold_right]; ring |].
  change (sse (map (scale_point s) (p :: pts)) a b (s * d))
    with (residual a b (s * d) (scale_point s p) * residual a b (s * d) (scale_point s p)
          + sse (map (scale_point s) pts) a b (s * d)).
  change (sse (p :: pts) a b d)
    with (residual a b d p * residual a b d p + sse pts a b d).
  rewrite IH. unfold residual, scale_point. cbn [fst snd]. ring.
Qed.

Lemma full_rank_scaled (pts : list (point Qc)) (s : Qc) :
  s <> 0 -> full_rank (columns_xy pts) ->
  full_rank (columns_xy (map (scale_point s) pts)).
Proof.
  intros Hs Hrank al be ga H.
  destruct (Hrank (al * s) (be * s) ga) as (Ea & Eb & Eg).
  - intros xy Hxy. unfold columns_xy in Hxy.
    apply in_map_iff in Hxy as (p & <- & Hp).
    specialize (H (fst (scale_point s p))).
    rewrite <- H.
    + unfold scale_point. cbn [fst snd]. ring.
    + unfold columns_xy. rewrite map_map. apply in_map_iff. exists p. split; [reflexivity | exact Hp].
  - repeat split; [| | exact Eg].
    + destruct (Qcmult_integral _ _ Ea) as [E | E]; [exact E | contradiction].
    + destruct (Qcmult_integral _ _ Eb) as [E | E]; [exact E | contradiction].
Qed.

(** X15: what the scale factor does to the plane.  For a regressor that
    honours the least-squares contract, a cloud of full rank and a scale
    [s] other than zero: when the cloud is fitted by [(a, b, -1, d)], the
    cloud with every coordinate multiplied by [s] is fitted by
    [(a, b, -1, s d)]: the slopes stay, the offset is scaled. *)
Theorem plane_fit_scaled_cloud (fit : regressor Qc) (pts : list (point Qc))
    (s a b d : Qc) :
  ols_contract fit ->
  full_rank (columns_xy pts) ->
  s <> 0 ->
  plane_fit fit pts = Return (mkPlane a b (-1)%Z d) ->
  plane_fit fit (map (scale_point s) pts) = Return (mkPlane a b (-1)%Z (s * d)).
Proof.
  intros Hfit Hrank Hs Efit.
  destruct (plane_fit_of_contract pts Hfit Hrank) as (a0 & b0 & d0 & E0 & Hls).
  rewrite Efit in E0. injection E0 as <- <- <-.
  pose proof (@full_rank_scaled pts s Hs Hrank) as Hrank'.
  destruct (plane_fit_of_contract (map (scale_point s) pts) Hfit Hrank')
    as (a' & b' & d' & E' & Hls').
  assert (Hscaled : least_squares (map (scale_point s) pts) a b (s * d)).
  { intros a2 b2 d2.
    replace d2 with (s * (d2 / s)) by (field; exact Hs).
    rewrite !sse_scaled, !(Qcmult_comm (s * s)).
    apply Qcmult_le_compat_r; [apply Hls | apply Qc_square_nonneg]. }
  destruct (least_squares_unique Hrank' Hls' Hscaled) as (-> & -> & ->).
  exact E'.
Qed.

(** ** Runs of the fit for the further properties *)

Lemma canonical_rational (q : Qc) : Q2Qc (this q) = q.
Proof. apply Qc_is_canon. cbn [this Q2Qc]. apply Qred_correct. Qed.

Lemma outcome_of_coefficients (o : outcome (PlaneEquation Qc)) (a b d : Q) (c : Z) :
  coefficients o = Some (a, b, c, d) ->
  o = Return (mkPlane (Q2Qc a) (Q2Qc b) c (Q2Qc d)).
Proof.
  destruct o as [[pa pb pc pd] | e]; cbn; [| discriminate].
  intros [= <- <- <- <-]. rewrite !canonical_rational. reflexivity.
Qed.

Lemma exact_cloud_fit :
  plane_fit linear_regression_fit exact_cloud
  = Return (mkPlane (qz 2) (qz 3) (-1)%Z (qz 5)).
Proof. apply (outcome_of_coefficients _ plane_fit_exact_cloud). Qed.

Lemma exact_cloud_on_plane (p : point Qc) :
  In p exact_cloud -> snd p = qz 2 * fst (fst p) + qz 3 * snd (fst p) + qz 5.
Proof.
  intros [<- | [<- | [<- | []]]]; apply Qc_is_canon; reflexivity.
Qed.

Lemma plane_fit_recovers_plane_witness :
  plane_fit linear_regression_fit exact_cloud
  = Return (mkPlane (qz 2) (qz 3) (-1)%Z (qz 5)).
Proof.
  exact (@plane_fit_recovers_plane linear_regression_fit exact_cloud (qz 2) (qz 3) (qz 5)
           linear_regression_fit_ols exact_cloud_full_rank exact_cloud_on_plane).
Defined.

Lemma plane_fit_order_independent_witness :
  plane_fit linear_regression_fit [qpoint 1 0 7; qpoint 0 0 5; qpoint 0 1 8]
  = plane_fit linear_regression_fit exact_cloud.
Proof.
  exact (@plane_fit_order_independent linear_regression_fit exact_cloud
           [qpoint 1 0 7; qpoint 0 0 5; qpoint 0 1 8]
           linear_regression_fit_ols exact_cloud_full_rank
           (perm_swap (qpoint 1 0 7) (qpoint 0 0 5) [qpoint 0 1 8])).
Defined.

Lemma two_nonzero : qz 2 <> 0.
Proof. discriminate. Qed.

Lemma plane_fit_scaled_cloud_witness :
  plane_fit linear_regression_fit (map (scale_point (qz 2)) exact_cloud)
  = Return (mkPlane (qz 2) (qz 3) (-1)%Z (qz 2 * qz 5)).
Proof.
  exact (@plane_fit_scaled_cloud linear_regression_fit exact_cloud (qz 2) (qz 2) (qz 3) (qz 5)
           linear_regression_fit_ols exact_cloud_full_rank two_nonzero exact_cloud_fit).
Defined.

(* ================================================================= *)
(** * Properties of [main] *)

Local Close Scope Qc_scope.

Section MainFacts.
Context {K : Type} {SK : Scalar K}.
Variable Log : Type.
Variable fit : regressor K.
Variable job_of : ExperimentConfig -> TrainerConfig K Log.

Lemma with_aliases_load_config (config : ExperimentConfig) :
  load_config (with_aliases config) = load_config config.
Proof.
  unfold with_aliases. destruct config as [d p l m dd mp].
  destruct d, p as [[| c p] |]; reflexivity.
Qed.

Lemma with_aliases_machine (config : ExperimentConfig) :
  machine (with_aliases config) = machine config.
Proof.
  unfold with_aliases. destruct config as [d p l m dd mp].
  destruct d, p as [[| c p] |]; reflexivity.
Qed.

(** [main] by the three cases of [load_config]. *)
Lemma main_cases (config : ExperimentConfig)
    (tr : trace (TrainerConfig K Log) Log (message K)) :
  main fit job_of config tr
  = match load_config config with
    | None =>
        launch_for fit job_of (with_aliases config) (with_aliases config)
                   (tr ++ alias_logs config)
    | Some (path, Return loaded) =>
        launch_for fit job_of loaded loaded
          (tr ++ alias_logs config
              ++ [ConsolePrint (Text ("Loading pre-set config from: " ++ path)%string)])
    | Some (path, Raise e) =>
        (Raise e,
         tr ++ alias_logs config
            ++ [ConsolePrint (Text ("Loading pre-set config from: " ++ path)%string)])
    end.
Proof.
  rewrite <- (with_aliases_load_config config).
  unfold main, with_aliases, alias_logs, launch_for, console_log, bind, emit, ret.
  destruct config as [d p l m dd mp]. cbn [data prompt].
  destruct d as [d |]; cbn [path_truthy set_datamanager_data prompt];
    destruct p as [[| c p] |]; cbn [str_truthy set_model_prompt load_config];
    (destruct l as [[path [loaded | e]] |]; cbn [lift ret raise];
     rewrite <- ?app_assoc, ?app_nil_r; reflexivity).
Qed.

(** X16: a loaded configuration replaces the command line entirely.  When
    [load_config] is set and the file gives a configuration, the launch
    takes its machine settings and its job from that configuration: the
    [data] and [prompt] aliases of the command line only show in the log,
    the aliases stored in the loaded configuration are not applied to it,
    and a [load_config] inside it is not followed. *)
Theorem main_loaded_config_replaces (config loaded : ExperimentConfig) (path : string)
    (tr : trace (TrainerConfig K Log) Log (message K)) :
  load_config config = Some (path, Return loaded) ->
  main fit job_of config tr
  = launch (@logging K Log) (plane_estimation fit)
           (num_devices (machine loaded)) (num_machines (machine loaded))
           (machine_rank (machine loaded)) (dist_url (machine loaded))
           (Some (job_of loaded)) DEFAULT_TIMEOUT
           (machine_device_type (machine loaded))
           (tr ++ alias_logs config
               ++ [ConsolePrint (Text ("Loading pre-set config from: " ++ path)%string)]).
Proof.
  intros H. rewrite main_cases, H. reflexivity.
Qed.

(** X17: [main] with a world size other than one estimates nothing.
    Without [load_config], when [num_machines * num_devices] of the
    configuration is not 1, [main] only writes the alias log lines: for 0
    it raises [ValueError], for any other value (several devices, or a
    negative count) it returns normally; the job is not started and the
    profiler is not flushed. *)
Theorem main_idle_outside_single_worker (config : ExperimentConfig)
    (tr : trace (TrainerConfig K Log) Log (message K)) :
  load_config config = None ->
  (num_machines (machine config) * num_devices (machine config))%Z <> 1%Z ->
  main fit job_of config tr
  = (if (num_machines (machine config) * num_devices (machine config) =? 0)%Z
     then Raise (ValueError "world_size cannot be 0")
     else Return tt,
     tr ++ alias_logs config).
Proof.
  intros Hload Hws. rewrite main_cases, Hload. unfold launch_for, launch.
  rewrite with_aliases_machine.
  destruct (Z.eqb_spec (num_machines (machine config) * num_devices (machine config)) 0)
    as [E | _]; [reflexivity |].
  destruct (Z.eqb_spec (num_machines (machine config) * num_devices (machine config)) 1)
    as [E | _]; [contradiction | reflexivity].
Qed.

(** X18: [main] in the single-worker case, without [load_config].  The job
    runs once, on the configuration with the aliases applied and after the
    alias log lines.  What it returns is dropped: [main] returns normally
    when the job returns or is interrupted, and raises the job's exception
    (a failed checkpoint assertion, a shape error, an error of the
    regressor) otherwise; the profiler flush is the last event in each
    case. *)
Theorem main_single_worker (config : ExperimentConfig)
    (tr : trace (TrainerConfig K Log) Log (message K)) :
  load_config config = None ->
  (num_machines (machine config) * num_devices (machine config))%Z = 1%Z ->
  let job := job_of (with_aliases config) in
  let run := plane_estimation fit job (tr ++ alias_logs config ++ [CallEntryPoint job]) in
  let flush := FlushProfiler (logging job) in
  main fit job_of config tr
  = match run with
    | (Return _, tr1) => (Return tt, tr1 ++ [flush])
    | (Raise KeyboardInterrupt, tr1) =>
        (Return tt, tr1 ++ [ConsoleTraceback KeyboardInterrupt; flush])
    | (Raise e, tr1) => (Raise e, tr1 ++ [flush])
    end.
Proof.
  intros Hload Hws job run flush. rewrite main_cases, Hload. unfold launch_for.
  rewrite with_aliases_machine.
  rewrite launch_single_worker by exact Hws.
  subst run. rewrite <- app_assoc. reflexivity.
Qed.

End MainFacts.

Lemma main_loaded_config_replaces_witness :
  main linear_regression_fit small_job_of cli_experiment []
  = launch (@logging Qc unit) (plane_estimation linear_regression_fit)
           1 1 0 "auto" (Some small_job) DEFAULT_TIMEOUT cuda
           [ConsolePrint (Text "Using --data alias for --data.pipeline.datamanager.data");
            ConsolePrint (Text "Using --prompt alias for --data.pipeline.model.prompt");
            ConsolePrint (Text "Loading pre-set config from: run/config.yml")].
Proof.
  exact (@main_loaded_config_replaces Qc Qc_scalar unit linear_regression_fit small_job_of
           cli_experiment single_experiment "run/config.yml" [] eq_refl).
Defined.

Lemma main_idle_outside_single_worker_witness :
  main linear_regression_fit small_job_of multi_gpu_experiment []
  = (Return tt,
     [ConsolePrint (Text "Using --data alias for --data.pipeline.datamanager.data")]).
Proof.
  refine (@main_idle_outside_single_worker Qc Qc_scalar unit linear_regression_fit
            small_job_of multi_gpu_experiment [] eq_refl _).
  discriminate.
Defined.

Lemma main_single_worker_witness :
  main linear_regression_fit small_job_of single_experiment []
  = match plane_estimation linear_regression_fit small_job [CallEntryPoint small_job] with
    | (Return _, tr1) => (Return tt, tr1 ++ [FlushProfiler tt])
    | (Raise KeyboardInterrupt, tr1) =>
        (Return tt, tr1 ++ [ConsoleTraceback KeyboardInterrupt; FlushProfiler tt])
    | (Raise e, tr1) => (Raise e, tr1 ++ [FlushProfiler tt])
    end.
Proof.
  exact (@main_single_worker Qc Qc_scalar unit linear_regression_fit small_job_of
           single_experiment [] eq_refl eq_refl).
Defined.

Lemma load_checkpoint_only_existing_witness :
  exists evs,
    snd (load_checkpoint_state checkpoint_job []) = [] ++ evs
    /\ List.length (loaded_paths evs) <= 1
    /\ (forall p, In p (loaded_paths evs) ->
          In p ["step-000000010.ckpt"; "step-000000005.ckpt"]%string).
Proof.
  exact (@load_checkpoint_only_existing Qc unit checkpoint_job []).
Defined.

Lemma plane_estimation_failure_reports_nothing_witness :
  plane_estimation linear_regression_fit missing_checkpoint_job []
  = (Raise (AssertionError "Checkpoint step-000000003.ckpt does not exist"),
     snd (load_checkpoint_state missing_checkpoint_job [])).
Proof.
  exact (@plane_estimation_failure_reports_nothing Qc Qc_scalar unit
           linear_regression_fit missing_checkpoint_job []
           (AssertionError "Checkpoint step-000000003.ckpt does not exist")
           (or_introl eq_refl)).
Defined.

(* ================================================================= *)
(** * [launch] and [_find_free_port] *)

Section SocketFacts.
Variables Cfg Log Msg V : Type.
Variable logging_of : Cfg -> Log.

Lemma socket_free_snoc (tr : trace Cfg Log Msg) (ev : event Cfg Log Msg) :
  socket_free tr -> is_socket_event ev = false -> socket_free (tr ++ [ev]).
Proof.
  unfold socket_free. intros Ht Hev. rewrite forallb_app, Ht. cbn. rewrite Hev. reflexivity.
Qed.

(** X19: [launch] never touches a socket, whatever its arguments
    ([dist_url = "auto"] and world sizes above one included): when the
    trace holds no socket event before the call and the entry point adds
    none, it holds none afterwards.  [_find_free_port], which [launch]
    could use to pick a rendezvous port, does record them: it opens a
    socket, binds it to port 0, closes it and returns the port the
    operating system chose. *)
Theorem launch_opens_no_socket (main_func : Cfg -> M Cfg Log Msg V)
    (ndpm nm rank : Z) (url : string) (config : option Cfg) (timeout : Z)
    (dev : device_type) (tr : trace Cfg Log Msg) :
  (forall c t, socket_free t -> socket_free (snd (main_func c t))) ->
  socket_free tr ->
  socket_free (snd (launch logging_of main_func ndpm nm rank url config timeout dev tr))
  /\ forall os_port,
       _find_free_port os_port tr
       = (Return os_port, tr ++ [SocketCreate; SocketBind 0; SocketClose]).
Proof.
  intros Hmain Htr. split.
  - destruct config as [c |]; [| exact Htr].
    destruct (Z.eq_dec (nm * ndpm) 1) as [E1 | N1].
    + rewrite launch_single_worker by exact E1.
      assert (Hcall : socket_free (tr ++ [CallEntryPoint c]))
        by (apply socket_free_snoc; [exact Htr | reflexivity]).
      specialize (Hmain c _ Hcall).
      destruct (main_func c (tr ++ [CallEntryPoint c])) as [[v | e] tr1]; cbn [snd] in *.
      * apply socket_free_snoc; [exact Hmain | reflexivity].
      * destruct e; cbn [snd];
          try (apply socket_free_snoc; [exact Hmain | reflexivity]).
        change (tr1 ++ [ConsoleTraceback KeyboardInterrupt; FlushProfiler (logging_of c)])
          with (tr1 ++ [ConsoleTraceback KeyboardInterrupt] ++ [FlushProfiler (logging_of c)]).
        rewrite app_assoc.
        apply socket_free_snoc; [| reflexivity].
        apply socket_free_snoc; [exact Hmain | reflexivity].
    + unfold launch.
      destruct (Z.eqb_spec (nm * ndpm) 0) as [_ | _]; [exact Htr |].
      destruct (Z.eqb_spec (nm * ndpm) 1) as [E | _]; [contradiction | exact Htr].
  - intros os_port. unfold _find_free_port, bind, emit, ret.
    rewrite <- !app_assoc. reflexivity.
Qed.

End SocketFacts.

Lemma launch_opens_no_socket_witness :
  socket_free (snd (launch (fun c : unit => c) quiet_entry 4 2 0 "auto" (Some tt) 1800 cuda []))
  /\ forall os_port,
       _find_free_port os_port (@nil (event unit unit unit))
       = (Return os_port, [SocketCreate; SocketBind 0; SocketClose]).
Proof.
  refine (@launch_opens_no_socket unit unit unit unit (fun c => c) quiet_entry
            4 2 0 "auto" (Some tt) 1800 cuda [] _ eq_refl).
  intros c t Ht. exact Ht.
Defined.
